(** * The generational slot map of SlotMapExample/Main.cpp (namespace v4)

    A shallow embedding of the fourth object table of the example: a
    list of fixed-size chunks of objects, a free list of slot numbers and
    64-bit object ids whose low half is the slot number and whose high half
    counts the destructions of the slot.

    The C++ globals [object_table] and [free_list] become the two fields of
    a [pool] record that is threaded through a small state-and-fault monad;
    an operation the C++ standard leaves undefined (an unchecked
    [operator[]] past the end, a write through [nullptr], [back()] of an
    empty vector) ends the computation with [Undefined].  Memory is taken
    to be unlimited: [new] does not fail.

    The three earlier tables of the file ([v1], [v2], [v3]) and its test
    program [main] follow the slot map, embedded in the same way. *)

From Stdlib Require Import ZArith Lia.
From stdpp Require Import base tactics option list gmap.

Local Open Scope Z_scope.

(** ** The integer types of the program *)

Module Cxx.

(** Conversion of a mathematical integer to [long long] (64 bits, two's
    complement), to [int] (32 bits, two's complement) and to [size_t]
    (unsigned; 64 bits, as on the targets where [long long] and pointers
    have the same width).  A value that does not fit is kept modulo the
    width of the type, which C++20 prescribes and earlier standards leave
    to implementations that all do so. *)
Definition to_long_long (z : Z) : Z := (z + 2 ^ 63) mod 2 ^ 64 - 2 ^ 63.
Definition to_int (z : Z) : Z := (z + 2 ^ 31) mod 2 ^ 32 - 2 ^ 31.
Definition to_size_t (z : Z) : Z := z mod 2 ^ 64.

(** [x << n] on [long long]: the bits shifted out of the 64-bit word are
    lost (the C++20 reading, and what compilers for two's complement
    machines have always produced). *)
Definition shl (x n : Z) : Z := to_long_long (Z.shiftl x n).

(** [x >> n] on [long long]: the arithmetic shift. *)
Definition shr (x n : Z) : Z := Z.shiftr x n.

(** [x + y] on [long long]. *)
Definition add (x y : Z) : Z := to_long_long (x + y).

Definition is_long_long (z : Z) : Prop := - 2 ^ 63 <= z < 2 ^ 63.
Definition is_int (z : Z) : Prop := - 2 ^ 31 <= z < 2 ^ 31.

End Cxx.

(** ** The program *)

Module v4.
Import Cxx.

(** [typedef long long object_id;] *)
Definition object_id : Type := Z.

(** [struct object { object_id id; };] *)
Record object : Type := Object { id : object_id }.

(** [const size_t chunk_size = 256;] *)
Definition chunk_size : Z := 256.

(** The literal [0xFFFFFFFF]. *)
Definition low_mask : Z := 0xFFFFFFFF.

(** The two global vectors.  A chunk obtained from [new object[chunk_size]]
    is the list of its objects; [object_table] lists the chunks in the order
    of their allocation, [free_list] has its [back()] at the end. *)
Record pool : Type := Pool {
  object_table : list (list object);
  free_list : list Z
}.

(** The state of the program before the first call. *)
Definition empty : pool := Pool [] [].

(** An [object*] into a chunk: the position of the chunk in [object_table]
    and the offset in the chunk. *)
Record pointer : Type := Pointer { chunk_of : nat; offset_of : nat }.

#[global] Instance object_eq_dec : EqDecision object.
Proof. solve_decision. Defined.

#[global] Instance pointer_eq_dec : EqDecision pointer.
Proof. solve_decision. Defined.

(** *** Faults and the monad *)

Inductive fault : Type :=
| OutOfBounds      (* [operator[]] at or past [size()] *)
| NullDereference  (* access through [nullptr] *)
| EmptyBack.       (* [back()] or [pop_back()] of an empty vector *)

Inductive outcome (A : Type) : Type :=
| Ok (a : A)
| Undefined (f : fault).
Arguments Ok {A} a.
Arguments Undefined {A} f.

Definition M (A : Type) : Type := pool -> outcome (A * pool).

Definition ret {A} (a : A) : M A := fun s => Ok (a, s).

Definition bind {A B} (m : M A) (k : A -> M B) : M B :=
  fun s =>
    match m s with
    | Ok (a, s') => k a s'
    | Undefined f => Undefined f
    end.

Definition fail {A} (f : fault) : M A := fun _ => Undefined f.

Notation "'let*' x := m 'in' k" := (bind m (fun x => k))
  (at level 10, x binder, m at level 100, k at level 200).
Notation "m ;; k" := (bind m (fun _ => k))
  (at level 100, k at level 200, right associativity).

(** *** Memory accesses *)

(** [object_table[k]] for a [size_t] k: the chunk pointer stored there. *)
Definition table_at (k : Z) : M nat :=
  fun s =>
    if decide (k < Z.of_nat (length (object_table s)))
    then Ok (Z.to_nat k, s)
    else Undefined OutOfBounds.

(** [chunk + o], [chunk[o]]: the object at offset [o] of a chunk. *)
Definition element (c : nat) (o : Z) : pointer := Pointer c (Z.to_nat o).

(** What is stored at a pointer, if it points into a chunk. *)
Definition deref (s : pool) (p : pointer) : option object :=
  chunk ← object_table s !! chunk_of p; chunk !! offset_of p.

(** [obj->id] read. *)
Definition load_id (p : pointer) : M object_id :=
  fun s =>
    match deref s p with
    | Some o => Ok (id o, s)
    | None => Undefined OutOfBounds
    end.

(** The chunks after [v] has been written to the id of the object at [p]. *)
Definition assign (s : pool) (p : pointer) (v : object_id) : list (list object) :=
  alter (<[offset_of p := Object v]>) (chunk_of p) (object_table s).

(** [obj->id = v]. *)
Definition store_id (p : pointer) (v : object_id) : M unit :=
  fun s =>
    match deref s p with
    | Some _ => Ok (tt, Pool (assign s p v) (free_list s))
    | None => Undefined OutOfBounds
    end.

(** [free_list.empty()], [free_list.back()], [free_list.pop_back()],
    [free_list.push_back(v)] with [v] already converted to [int]. *)
Definition free_list_empty : M bool :=
  fun s => Ok (bool_decide (free_list s = []), s).

Definition free_list_back : M Z :=
  fun s =>
    match last (free_list s) with
    | Some v => Ok (v, s)
    | None => Undefined EmptyBack
    end.

Definition free_list_pop_back : M unit :=
  fun s =>
    match free_list s with
    | [] => Undefined EmptyBack
    | _ => Ok (tt, Pool (object_table s) (removelast (free_list s)))
    end.

Definition free_list_push_back (v : Z) : M unit :=
  fun s => Ok (tt, Pool (object_table s) (free_list s ++ [v])).

(** [object_table.size()] *)
Definition object_table_size : M Z :=
  fun s => Ok (Z.of_nat (length (object_table s)), s).

(** [object_table.push_back(chunk)] *)
Definition object_table_push_back (chunk : list object) : M unit :=
  fun s => Ok (tt, Pool (object_table s ++ [chunk]) (free_list s)).

(** *** create_object *)

(** The body of the loop
    [for (int i = chunk_size - 1; i >= 0; --i)]
    for the [n] values [n - 1, ..., 0] of [i]; [chunk] is the array being
    filled, which is not yet in [object_table]. *)
Fixpoint fill_chunk (n : nat) (chunk : list object) : M (list object) :=
  match n with
  | O => ret chunk
  | S n' =>
      let i := Z.of_nat n' in
      let* size := object_table_size in
      let chunk' := <[n' := Object (to_long_long (to_size_t (size * chunk_size + i)))]> chunk in
      let* size := object_table_size in
      free_list_push_back (to_int (to_size_t (size * chunk_size + i)));;
      fill_chunk n' chunk'
  end.

(** [new object[chunk_size]]: the array is not initialised; every element is
    assigned by the loop before it is read, and the value chosen here for the
    initial contents plays no role (lemma [fill_chunk_any]). *)
Definition new_chunk : list object := replicate (Z.to_nat chunk_size) (Object 0).

Definition create_object : M object_id :=
  let* e := free_list_empty in
  (if e : bool then
     let* chunk := fill_chunk (Z.to_nat (to_int (to_size_t (chunk_size - 1))) + 1) new_chunk in
     object_table_push_back chunk
   else ret tt);;
  let* free := free_list_back in
  free_list_pop_back;;
  let* c := table_at (to_size_t free / chunk_size) in
  load_id (element c (to_size_t free mod chunk_size)).

(** *** get_object *)

Definition get_object (id : object_id) : M (option pointer) :=
  let* c := table_at (to_size_t (Z.land id low_mask) / chunk_size) in
  let obj := element c (to_size_t (Z.land id low_mask) mod chunk_size) in
  let* v := load_id obj in
  ret (if decide (v <> id) then None else Some obj).

(** *** destroy_object *)

Definition destroy_object (id : object_id) : M unit :=
  let* obj := get_object id in
  match obj with
  | None => fail NullDereference
  | Some p =>
      let* v := load_id p in
      let* w := load_id p in
      store_id p (Z.lor (Z.land v low_mask) (shl (add (shr w 32) 1) 32));;
      free_list_push_back (to_int (Z.land id low_mask))
  end.

(** *** The two halves of an object id *)

(** [id & 0xFFFFFFFF] is the number of the slot and [id >> 32] its
    generation; [index | (generation << 32)] is how [destroy_object] puts
    the two together again. *)
Definition index_of (h : object_id) : Z := Z.land h low_mask.
Definition generation_of (h : object_id) : Z := shr h 32.

(** The generation counter is the 32 bits of the high half of the id.
    [id >> 32] is a [long long] that carries the sign of the id above these
    bits; the program uses it only in [((id >> 32) + 1) << 32], which shifts
    the sign out again.  [generation_field] is the counter itself, the 32
    bits as a number without sign. *)
Definition generation_field (h : object_id) : Z := Z.land (generation_of h) low_mask.
Definition decode (h : object_id) : Z * Z := (index_of h, generation_field h).
Definition encode (index generation : Z) : object_id :=
  Z.lor index (shl generation 32).

(** The id that [destroy_object] writes over the id [v]. *)
Definition next_id (v : object_id) : object_id :=
  Z.lor (Z.land v low_mask) (shl (add (shr v 32) 1) 32).

(** *** Slots *)

(** The number of slots allocated so far. *)
Definition slots (s : pool) : Z := chunk_size * Z.of_nat (length (object_table s)).

(** [object_table[k / chunk_size] + (k % chunk_size)] *)
Definition locate (k : Z) : pointer :=
  element (Z.to_nat (k / chunk_size)) (k mod chunk_size).

(** The id stored in slot number [k], if the slot is allocated. *)
Definition slot (s : pool) (k : Z) : option object_id := id <$> deref s (locate k).

(** *** The invariant of the two vectors *)

(** The object of slot [k] holds a [long long] whose low half is [k]. *)
Definition slot_ok (k : Z) (o : object) : Prop :=
  is_long_long (id o) /\ index_of (id o) = k.

(** Chunk number [c] has [chunk_size] objects, the one at offset [o] being
    slot [chunk_size * c + o]. *)
Definition chunk_ok (c : Z) (chunk : list object) : Prop :=
  Forall2 (fun o => slot_ok (chunk_size * c + o)) (seqZ 0 chunk_size) chunk.

(** The slot numbers fit [int] (there are at most [2 ^ 23] chunks), every
    chunk is as above, and the free list holds numbers of allocated slots. *)
Definition wf (s : pool) : Prop :=
  Z.of_nat (length (object_table s)) <= 2 ^ 23 /\
  Forall2 chunk_ok (seqZ 0 (Z.of_nat (length (object_table s)))) (object_table s) /\
  Forall (fun f => 0 <= f < slots s) (free_list s).

#[global] Instance is_long_long_dec z : Decision (is_long_long z).
Proof. unfold is_long_long. apply _. Defined.

#[global] Instance slot_ok_dec k o : Decision (slot_ok k o).
Proof. unfold slot_ok. apply _. Defined.

#[global] Instance chunk_ok_dec c chunk : Decision (chunk_ok c chunk).
Proof. unfold chunk_ok. apply _. Defined.

#[global] Instance wf_dec s : Decision (wf s).
Proof. unfold wf. apply _. Defined.

(** *** The two halves of [create_object] *)

(** The id given to a fresh slot at offset [i] of the chunk being added, and
    the number pushed on the free list for it. *)
Definition fresh_id (s : pool) (i : Z) : object :=
  Object (to_long_long (to_size_t (Z.of_nat (length (object_table s)) * chunk_size + i))).
Definition fresh_number (s : pool) (i : Z) : Z :=
  to_int (to_size_t (Z.of_nat (length (object_table s)) * chunk_size + i)).

(** The pool when the [if] block of [create_object] has added a chunk. *)
Definition grown (s : pool) : pool :=
  Pool (object_table s ++ [fresh_id s <$> seqZ 0 chunk_size])
       (free_list s ++ (fresh_number s <$> reverse (seqZ 0 chunk_size))).

(** The second half of [create_object]: take the back of the free list. *)
Definition take_free : M object_id :=
  let* free := free_list_back in
  free_list_pop_back;;
  let* c := table_at (to_size_t free / chunk_size) in
  load_id (element c (to_size_t free mod chunk_size)).

(** *** Sequences of calls *)

Inductive op : Type :=
| Create
| Get (h : object_id)
| Destroy (h : object_id).

Definition exec (o : op) : M unit :=
  match o with
  | Create => create_object;; ret tt
  | Get h => get_object h;; ret tt
  | Destroy h => destroy_object h
  end.

Fixpoint run (ops : list op) : M unit :=
  match ops with
  | [] => ret tt
  | o :: ops' => exec o;; run ops'
  end.

(** How many calls of [ops] destroy slot number [k]. *)
Fixpoint destroys_of (k : Z) (ops : list op) : Z :=
  match ops with
  | [] => 0
  | Destroy h :: ops' =>
      (if decide (index_of h = k) then 1 else 0) + destroys_of k ops'
  | _ :: ops' => destroys_of k ops'
  end.

(** The pool a sequence of calls leaves behind ([s] itself if a call has
    undefined behaviour). *)
Definition state_after (ops : list op) (s : pool) : pool :=
  match run ops s with
  | Ok (_, s') => s'
  | Undefined _ => s
  end.

(** *** Pools with one chunk, and the pool at the capacity of [int] *)

(** The pool with one chunk in which slot 0 holds [v] and every other slot
    is fresh and on the free list, slot 0 being in use or freed last. *)
Definition first_chunk (v : object_id) : list object :=
  Object v :: (Object <$> seqZ 1 (chunk_size - 1)).
Definition slot0_in_use (v : object_id) : pool :=
  Pool [first_chunk v] (reverse (seqZ 1 (chunk_size - 1))).
Definition slot0_free (v : object_id) : pool :=
  Pool [first_chunk v] (reverse (seqZ 1 (chunk_size - 1)) ++ [0]).

(** [n] rounds of creating an object in slot 0 and destroying it again,
    where [h] is the id last destroyed there. *)
Fixpoint churn (n : nat) (h : object_id) : list op :=
  match n with
  | O => []
  | S n' => Create :: Destroy (next_id h) :: churn n' (next_id h)
  end.

(** The pool after [k] calls of [create_object] and no other call: the
    slots [0 .. k - 1] are in use, the chunks are those needed for them, all
    with generation 0, and the free list holds what is left of the last
    chunk. *)
Definition fresh_chunk (c : Z) : list object :=
  (fun o => Object (chunk_size * c + o)) <$> seqZ 0 chunk_size.
Definition fresh_table (chunks : Z) : list (list object) :=
  fresh_chunk <$> seqZ 0 chunks.
Definition chunks_for (k : Z) : Z := (k + (chunk_size - 1)) / chunk_size.
Definition created (k : Z) : pool :=
  Pool (fresh_table (chunks_for k))
       (reverse (seqZ k (chunk_size * chunks_for k - k))).

(** The pool with [2 ^ 23] chunks and every slot in use, at which the slot
    numbers reach the capacity of [int]. *)
Definition full : pool := Pool (fresh_table (2 ^ 23)) [].

End v4.

(** ** The three earlier object tables

    The namespaces [v1], [v2] and [v3] of the same file, with [int] ids.
    They share the faults and the monad below; a sequence of calls is a list
    of [v4.op] as before. *)

Module Sem.

Inductive fault : Type :=
| OutOfBounds         (* [operator[]] at or past [size()] *)
| NullDereference     (* access through [nullptr] *)
| EmptyBack           (* [back()] or [pop_back()] of an empty vector *)
| IndeterminateValue  (* read of an [int] that was never assigned *)
| SignedOverflow      (* [++] on [INT_MAX] *)
| AssertionFailed.    (* [assert] of a false condition *)

Inductive result (A : Type) : Type :=
| Done (a : A)
| Fault (f : fault).
Arguments Done {A} a.
Arguments Fault {A} f.

Definition M (S A : Type) : Type := S -> result (A * S).

Definition ret {S A} (a : A) : M S A := fun s => Done (a, s).

Definition bind {S A B} (m : M S A) (k : A -> M S B) : M S B :=
  fun s =>
    match m s with
    | Done (a, s') => k a s'
    | Fault f => Fault f
    end.

Definition fail {S A} (f : fault) : M S A := fun _ => Fault f.

Notation "'let+' x := m 'in' k" := (bind m (fun x => k))
  (at level 10, x binder, m at level 100, k at level 200).
Notation "'do+' m 'in' k" := (bind m (fun _ => k))
  (at level 10, m at level 100, k at level 200).

(** A sequence of calls of the three functions of a table. *)
Section calls.
Context {S P : Type}.
Context (create : M S Z) (get : Z -> M S (option P)) (destroy : Z -> M S unit).

Definition exec (o : v4.op) : M S unit :=
  match o with
  | v4.Create => do+ create in ret tt
  | v4.Get h => do+ get h in ret tt
  | v4.Destroy h => destroy h
  end.

Fixpoint run (ops : list v4.op) : M S unit :=
  match ops with
  | [] => ret tt
  | o :: ops' => do+ exec o in run ops'
  end.

(** The calls of one namespace in the loops of the test program:
    [for (...) ids.push_back(create_object());] for [n] values of [i], with
    the ids in the order of the calls, and
    [for (...) destroy_object(ids[i]);] over the ids [hs]. *)
Fixpoint creates (n : nat) : M S (list Z) :=
  match n with
  | O => ret []
  | Datatypes.S n' =>
      let+ h := create in
      let+ hs := creates n' in
      ret (h :: hs)
  end.

Fixpoint destroys (hs : list Z) : M S unit :=
  match hs with
  | [] => ret tt
  | h :: hs' => do+ destroy h in destroys hs'
  end.

End calls.

End Sem.

(** *** v1: the ordered map *)

Module v1.
Import Cxx Sem.

(** [struct object { ...; int id; };] *)
Record object : Type := Object { id : Z }.

(** [int next_id] and [std::map<int, object> object_table]. *)
Record table : Type := Table {
  next_id : Z;
  object_table : gmap Z object
}.

Definition empty : table := Table 0 ∅.

(** An [object*] into the map: the key of the node it points into. *)
Definition pointer : Type := Z.

Definition deref (s : table) (p : pointer) : option object := object_table s !! p.

(** [object_table[next_id] = object(next_id); return next_id++;] *)
Definition create_object : M table Z :=
  fun s =>
    let t := <[next_id s := Object (next_id s)]> (object_table s) in
    if decide (next_id s + 1 < 2 ^ 31)
    then Done (next_id s, Table (next_id s + 1) t)
    else Fault SignedOverflow.

(** [find], then [nullptr] or the address of the object found. *)
Definition get_object (id : Z) : M table (option pointer) :=
  fun s =>
    match object_table s !! id with
    | Some _ => Done (Some id, s)
    | None => Done (None, s)
    end.

(** [find], then [erase] if found. *)
Definition destroy_object (id : Z) : M table unit :=
  fun s =>
    match object_table s !! id with
    | Some _ => Done (tt, Table (next_id s) (delete id (object_table s)))
    | None => Done (tt, s)
    end.

Definition run : list v4.op -> M table unit := Sem.run create_object get_object destroy_object.

(** The ids handed out so far are those below [next_id]; the object under a
    key holds that key. *)
Definition inv (s : table) : Prop :=
  0 <= next_id s < 2 ^ 31 /\
  forall k o, object_table s !! k = Some o -> 0 <= k < next_id s /\ id o = k.

Definition create_objects : nat -> M table (list Z) := creates create_object.
Definition destroy_objects : list Z -> M table unit := destroys destroy_object.

(** How many more ids [next_id++] can hand out. *)
Definition room (s : table) : Z := 2 ^ 31 - 1 - next_id s.

End v1.

(** *** v2: the vector with a free list *)

Module v2.
Import Cxx Sem.

(** [struct object { ...; int id; };] *)
Record object : Type := Object { id : Z }.

(** [std::vector<object> object_table] and [std::vector<int> free_list]. *)
Record table : Type := Table {
  object_table : list object;
  free_list : list Z
}.

Definition empty : table := Table [] [].

(** An [object*] into the vector: the position of the object.  (The test
    program uses such a pointer at once; that [push_back] may move the
    objects is not modelled.) *)
Abbreviation pointer := nat (only parsing).

(** [object_table[k]] for a [size_t] k. *)
Definition table_at (k : Z) : M table pointer :=
  fun s =>
    if decide (k < Z.of_nat (length (object_table s)))
    then Done (Z.to_nat k, s)
    else Fault OutOfBounds.

Definition load_id (p : pointer) : M table Z :=
  fun s =>
    match object_table s !! p with
    | Some o => Done (id o, s)
    | None => Fault OutOfBounds
    end.

Definition store_id (p : pointer) (v : Z) : M table unit :=
  fun s =>
    match object_table s !! p with
    | Some _ => Done (tt, Table (<[p := Object v]> (object_table s)) (free_list s))
    | None => Fault OutOfBounds
    end.

Definition free_list_pop_back : M table unit :=
  fun s =>
    match free_list s with
    | [] => Fault EmptyBack
    | _ => Done (tt, Table (object_table s) (removelast (free_list s)))
    end.

Definition free_list_push_back (v : Z) : M table unit :=
  fun s => Done (tt, Table (object_table s) (free_list s ++ [v])).

Definition object_table_size : M table Z :=
  fun s => Done (Z.of_nat (length (object_table s)), s).

Definition object_table_push_back (o : object) : M table unit :=
  fun s => Done (tt, Table (object_table s ++ [o]) (free_list s)).

Definition free_list_empty : M table bool :=
  fun s => Done (bool_decide (free_list s = []), s).

Definition free_list_back : M table Z :=
  fun s =>
    match last (free_list s) with
    | Some v => Done (v, s)
    | None => Fault EmptyBack
    end.

Definition create_object : M table Z :=
  let+ e := free_list_empty in
  if negb e then
    let+ free := free_list_back in
    do+ free_list_pop_back in
    let+ p := table_at (to_size_t free) in
    do+ store_id p free in
    ret free
  else
    let+ size := object_table_size in
    let id := to_int size in
    do+ object_table_push_back (Object id) in
    ret id.

Definition get_object (id : Z) : M table (option pointer) :=
  let+ p := table_at (to_size_t id) in
  let+ v := load_id p in
  if decide (v = -1) then ret None
  else let+ q := table_at (to_size_t id) in ret (Some q).

Definition destroy_object (id : Z) : M table unit :=
  let+ p := table_at (to_size_t id) in
  do+ store_id p (-1) in
  free_list_push_back id.

Definition run : list v4.op -> M table unit := Sem.run create_object get_object destroy_object.

Definition create_objects : nat -> M table (list Z) := creates create_object.
Definition destroy_objects : list Z -> M table unit := destroys destroy_object.

(** The vector has at most [2 ^ 31] objects and the free list holds
    positions of the vector. *)
Definition wf (s : table) : Prop :=
  Z.of_nat (length (object_table s)) <= 2 ^ 31 /\
  Forall (fun f => 0 <= f < Z.of_nat (length (object_table s))) (free_list s).

(** How many more objects the table can take with ids that are [int]s. *)
Definition room (s : table) : Z :=
  Z.of_nat (length (free_list s)) + (2 ^ 31 - Z.of_nat (length (object_table s))).

End v2.

(** *** v3: chunks with a free list, ids recycled as they are *)

Module v3.
Import Cxx Sem.

(** [struct object { int id; };]  An object of a chunk obtained from
    [new object[chunk_size]] has no value in [id] until one is assigned:
    [None]. *)
Record object : Type := Object { id : option Z }.

Definition chunk_size : Z := 256.

Record table : Type := Table {
  object_table : list (list object);
  free_list : list Z
}.

Definition empty : table := Table [] [].

Record pointer : Type := Pointer { chunk_of : nat; offset_of : nat }.

#[global] Instance pointer_eq_dec : EqDecision pointer.
Proof. solve_decision. Defined.

Definition table_at (k : Z) : M table nat :=
  fun s =>
    if decide (k < Z.of_nat (length (object_table s)))
    then Done (Z.to_nat k, s)
    else Fault OutOfBounds.

Definition element (c : nat) (o : Z) : pointer := Pointer c (Z.to_nat o).

Definition deref (s : table) (p : pointer) : option object :=
  chunk ← object_table s !! chunk_of p; chunk !! offset_of p.

(** [obj->id] read. *)
Definition load_id (p : pointer) : M table Z :=
  fun s =>
    match deref s p with
    | Some (Object (Some v)) => Done (v, s)
    | Some (Object None) => Fault IndeterminateValue
    | None => Fault OutOfBounds
    end.

Definition assign (s : table) (p : pointer) (v : Z) : list (list object) :=
  alter (<[offset_of p := Object (Some v)]>) (chunk_of p) (object_table s).

(** [obj->id = v]. *)
Definition store_id (p : pointer) (v : Z) : M table unit :=
  fun s =>
    match deref s p with
    | Some _ => Done (tt, Table (assign s p v) (free_list s))
    | None => Fault OutOfBounds
    end.

Definition free_list_empty : M table bool :=
  fun s => Done (bool_decide (free_list s = []), s).

Definition free_list_back : M table Z :=
  fun s =>
    match last (free_list s) with
    | Some v => Done (v, s)
    | None => Fault EmptyBack
    end.

Definition free_list_pop_back : M table unit :=
  fun s =>
    match free_list s with
    | [] => Fault EmptyBack
    | _ => Done (tt, Table (object_table s) (removelast (free_list s)))
    end.

Definition free_list_push_back (v : Z) : M table unit :=
  fun s => Done (tt, Table (object_table s) (free_list s ++ [v])).

Definition object_table_size : M table Z :=
  fun s => Done (Z.of_nat (length (object_table s)), s).

Definition object_table_push_back (chunk : list object) : M table unit :=
  fun s => Done (tt, Table (object_table s ++ [chunk]) (free_list s)).

(** The loop [for (int i = chunk_size - 1; i >= 0; --i)] for the [n] values
    [n - 1, ..., 0] of [i]. *)
Fixpoint push_chunk (n : nat) : M table unit :=
  match n with
  | O => ret tt
  | S n' =>
      let+ size := object_table_size in
      do+ free_list_push_back (to_int (to_size_t (size * chunk_size + Z.of_nat n'))) in
      push_chunk n'
  end.

(** [new object[chunk_size]] *)
Definition new_chunk : list object := replicate (Z.to_nat chunk_size) (Object None).

Definition create_object : M table Z :=
  let+ e := free_list_empty in
  do+ (if e : bool then
         do+ push_chunk (Z.to_nat (to_int (to_size_t (chunk_size - 1))) + 1) in
         object_table_push_back new_chunk
       else ret tt) in
  let+ free := free_list_back in
  do+ free_list_pop_back in
  let+ c := table_at (to_size_t free / chunk_size) in
  do+ store_id (element c (to_size_t free mod chunk_size)) free in
  ret free.

Definition get_object (id : Z) : M table (option pointer) :=
  let+ c := table_at (to_size_t id / chunk_size) in
  let obj := element c (to_size_t id mod chunk_size) in
  let+ v := load_id obj in
  ret (if decide (v = -1) then None else Some obj).

Definition destroy_object (id : Z) : M table unit :=
  let+ obj := get_object id in
  match obj with
  | None => fail NullDereference
  | Some p => do+ store_id p (-1) in free_list_push_back id
  end.

Definition run : list v4.op -> M table unit := Sem.run create_object get_object destroy_object.

(** [object_table[k / chunk_size] + (k % chunk_size)] *)
Definition locate (k : Z) : pointer :=
  element (Z.to_nat (k / chunk_size)) (k mod chunk_size).

(** The number pushed on the free list for offset [i] of the chunk being
    added. *)
Definition fresh_number (s : table) (i : Z) : Z :=
  to_int (to_size_t (Z.of_nat (length (object_table s)) * chunk_size + i)).

Definition create_objects : nat -> M table (list Z) := creates create_object.
Definition destroy_objects : list Z -> M table unit := destroys destroy_object.

Definition slots (s : table) : Z := chunk_size * Z.of_nat (length (object_table s)).

(** At most [2 ^ 23] chunks, each of [chunk_size] objects; the free list
    holds numbers of allocated slots, none of them twice.  Nothing is
    required of the ids stored. *)
Definition wf (s : table) : Prop :=
  Z.of_nat (length (object_table s)) <= 2 ^ 23 /\
  Forall (fun chunk => length chunk = Z.to_nat chunk_size) (object_table s) /\
  Forall (fun f => 0 <= f < slots s) (free_list s) /\
  NoDup (free_list s).

Definition room (s : table) : Z :=
  Z.of_nat (length (free_list s)) +
  chunk_size * (2 ^ 23 - Z.of_nat (length (object_table s))).

End v3.

(** *** Calls in a row *)

Module v4_loops.
Import v4.

(** [for (...) ids.push_back(v4::create_object());] for [n] rounds: the ids
    in the order of the calls. *)
Fixpoint create_objects (n : nat) : M (list object_id) :=
  match n with
  | O => ret []
  | S n' =>
      let* h := create_object in
      let* hs := create_objects n' in
      ret (h :: hs)
  end.

(** [for (...) v4::destroy_object(ids[i]);] over the ids [hs]. *)
Fixpoint destroy_objects (hs : list object_id) : M unit :=
  match hs with
  | [] => ret tt
  | h :: hs' => destroy_object h;; destroy_objects hs'
  end.

(** How many more objects the pool can take: the slots on the free list
    and those of the chunks that can still be added. *)
Definition room (s : pool) : Z :=
  Z.of_nat (length (free_list s)) +
  chunk_size * (2 ^ 23 - Z.of_nat (length (object_table s))).

End v4_loops.

(** *** The test program *)

Module test.
Import Sem.

(** The four tables and the four vectors of ids of [main]. *)
Record world : Type := World {
  t1 : v1.table;
  t2 : v2.table;
  t3 : v3.table;
  t4 : v4.pool;
  v1_ids : list Z;
  v2_ids : list Z;
  v3_ids : list Z;
  v4_ids : list Z
}.

Definition initial : world :=
  World v1.empty v2.empty v3.empty v4.empty [] [] [] [].

(** A call of a function of one namespace, in the world. *)
Definition call1 {A} (m : M v1.table A) : M world A :=
  fun w =>
    match m (t1 w) with
    | Done (a, t) =>
        Done (a, World t (t2 w) (t3 w) (t4 w) (v1_ids w) (v2_ids w) (v3_ids w) (v4_ids w))
    | Fault f => Fault f
    end.

Definition call2 {A} (m : M v2.table A) : M world A :=
  fun w =>
    match m (t2 w) with
    | Done (a, t) =>
        Done (a, World (t1 w) t (t3 w) (t4 w) (v1_ids w) (v2_ids w) (v3_ids w) (v4_ids w))
    | Fault f => Fault f
    end.

Definition call3 {A} (m : M v3.table A) : M world A :=
  fun w =>
    match m (t3 w) with
    | Done (a, t) =>
        Done (a, World (t1 w) (t2 w) t (t4 w) (v1_ids w) (v2_ids w) (v3_ids w) (v4_ids w))
    | Fault f => Fault f
    end.

Definition fault4 (f : v4.fault) : fault :=
  match f with
  | v4.OutOfBounds => OutOfBounds
  | v4.NullDereference => NullDereference
  | v4.EmptyBack => EmptyBack
  end.

Definition call4 {A} (m : v4.M A) : M world A :=
  fun w =>
    match m (t4 w) with
    | v4.Ok (a, t) =>
        Done (a, World (t1 w) (t2 w) (t3 w) t (v1_ids w) (v2_ids w) (v3_ids w) (v4_ids w))
    | v4.Undefined f => Fault (fault4 f)
    end.

(** [vN_ids.push_back(x)], [vN_ids[i]] and [vN_ids.clear()]. *)
Definition push1 (x : Z) : M world unit :=
  fun w => Done (tt, World (t1 w) (t2 w) (t3 w) (t4 w)
                       (v1_ids w ++ [x]) (v2_ids w) (v3_ids w) (v4_ids w)).
Definition push2 (x : Z) : M world unit :=
  fun w => Done (tt, World (t1 w) (t2 w) (t3 w) (t4 w)
                       (v1_ids w) (v2_ids w ++ [x]) (v3_ids w) (v4_ids w)).
Definition push3 (x : Z) : M world unit :=
  fun w => Done (tt, World (t1 w) (t2 w) (t3 w) (t4 w)
                       (v1_ids w) (v2_ids w) (v3_ids w ++ [x]) (v4_ids w)).
Definition push4 (x : Z) : M world unit :=
  fun w => Done (tt, World (t1 w) (t2 w) (t3 w) (t4 w)
                       (v1_ids w) (v2_ids w) (v3_ids w) (v4_ids w ++ [x])).

Definition at_ids (ids : world -> list Z) (i : Z) : M world Z :=
  fun w =>
    match ids w !! Z.to_nat i with
    | Some x => Done (x, w)
    | None => Fault OutOfBounds
    end.

Definition clear_ids : M world unit :=
  fun w => Done (tt, World (t1 w) (t2 w) (t3 w) (t4 w) [] [] [] []).

(** [assert(c)] *)
Definition assert (c : bool) : M world unit :=
  if c then ret tt else fail AssertionFailed.

(** [p->id] for the result [p] of [get_object]. *)
Definition id_at {P} (deref : option Z) (p : option P) : M world Z :=
  match p, deref with
  | None, _ => fail NullDereference
  | Some _, Some v => ret v
  | Some _, None => fail OutOfBounds
  end.

Definition id1 (p : option v1.pointer) : M world Z :=
  fun w => id_at (o ← (p ≫= v1.deref (t1 w)); Some (v1.id o)) p w.
Definition id2 (p : option nat) : M world Z :=
  fun w => id_at (o ← (p ≫= fun i => v2.object_table (t2 w) !! i); Some (v2.id o)) p w.
Definition id3 (p : option v3.pointer) : M world Z :=
  fun w =>
    match p with
    | None => Fault NullDereference
    | Some q => call3 (v3.load_id q) w
    end.
Definition id4 (p : option v4.pointer) : M world Z :=
  fun w =>
    match p with
    | None => Fault NullDereference
    | Some q => call4 (v4.load_id q) w
    end.

(** What the second loop asserts of an id [h]: [get_object(h)] is not
    [nullptr] and the object it points to holds [h]; and what the fourth
    loop asserts: [get_object(h)] is [nullptr]. *)
Definition found1 (t : v1.table) (h : Z) : Prop :=
  exists p, v1.get_object h t = Done (Some p, t) /\ v1.deref t p = Some (v1.Object h).
Definition found2 (t : v2.table) (h : Z) : Prop :=
  exists p, v2.get_object h t = Done (Some p, t) /\
    v2.object_table t !! p = Some (v2.Object h).
Definition found3 (t : v3.table) (h : Z) : Prop :=
  exists p, v3.get_object h t = Done (Some p, t) /\ v3.load_id p t = Done (h, t).
Definition found4 (t : v4.pool) (h : Z) : Prop :=
  exists p, v4.get_object h t = v4.Ok (Some p, t) /\ v4.load_id p t = v4.Ok (h, t).

Definition gone1 (t : v1.table) (h : Z) : Prop := v1.get_object h t = Done (None, t).
Definition gone2 (t : v2.table) (h : Z) : Prop := v2.get_object h t = Done (None, t).
Definition gone3 (t : v3.table) (h : Z) : Prop := v3.get_object h t = Done (None, t).
Definition gone4 (t : v4.pool) (h : Z) : Prop := v4.get_object h t = v4.Ok (None, t).

(** [for (int i = 0; i < n; ++i) body(i)], from the value [i] on. *)
Fixpoint loop (n : nat) (i : Z) (body : Z -> M world unit) : M world unit :=
  match n with
  | O => ret tt
  | S n' => do+ body i in loop n' (i + 1) body
  end.

Definition is_null {P} (p : option P) : bool := if p is None then true else false.

Definition create_all (i : Z) : M world unit :=
  let+ h1 := call1 v1.create_object in do+ push1 h1 in
  let+ h2 := call2 v2.create_object in do+ push2 h2 in
  let+ h3 := call3 v3.create_object in do+ push3 h3 in
  let+ h4 := call4 v4.create_object in push4 h4.

Definition check_all (i : Z) : M world unit :=
  let+ h1 := at_ids v1_ids i in let+ p1 := call1 (v1.get_object h1) in
  do+ assert (negb (is_null p1)) in
  let+ h2 := at_ids v2_ids i in let+ p2 := call2 (v2.get_object h2) in
  do+ assert (negb (is_null p2)) in
  let+ h3 := at_ids v3_ids i in let+ p3 := call3 (v3.get_object h3) in
  do+ assert (negb (is_null p3)) in
  let+ h4 := at_ids v4_ids i in let+ p4 := call4 (v4.get_object h4) in
  do+ assert (negb (is_null p4)) in
  let+ h1 := at_ids v1_ids i in let+ p1 := call1 (v1.get_object h1) in
  let+ x1 := id1 p1 in let+ y1 := at_ids v1_ids i in
  do+ assert (bool_decide (x1 = y1)) in
  let+ h2 := at_ids v2_ids i in let+ p2 := call2 (v2.get_object h2) in
  let+ x2 := id2 p2 in let+ y2 := at_ids v2_ids i in
  do+ assert (bool_decide (x2 = y2)) in
  let+ h3 := at_ids v3_ids i in let+ p3 := call3 (v3.get_object h3) in
  let+ x3 := id3 p3 in let+ y3 := at_ids v3_ids i in
  do+ assert (bool_decide (x3 = y3)) in
  let+ h4 := at_ids v4_ids i in let+ p4 := call4 (v4.get_object h4) in
  let+ x4 := id4 p4 in let+ y4 := at_ids v4_ids i in
  assert (bool_decide (x4 = y4)).

Definition destroy_all (i : Z) : M world unit :=
  let+ h1 := at_ids v1_ids i in do+ call1 (v1.destroy_object h1) in
  let+ h2 := at_ids v2_ids i in do+ call2 (v2.destroy_object h2) in
  let+ h3 := at_ids v3_ids i in do+ call3 (v3.destroy_object h3) in
  let+ h4 := at_ids v4_ids i in call4 (v4.destroy_object h4).

Definition check_none (i : Z) : M world unit :=
  let+ h1 := at_ids v1_ids i in let+ p1 := call1 (v1.get_object h1) in
  do+ assert (is_null p1) in
  let+ h2 := at_ids v2_ids i in let+ p2 := call2 (v2.get_object h2) in
  do+ assert (is_null p2) in
  let+ h3 := at_ids v3_ids i in let+ p3 := call3 (v3.get_object h3) in
  do+ assert (is_null p3) in
  let+ h4 := at_ids v4_ids i in let+ p4 := call4 (v4.get_object h4) in
  assert (is_null p4).

(** The body of the outer loop. *)
Definition round (j : Z) : M world unit :=
  do+ loop 1000 0 create_all in
  do+ loop 1000 0 check_all in
  do+ loop 1000 0 destroy_all in
  do+ loop 1000 0 check_none in
  clear_ids.

Definition main : M world unit := loop 20 0 round.

(** The world between two rounds, after [k] of them: the vectors of ids
    are empty, [v1] has handed out [1000 * k] ids, and the tables of [v2],
    [v3] and [v4] are as their invariants require, with all the room they
    had at the start. *)
Definition ready (k : Z) (w : world) : Prop :=
  v1_ids w = [] /\ v2_ids w = [] /\ v3_ids w = [] /\ v4_ids w = [] /\
  v1.inv (t1 w) /\ v1.next_id (t1 w) = 1000 * k /\
  v2.wf (t2 w) /\ v2.room (t2 w) = 2 ^ 31 /\
  v3.wf (t3 w) /\ v3.room (t3 w) = 2 ^ 31 /\
  v4.wf (t4 w) /\ NoDup (v4.free_list (t4 w)) /\ v4_loops.room (t4 w) = 2 ^ 31.

End test.

(** ** Arithmetic of the integer types *)

Module CxxFacts.
Import Cxx.

Lemma to_long_long_range z : is_long_long (to_long_long z).
Proof.
  unfold is_long_long, to_long_long.
  pose proof (Z.mod_pos_bound (z + 2 ^ 63) (2 ^ 64)). lia.
Qed.

Lemma to_long_long_id z : is_long_long z -> to_long_long z = z.
Proof.
  unfold is_long_long, to_long_long. intros Hz.
  rewrite Z.mod_small by lia. lia.
Qed.

Lemma to_int_id z : is_int z -> to_int z = z.
Proof.
  unfold is_int, to_int. intros Hz.
  rewrite Z.mod_small by lia. lia.
Qed.

Lemma to_size_t_id z : 0 <= z < 2 ^ 64 -> to_size_t z = z.
Proof. intros Hz. unfold to_size_t. apply Z.mod_small; lia. Qed.

(** Conversion to [long long] is the identity modulo [2 ^ 64]. *)
Lemma to_long_long_mod z : exists k, to_long_long z = z + 2 ^ 64 * k.
Proof.
  exists (- ((z + 2 ^ 63) / 2 ^ 64)). unfold to_long_long.
  pose proof (Z.div_mod (z + 2 ^ 63) (2 ^ 64)). lia.
Qed.

Lemma to_long_long_shift z k : to_long_long (z + 2 ^ 64 * k) = to_long_long z.
Proof.
  unfold to_long_long. f_equal.
  replace (z + 2 ^ 64 * k + 2 ^ 63) with (z + 2 ^ 63 + k * 2 ^ 64) by lia.
  apply Z.mod_add. lia.
Qed.

Lemma to_long_long_add_l a b : to_long_long (to_long_long a + b) = to_long_long (a + b).
Proof.
  destruct (to_long_long_mod a) as [k ->].
  replace (a + 2 ^ 64 * k + b) with (a + b + 2 ^ 64 * k) by lia.
  apply to_long_long_shift.
Qed.

(** Two [long long] values that agree modulo [2 ^ 64] are equal. *)
Lemma long_long_inj a b k : is_long_long a -> is_long_long b -> a = b + 2 ^ 64 * k -> a = b.
Proof. unfold is_long_long. intros Ha Hb ->. assert (k = 0) by lia. subst k. lia. Qed.

Lemma to_long_long_eq_iff v d :
  is_long_long v -> to_long_long (v + d) = v <-> d mod 2 ^ 64 = 0.
Proof.
  intros Hv. split.
  - intros H. destruct (to_long_long_mod (v + d)) as [k Hk].
    assert (d = 2 ^ 64 * (- k)) as -> by lia.
    rewrite Z.mul_comm. apply Z.mod_mul. lia.
  - intros H. apply Z.mod_divide in H; [|lia]. destruct H as [k ->].
    rewrite (Z.mul_comm k), to_long_long_shift. by apply to_long_long_id.
Qed.

End CxxFacts.

(** ** Object ids: slot number and generation *)

Module IdFacts.
Import Cxx CxxFacts v4.

Lemma index_of_mod h : index_of h = h mod 2 ^ 32.
Proof. unfold index_of. change low_mask with (Z.ones 32). apply Z.land_ones. lia. Qed.

Lemma generation_of_div h : generation_of h = h / 2 ^ 32.
Proof. unfold generation_of, shr. apply Z.shiftr_div_pow2. lia. Qed.

Lemma index_of_range h : 0 <= index_of h < 2 ^ 32.
Proof. rewrite index_of_mod. apply Z.mod_pos_bound. lia. Qed.

Lemma id_split h : h = 2 ^ 32 * generation_of h + index_of h.
Proof. rewrite index_of_mod, generation_of_div. apply Z.div_mod. lia. Qed.

Lemma generation_of_range h : is_long_long h -> is_int (generation_of h).
Proof.
  unfold is_long_long, is_int. intros Hh.
  pose proof (id_split h). pose proof (index_of_range h). lia.
Qed.

(** Two ids of one slot are equal exactly when their generations are. *)
Lemma id_eq_iff v h :
  index_of v = index_of h -> v = h <-> generation_of v = generation_of h.
Proof.
  intros Hi. split; [by intros ->|]. intros Hg.
  rewrite (id_split v), (id_split h). congruence.
Qed.

Lemma index_of_small k : 0 <= k < 2 ^ 32 -> index_of k = k.
Proof. intros Hk. rewrite index_of_mod. apply Z.mod_small. lia. Qed.

Lemma index_of_to_long_long z : index_of (to_long_long z) = z mod 2 ^ 32.
Proof.
  rewrite index_of_mod. destruct (to_long_long_mod z) as [k ->].
  replace (z + 2 ^ 64 * k) with (z + (2 ^ 32 * k) * 2 ^ 32) by lia.
  apply Z.mod_add. lia.
Qed.

(** The low half and a multiple of [2 ^ 32] have no bit in common. *)
Lemma lor_halves i w : 0 <= i < 2 ^ 32 -> Z.lor i (2 ^ 32 * w) = i + 2 ^ 32 * w.
Proof.
  intros Hi. symmetry. apply Z.add_nocarry_lor.
  apply Z.bits_inj'. intros n Hn.
  rewrite Z.land_spec, Z.bits_0.
  destruct (decide (n < 32)) as [Hlt|Hge].
  - rewrite (Z.mul_comm (2 ^ 32)), <- Z.shiftl_mul_pow2 by lia.
    rewrite (Z.shiftl_spec_low w 32 n) by lia. apply andb_false_r.
  - replace i with (i mod 2 ^ 32) by (apply Z.mod_small; lia).
    rewrite Z.mod_pow2_bits_high by lia. done.
Qed.

Lemma shl_32 g : shl g 32 = 2 ^ 32 * to_int g.
Proof.
  unfold shl, to_long_long, to_int. rewrite Z.shiftl_mul_pow2 by lia.
  replace (g * 2 ^ 32 + 2 ^ 63) with (2 ^ 32 * (g + 2 ^ 31)) by lia.
  change (2 ^ 64) with (2 ^ 32 * 2 ^ 32).
  rewrite Z.mul_mod_distr_l by lia. lia.
Qed.

Lemma to_int_range z : is_int (to_int z).
Proof.
  unfold is_int, to_int. pose proof (Z.mod_pos_bound (z + 2 ^ 31) (2 ^ 32)). lia.
Qed.

Lemma to_int_mod z : exists k, to_int z = z + 2 ^ 32 * k.
Proof.
  exists (- ((z + 2 ^ 31) / 2 ^ 32)). unfold to_int.
  pose proof (Z.div_mod (z + 2 ^ 31) (2 ^ 32)). lia.
Qed.

(** [encode] in arithmetic: the generation is kept modulo [2 ^ 32]. *)
Lemma encode_add i g : 0 <= i < 2 ^ 32 -> encode i g = i + 2 ^ 32 * to_int g.
Proof. intros Hi. unfold encode. rewrite shl_32. by apply lor_halves. Qed.

Lemma encode_long_long i g : 0 <= i < 2 ^ 32 -> is_long_long (encode i g).
Proof.
  intros Hi. rewrite encode_add by done.
  pose proof (to_int_range g). unfold is_int, is_long_long in *. lia.
Qed.

Lemma encode_wrap i g : 0 <= i < 2 ^ 32 -> encode i g = to_long_long (i + 2 ^ 32 * g).
Proof.
  intros Hi. destruct (to_long_long_mod (i + 2 ^ 32 * g)) as [k Hk].
  destruct (to_int_mod g) as [k' Hk'].
  apply (long_long_inj _ _ (k' - k)).
  - by apply encode_long_long.
  - apply to_long_long_range.
  - rewrite encode_add, Hk, Hk' by done. lia.
Qed.

Lemma index_of_encode i g : 0 <= i < 2 ^ 32 -> index_of (encode i g) = i.
Proof.
  intros Hi. rewrite encode_add, index_of_mod by done.
  rewrite (Z.mul_comm (2 ^ 32)), Z.mod_add by lia. apply Z.mod_small. lia.
Qed.

Lemma generation_of_encode i g : 0 <= i < 2 ^ 32 -> generation_of (encode i g) = to_int g.
Proof.
  intros Hi. rewrite encode_add, generation_of_div by done.
  rewrite (Z.mul_comm (2 ^ 32)), Z.div_add by lia.
  rewrite Z.div_small by lia. lia.
Qed.

(** What [destroy_object] writes is the old id with its generation advanced
    by one, that is, the old id plus [2 ^ 32] in [long long]. *)
Lemma next_id_encode v : next_id v = encode (index_of v) (add (generation_of v) 1).
Proof. reflexivity. Qed.

Lemma next_id_wrap v : next_id v = to_long_long (v + 2 ^ 32).
Proof.
  rewrite next_id_encode. unfold add.
  rewrite encode_add by apply index_of_range.
  destruct (to_long_long_mod (generation_of v + 1)) as [k ->].
  destruct (to_int_mod (generation_of v + 1 + 2 ^ 64 * k)) as [k' Hk'].
  destruct (to_long_long_mod (v + 2 ^ 32)) as [k'' Hk''].
  apply (long_long_inj _ _ (2 ^ 32 * k + k' - k'')).
  - rewrite <- encode_add by apply index_of_range.
    apply encode_long_long, index_of_range.
  - apply to_long_long_range.
  - rewrite Hk', Hk''. pose proof (id_split v). lia.
Qed.

Lemma next_id_long_long v : is_long_long (next_id v).
Proof. rewrite next_id_wrap. apply to_long_long_range. Qed.

Lemma index_of_next_id v : index_of (next_id v) = index_of v.
Proof. rewrite next_id_encode. apply index_of_encode, index_of_range. Qed.

(** Without wrap-around the generation goes up by exactly one. *)
Lemma generation_of_next_id v :
  generation_of v + 1 < 2 ^ 31 -> is_long_long v ->
  generation_of (next_id v) = generation_of v + 1.
Proof.
  intros Hg Hv. rewrite next_id_encode, generation_of_encode by apply index_of_range.
  pose proof (generation_of_range v Hv) as Hr. unfold is_int in Hr.
  unfold add. rewrite to_long_long_id by (unfold is_long_long; lia).
  apply to_int_id. unfold is_int. lia.
Qed.

(** The counter of 32 bits. *)
Lemma generation_field_mod h : generation_field h = generation_of h mod 2 ^ 32.
Proof.
  unfold generation_field. change low_mask with (Z.ones 32). apply Z.land_ones. lia.
Qed.

Lemma generation_field_range h : 0 <= generation_field h < 2 ^ 32.
Proof. rewrite generation_field_mod. apply Z.mod_pos_bound. lia. Qed.

Lemma generation_field_encode i g :
  0 <= i < 2 ^ 32 -> generation_field (encode i g) = g mod 2 ^ 32.
Proof.
  intros Hi. rewrite generation_field_mod, generation_of_encode by done.
  destruct (to_int_mod g) as [k ->].
  rewrite (Z.mul_comm (2 ^ 32)), Z.mod_add by lia. done.
Qed.

(** The counter after [d] destructions: [d] more, modulo [2 ^ 32]. *)
Lemma generation_field_advanced v d :
  generation_field (to_long_long (v + 2 ^ 32 * d)) =
  (generation_field v + d) mod 2 ^ 32.
Proof.
  rewrite !generation_field_mod, !generation_of_div.
  destruct (to_long_long_mod (v + 2 ^ 32 * d)) as [k ->].
  replace (v + 2 ^ 32 * d + 2 ^ 64 * k) with (v + (d + 2 ^ 32 * k) * 2 ^ 32) by lia.
  rewrite Z.div_add by lia. rewrite Z.add_mod_idemp_l by lia.
  replace (v / 2 ^ 32 + (d + 2 ^ 32 * k)) with (v / 2 ^ 32 + d + k * 2 ^ 32) by lia.
  by rewrite Z.mod_add by lia.
Qed.

End IdFacts.

(** ** Slots of a pool *)

Module PoolFacts.
Import Cxx CxxFacts v4 IdFacts.

Ltac run_monad :=
  unfold bind, ret, fail, table_at, load_id, store_id, free_list_empty,
    free_list_back, free_list_pop_back, free_list_push_back,
    object_table_size, object_table_push_back in *.

Lemma Ok_inj {A} (a b : A) (s t : pool) : Ok (a, s) = Ok (b, t) -> a = b /\ s = t.
Proof. by intros [= -> ->]. Qed.

Lemma chunk_size_pos : 0 < chunk_size.
Proof. reflexivity. Qed.

(** A slot number is given by its chunk and its offset. *)
Lemma locate_inj k k' : 0 <= k -> 0 <= k' -> locate k = locate k' -> k = k'.
Proof.
  unfold locate, element. intros Hk Hk' [= Hc Ho].
  pose proof chunk_size_pos.
  pose proof (Z.div_mod k chunk_size). pose proof (Z.div_mod k' chunk_size).
  pose proof (Z.mod_pos_bound k chunk_size). pose proof (Z.mod_pos_bound k' chunk_size).
  pose proof (Z.div_pos k chunk_size). pose proof (Z.div_pos k' chunk_size).
  assert (k / chunk_size = k' / chunk_size) by lia.
  assert (k mod chunk_size = k' mod chunk_size) by lia.
  lia.
Qed.

Lemma slots_nonneg s : 0 <= slots s.
Proof. unfold slots. pose proof chunk_size_pos. lia. Qed.

Lemma slot_chunk s k v :
  slot s k = Some v <->
  exists chunk o, object_table s !! Z.to_nat (k / chunk_size) = Some chunk /\
    chunk !! Z.to_nat (k mod chunk_size) = Some o /\ id o = v.
Proof.
  unfold slot, deref, locate, element. simpl. split.
  - intros H. apply fmap_Some in H as (o & H & ->).
    apply bind_Some in H as (chunk & ? & ?). eauto.
  - intros (chunk & o & -> & H & <-). simpl. by rewrite H.
Qed.

(** Past the last chunk there is no slot. *)
Lemma slot_beyond s k : slots s <= k -> slot s k = None.
Proof.
  intros Hk. unfold slot, deref, locate, element. simpl.
  rewrite (lookup_ge_None_2 (object_table s)); [done|].
  unfold slots in Hk. pose proof chunk_size_pos.
  assert (Z.of_nat (length (object_table s)) <= k / chunk_size)
    by (apply Z.div_le_lower_bound; lia).
  lia.
Qed.

Lemma slot_allocated s k v : slot s k = Some v -> k < slots s.
Proof.
  intros H. destruct (decide (k < slots s)); [done|].
  rewrite slot_beyond in H by lia. done.
Qed.

Section invariant.
Context (s : pool) (Hwf : wf s).

Lemma wf_chunk c chunk :
  object_table s !! c = Some chunk -> chunk_ok (Z.of_nat c) chunk.
Proof.
  intros Hc. destruct Hwf as (_ & Ht & _).
  assert (seqZ 0 (Z.of_nat (length (object_table s))) !! c = Some (Z.of_nat c)) as Hz.
  { apply lookup_seqZ. split; [lia|]. apply lookup_lt_Some in Hc. lia. }
  apply (Forall2_lookup_lr _ _ _ _ _ _ Ht Hz Hc).
Qed.

Lemma wf_chunk_length c chunk :
  object_table s !! c = Some chunk -> length chunk = Z.to_nat chunk_size.
Proof.
  intros Hc. apply wf_chunk in Hc. apply Forall2_length in Hc.
  by rewrite length_seqZ in Hc.
Qed.

(** Every slot number below [slots s] has a slot, which holds a
    [long long] with that number in its low half. *)
Lemma wf_slot k : 0 <= k < slots s ->
  exists v, slot s k = Some v /\ is_long_long v /\ index_of v = k.
Proof.
  intros Hk. pose proof chunk_size_pos as Hpos.
  assert (0 <= k / chunk_size < Z.of_nat (length (object_table s))) as Hc.
  { split; [apply Z.div_pos; lia|]. apply Z.div_lt_upper_bound; [lia|]. apply Hk. }
  pose proof (Z.mod_pos_bound k chunk_size Hpos) as Ho.
  destruct (lookup_lt_is_Some_2 (object_table s) (Z.to_nat (k / chunk_size)))
    as [chunk Hchunk]; [lia|].
  pose proof (wf_chunk _ _ Hchunk) as Hok.
  assert (seqZ 0 chunk_size !! Z.to_nat (k mod chunk_size) = Some (k mod chunk_size)) as Hz.
  { apply lookup_seqZ. lia. }
  destruct (Forall2_lookup_l _ _ _ _ _ Hok Hz) as (o & Hlook & Hlong & Hidx).
  exists (id o). split; [|split; [done|]].
  - apply slot_chunk. eauto.
  - rewrite Hidx. pose proof (Z.div_mod k chunk_size). lia.
Qed.

Lemma wf_slot_ok k v : 0 <= k -> slot s k = Some v -> is_long_long v /\ index_of v = k.
Proof.
  intros Hk Hv. pose proof (slot_allocated _ _ _ Hv).
  destruct (wf_slot k) as (v' & Hv' & ?); [lia|]. by simplify_eq.
Qed.

Lemma wf_slot_long k v : 0 <= k -> slot s k = Some v -> is_long_long v.
Proof. intros Hk Hv. by destruct (wf_slot_ok k v Hk Hv). Qed.

Lemma wf_capacity : slots s <= 2 ^ 31.
Proof. destruct Hwf as (Hc & _). unfold slots, chunk_size. lia. Qed.
End invariant.

(** *** get_object *)

Lemma get_object_slot h s :
  get_object h s =
  match slot s (index_of h) with
  | Some v => Ok (if decide (v <> h) then None else Some (locate (index_of h)), s)
  | None => Undefined OutOfBounds
  end.
Proof.
  pose proof (index_of_range h) as Hi.
  unfold get_object. fold (index_of h).
  rewrite to_size_t_id by lia. run_monad.
  destruct (slot s (index_of h)) as [v|] eqn:Hs.
  - pose proof (slot_allocated _ _ _ Hs) as Hlt.
    apply slot_chunk in Hs as (chunk & o & Hc & Ho & <-).
    apply lookup_lt_Some in Hc as Hc'.
    rewrite decide_True by lia.
    unfold deref, element. simpl. rewrite Hc. simpl. by rewrite Ho.
  - case_decide as Hk; [|done].
    unfold slot, locate in Hs. destruct (deref s _); [done|done].
Qed.

(** *** destroy_object *)

Lemma deref_assign s p q v fl :
  is_Some (deref s p) ->
  deref (Pool (assign s p v) fl) q = if decide (q = p) then Some (Object v) else deref s q.
Proof.
  destruct p as [c o], q as [c' o']. unfold deref, assign. simpl.
  intros [x Hx]. apply bind_Some in Hx as (chunk & Hc & Ho).
  destruct (decide (c' = c)) as [->|Hc'].
  - rewrite list_lookup_alter_eq, Hc. simpl.
    destruct (decide (o' = o)) as [->|Ho'].
    + rewrite decide_True by done.
      apply list_lookup_insert_eq. by eapply lookup_lt_Some.
    + rewrite decide_False by congruence. by apply list_lookup_insert_ne.
  - rewrite list_lookup_alter_ne by done. rewrite decide_False by congruence. done.
Qed.

Lemma slot_assign s k k' v fl :
  0 <= k -> 0 <= k' -> is_Some (slot s k) ->
  slot (Pool (assign s (locate k) v) fl) k' =
  if decide (k' = k) then Some v else slot s k'.
Proof.
  intros Hk Hk' Hs. unfold slot in *. apply fmap_is_Some in Hs.
  rewrite deref_assign by done.
  destruct (decide (k' = k)) as [->|Hne].
  - by rewrite decide_True.
  - rewrite decide_False; [done|]. intros Heq. by apply locate_inj in Heq.
Qed.

Lemma destroy_object_slot h s :
  destroy_object h s =
  match slot s (index_of h) with
  | Some v =>
      if decide (v <> h) then Undefined NullDereference
      else Ok (tt, Pool (assign s (locate (index_of h)) (next_id h))
                        (free_list s ++ [to_int (index_of h)]))
  | None => Undefined OutOfBounds
  end.
Proof.
  unfold destroy_object, bind at 1. rewrite get_object_slot.
  destruct (slot s (index_of h)) as [v|] eqn:Hs; [|done].
  case_decide as Hv; [done|]. subst v.
  run_monad. unfold slot in Hs. apply fmap_Some in Hs as (o & Ho & Hid).
  do 3 (rewrite Ho; simpl). by rewrite <- Hid.
Qed.

Lemma wf_assign s k v fl :
  wf s -> 0 <= k < slots s -> is_long_long v -> index_of v = k ->
  Forall (fun f => 0 <= f < slots s) fl ->
  wf (Pool (assign s (locate k) v) fl).
Proof.
  intros Hwf Hk Hv Hi Hfl. pose proof Hwf as (Hcap & Ht & _).
  unfold wf, slots, assign. simpl. rewrite length_alter.
  split; [done|]. split; [|done].
  apply Forall2_alter_r; [done|]. intros c chunk Hc Hchunk Hok.
  apply lookup_seqZ in Hc as [-> _].
  unfold chunk_ok in *.
  rewrite <- (list_insert_id (seqZ 0 chunk_size) (Z.to_nat (k mod chunk_size))
    (k mod chunk_size)).
  - apply Forall2_insert; [done|]. split; [done|]. simpl. rewrite Hi.
    pose proof chunk_size_pos. pose proof (Z.div_mod k chunk_size).
    pose proof (Z.div_pos k chunk_size). lia.
  - apply lookup_seqZ. pose proof (Z.mod_pos_bound k chunk_size chunk_size_pos). lia.
Qed.

Lemma destroy_object_ok h s s' :
  wf s -> destroy_object h s = Ok (tt, s') ->
  slot s (index_of h) = Some h /\ wf s' /\
  length (object_table s') = length (object_table s) /\
  free_list s' = free_list s ++ [index_of h] /\
  forall k, 0 <= k ->
    slot s' k = if decide (k = index_of h) then Some (next_id h) else slot s k.
Proof.
  intros Hwf. rewrite destroy_object_slot.
  destruct (slot s (index_of h)) as [v|] eqn:Hs; [|done].
  case_decide as Hv; [done|]. subst v. intros [= <-].
  pose proof (index_of_range h) as Hi.
  pose proof (slot_allocated _ _ _ Hs) as Hlt.
  pose proof (wf_capacity s Hwf) as Hcap.
  rewrite to_int_id by (unfold is_int; lia).
  split; [done|]. split; [|split; [|split; [done|]]].
  - apply wf_assign; [done|lia|apply next_id_long_long|apply index_of_next_id|].
    apply Forall_app. split; [apply Hwf|]. apply Forall_singleton. lia.
  - unfold assign. simpl. apply length_alter.
  - intros k Hk. apply slot_assign; [lia|done|by rewrite Hs].
Qed.

(** *** create_object *)

Lemma fill_chunk_run n chunk s :
  (n <= length chunk)%nat ->
  fill_chunk n chunk s =
  Ok ((fresh_id s <$> seqZ 0 (Z.of_nat n)) ++ drop n chunk,
      Pool (object_table s)
           (free_list s ++ (fresh_number s <$> reverse (seqZ 0 (Z.of_nat n))))).
Proof.
  revert chunk s. induction n as [|n IH]; intros chunk s Hn.
  - simpl. unfold ret. rewrite drop_0, app_nil_r. by destruct s.
  - cbn [fill_chunk]. run_monad. rewrite IH by (rewrite length_insert; lia).
    simpl. rewrite seqZ_S, fmap_app, reverse_snoc, fmap_cons, <- !app_assoc. simpl.
    do 3 f_equal.
    destruct (lookup_lt_is_Some_2 chunk n) as [x Hx]; [lia|].
    rewrite drop_insert_ge by lia. rewrite Nat.sub_diag.
    by rewrite (drop_S _ _ _ Hx).
Qed.

(** The initial contents of the array play no role. *)
Lemma fill_chunk_any chunk chunk' s :
  length chunk = length chunk' ->
  fill_chunk (length chunk) chunk s = fill_chunk (length chunk) chunk' s.
Proof.
  intros Hlen. rewrite (fill_chunk_run _ chunk), drop_all by lia.
  rewrite Hlen, fill_chunk_run, drop_all by lia. done.
Qed.

Lemma take_free_slot s fl f :
  free_list s = fl ++ [f] -> 0 <= f < 2 ^ 64 ->
  take_free s =
  match slot s f with
  | Some v => Ok (v, Pool (object_table s) fl)
  | None => Undefined OutOfBounds
  end.
Proof.
  intros Hfl Hf. unfold take_free. run_monad.
  rewrite Hfl, last_snoc. simpl. rewrite Hfl.
  destruct (fl ++ [f]) eqn:Hnil.
  { by apply app_nil in Hnil as [_ ?]. }
  rewrite <- Hnil, removelast_last, to_size_t_id by done. simpl.
  destruct (slot s f) as [v|] eqn:Hs.
  - pose proof (slot_allocated _ _ _ Hs) as Hlt.
    apply slot_chunk in Hs as (chunk & o & Hc & Ho & <-).
    apply lookup_lt_Some in Hc as Hc'.
    rewrite decide_True by lia.
    unfold deref, element. simpl. rewrite Hc. simpl. by rewrite Ho.
  - case_decide as Hk; [|done].
    unfold slot, locate in Hs. unfold deref in *. simpl in *.
    destruct (object_table s !! _); [|done]. simpl in *.
    by destruct (_ !! _).
Qed.

Lemma create_object_reuse s fl f :
  free_list s = fl ++ [f] -> 0 <= f < 2 ^ 64 ->
  create_object s =
  match slot s f with
  | Some v => Ok (v, Pool (object_table s) fl)
  | None => Undefined OutOfBounds
  end.
Proof.
  intros Hfl Hf. rewrite <- (take_free_slot s fl f Hfl Hf).
  unfold create_object, bind at 1, free_list_empty.
  rewrite bool_decide_eq_false_2.
  - unfold bind at 1, ret. done.
  - rewrite Hfl. intros Hnil. by apply app_nil in Hnil as [_ ?].
Qed.

Lemma take_free_back s fl f :
  free_list s = fl ++ [f] ->
  take_free s =
  (let* c := table_at (to_size_t f / chunk_size) in
   load_id (element c (to_size_t f mod chunk_size))) (Pool (object_table s) fl).
Proof.
  intros Hfl. unfold take_free. run_monad.
  rewrite Hfl, last_snoc. simpl. rewrite Hfl.
  destruct (fl ++ [f]) eqn:Hnil.
  { by apply app_nil in Hnil as [_ ?]. }
  by rewrite <- Hnil, removelast_last.
Qed.

Lemma create_object_grown s :
  free_list s = [] -> create_object s = take_free (grown s).
Proof.
  intros Hfl. unfold create_object, bind at 1, free_list_empty.
  rewrite bool_decide_eq_true_2 by done.
  unfold bind at 1, bind at 1.
  change (Z.to_nat (to_int (to_size_t (chunk_size - 1))) + 1)%nat
    with (length new_chunk).
  rewrite fill_chunk_run, drop_all, app_nil_r by done.
  unfold object_table_push_back. done.
Qed.

Lemma seqZ_chunk_back : reverse (seqZ 0 chunk_size) = reverse (seqZ 1 (chunk_size - 1)) ++ [0].
Proof. rewrite (seqZ_cons 0 chunk_size) by done. by rewrite reverse_cons. Qed.

(** Below the capacity of [int] the conversions in the loop change nothing. *)
Lemma fresh_id_small s i :
  Z.of_nat (length (object_table s)) < 2 ^ 23 -> 0 <= i < chunk_size ->
  fresh_id s i = Object (slots s + i).
Proof.
  intros Hc Hi. unfold fresh_id, slots, chunk_size in *. f_equal.
  rewrite to_size_t_id by lia. rewrite to_long_long_id by (unfold is_long_long; lia). lia.
Qed.

Lemma fresh_number_small s i :
  Z.of_nat (length (object_table s)) < 2 ^ 23 -> 0 <= i < chunk_size ->
  fresh_number s i = slots s + i.
Proof.
  intros Hc Hi. unfold fresh_number, slots, chunk_size in *.
  rewrite to_size_t_id by lia. rewrite to_int_id by (unfold is_int; lia). lia.
Qed.

Lemma grown_small s :
  Z.of_nat (length (object_table s)) < 2 ^ 23 ->
  grown s =
  Pool (object_table s ++ [(fun o => Object (slots s + o)) <$> seqZ 0 chunk_size])
       (free_list s ++ ((fun o => slots s + o) <$> reverse (seqZ 0 chunk_size))).
Proof.
  intros Hc. unfold grown. f_equal; f_equal.
  - f_equal. apply list_fmap_ext. intros i x Hx%lookup_seqZ.
    apply fresh_id_small; [done|]. lia.
  - apply list_fmap_ext. intros i x Hx%list_elem_of_lookup_2.
    rewrite elem_of_reverse, elem_of_seqZ in Hx.
    apply fresh_number_small; [done|]. lia.
Qed.

(** The slots of the grown pool: the old ones, and those of the new chunk
    with their own number as id. *)
Lemma slot_grown s k :
  Z.of_nat (length (object_table s)) < 2 ^ 23 -> 0 <= k ->
  slot (grown s) k =
  if decide (k < slots s) then slot s k
  else if decide (k < slots s + chunk_size) then Some k else None.
Proof.
  intros Hc Hk. rewrite grown_small by done.
  pose proof chunk_size_pos as Hpos.
  pose proof (Z.div_mod k chunk_size) as Hdm.
  pose proof (Z.mod_pos_bound k chunk_size Hpos) as Hmod.
  pose proof (Z.div_pos k chunk_size) as Hdiv.
  unfold slot, deref, locate, element. cbn [chunk_of offset_of object_table].
  destruct (decide (k < slots s)) as [Hlt|Hge].
  - assert (k / chunk_size < Z.of_nat (length (object_table s))).
    { apply Z.div_lt_upper_bound; [lia|]. apply Hlt. }
    rewrite lookup_app_l by lia. done.
  - assert (Z.of_nat (length (object_table s)) <= k / chunk_size).
    { apply Z.div_le_lower_bound; [lia|]. unfold slots in Hge. lia. }
    rewrite lookup_app_r by lia.
    destruct (decide (k < slots s + chunk_size)) as [Hlt|Hge'].
    + assert (k / chunk_size < Z.of_nat (length (object_table s)) + 1).
      { apply Z.div_lt_upper_bound; [lia|]. unfold slots in Hlt. lia. }
      replace (Z.to_nat (k / chunk_size) - length (object_table s))%nat with O by lia.
      cbn -[seqZ]. rewrite list_lookup_fmap, lookup_seqZ_lt by lia.
      assert (k / chunk_size = Z.of_nat (length (object_table s))) as Hq by lia.
      rewrite Hq in Hdm. cbn. f_equal. unfold slots. lia.
    + assert (Z.of_nat (length (object_table s)) + 1 <= k / chunk_size).
      { apply Z.div_le_lower_bound; [lia|]. unfold slots in Hge'. lia. }
      by rewrite lookup_ge_None_2 by (cbn; lia).
Qed.

Lemma create_object_grow s :
  free_list s = [] -> Z.of_nat (length (object_table s)) < 2 ^ 23 ->
  create_object s =
  Ok (slots s,
      Pool (object_table s ++ [(fun o => Object (slots s + o)) <$> seqZ 0 chunk_size])
           ((fun o => slots s + o) <$> reverse (seqZ 1 (chunk_size - 1)))).
Proof.
  intros Hfl Hc. rewrite create_object_grown by done.
  pose proof (slots_nonneg s) as Hs.
  assert (slots s < 2 ^ 31) as Hs' by (unfold slots, chunk_size; lia).
  rewrite (take_free_slot (grown s)
    ((fun o => slots s + o) <$> reverse (seqZ 1 (chunk_size - 1))) (slots s)); [|..|lia].
  - rewrite slot_grown by lia. rewrite decide_False by lia.
    rewrite decide_True by (pose proof chunk_size_pos; lia).
    by rewrite grown_small.
  - rewrite grown_small by done. cbn [free_list]. rewrite Hfl, app_nil_l.
    rewrite seqZ_chunk_back, fmap_app. cbn [fmap list_fmap]. by rewrite Z.add_0_r.
Qed.

(** With [2 ^ 23] chunks the numbers of the next chunk no longer fit [int]:
    the number taken from the free list is negative and names no chunk. *)
Lemma create_object_full s :
  free_list s = [] -> Z.of_nat (length (object_table s)) = 2 ^ 23 ->
  create_object s = Undefined OutOfBounds.
Proof.
  intros Hfl Hc. rewrite create_object_grown by done.
  rewrite (take_free_back (grown s)
    (fresh_number s <$> reverse (seqZ 1 (chunk_size - 1))) (fresh_number s 0)).
  - unfold fresh_number. rewrite Hc. unfold bind, table_at. cbn [object_table grown].
    rewrite decide_False; [done|].
    rewrite length_app. cbn [length]. rewrite Nat2Z.inj_add, Hc. by vm_compute.
  - unfold grown. cbn [free_list]. rewrite Hfl, app_nil_l.
    by rewrite seqZ_chunk_back, fmap_app.
Qed.

Lemma wf_intro t fl :
  Z.of_nat (length t) <= 2 ^ 23 ->
  Forall2 chunk_ok (seqZ 0 (Z.of_nat (length t))) t ->
  Forall (fun f => 0 <= f < chunk_size * Z.of_nat (length t)) fl ->
  wf (Pool t fl).
Proof. by intros; split. Qed.

Lemma slot_same_table s s' k : object_table s' = object_table s -> slot s' k = slot s k.
Proof. unfold slot, deref. by intros ->. Qed.

Lemma wf_grown_table s :
  wf s -> Z.of_nat (length (object_table s)) < 2 ^ 23 ->
  Forall2 chunk_ok (seqZ 0 (Z.of_nat (length (object_table s)) + 1))
    (object_table s ++ [(fun o => Object (slots s + o)) <$> seqZ 0 chunk_size]).
Proof.
  intros (_ & Ht & _) Hc. rewrite seqZ_app by lia. apply Forall2_app; [done|].
  rewrite (seqZ_cons _ 1) by lia. apply Forall2_cons. split; [|constructor].
  unfold chunk_ok. apply Forall2_fmap_r, Forall_Forall2_diag, Forall_seqZ.
  intros o Ho. unfold slot_ok, compose. cbn [id]. unfold slots, chunk_size in *.
  split; [unfold is_long_long; lia|]. rewrite index_of_small by lia. lia.
Qed.

(** One call of [create_object] that returns: the invariant is kept, no
    chunk is removed, no allocated slot changes, the id returned is the one
    stored in the slot it names, and a slot that was not allocated before
    holds its own number, that is, generation 0. *)
Lemma create_object_ok s h s' :
  wf s -> create_object s = Ok (h, s') ->
  wf s' /\
  (length (object_table s) <= length (object_table s'))%nat /\
  (forall k v, slot s k = Some v -> slot s' k = Some v) /\
  slot s' (index_of h) = Some h /\
  (forall k v, 0 <= k -> slot s k = None -> slot s' k = Some v -> v = k).
Proof.
  intros Hwf. pose proof Hwf as (Hcap & Ht & Hfl).
  destruct (last (free_list s)) as [f|] eqn:Hlast.
  - apply last_Some in Hlast as [fl Hfree].
    rewrite Hfree, Forall_app, Forall_singleton in Hfl. destruct Hfl as [Hfl Hf].
    pose proof (wf_capacity s Hwf).
    rewrite (create_object_reuse s fl f Hfree) by lia.
    destruct (wf_slot s Hwf f Hf) as (v & Hv & Hlong & Hidx).
    rewrite Hv. intros [= <- <-].
    split; [done|]. split; [done|]. split; [done|]. split.
    + rewrite Hidx. by rewrite (slot_same_table s).
    + intros k v' _ Hnone Hsome. rewrite (slot_same_table s) in Hsome by done. congruence.
  - apply last_None in Hlast.
    destruct (decide (Z.of_nat (length (object_table s)) = 2 ^ 23)) as [Hfull|Hroom].
    { by rewrite create_object_full. }
    assert (Z.of_nat (length (object_table s)) < 2 ^ 23) as Hc by lia.
    rewrite create_object_grow by done. intros [<- <-]%Ok_inj.
    pose proof (slots_nonneg s) as Hs. pose proof chunk_size_pos as Hpos.
    assert (forall k, 0 <= k ->
      slot (Pool (object_table s ++ [(fun o => Object (slots s + o)) <$> seqZ 0 chunk_size])
                 ((fun o => slots s + o) <$> reverse (seqZ 1 (chunk_size - 1)))) k =
      slot (grown s) k) as Hslot.
    { intros k _. apply slot_same_table. by rewrite grown_small. }
    split; [|split; [|split; [|split]]].
    + apply wf_intro; rewrite length_app, Nat2Z.inj_add;
        change (Z.of_nat (length [_])) with 1.
      * lia.
      * by apply wf_grown_table.
      * rewrite Forall_fmap, Forall_reverse, Forall_seqZ. intros o Ho.
        unfold compose, slots, chunk_size in *. lia.
    + cbn [object_table]. rewrite length_app. lia.
    + intros k v Hv. pose proof (slot_allocated _ _ _ Hv).
      destruct (decide (0 <= k)) as [Hk|Hk].
      * rewrite Hslot, slot_grown by done. by rewrite decide_True.
      * apply slot_chunk in Hv as (chunk & o & Hchunk & Ho & Hid).
        apply slot_chunk. exists chunk, o. cbn [object_table].
        split; [by apply lookup_app_l_Some|done].
    + rewrite index_of_small by (unfold slots, chunk_size in *; lia).
      rewrite Hslot, slot_grown by lia. rewrite decide_False by lia.
      by rewrite decide_True by lia.
    + intros k v Hk Hnone. rewrite Hslot, slot_grown by done.
      case_decide; [congruence|]. case_decide; congruence.
Qed.

(** *** Sequences of calls *)

Lemma wf_empty : wf empty.
Proof. unfold wf, empty. cbn. split; [lia|]. split; constructor. Qed.

Lemma get_object_same h s r s' : get_object h s = Ok (r, s') -> s' = s.
Proof.
  rewrite get_object_slot. destruct (slot s (index_of h)); [|done].
  by intros [_ <-]%Ok_inj.
Qed.

Lemma slot_unchanged s k v z :
  wf s -> 0 <= k -> slot s k = Some v -> z = 0 ->
  slot s k = Some (to_long_long (v + 2 ^ 32 * z)).
Proof.
  intros Hwf Hk Hv ->. rewrite Hv, Z.mul_0_r, Z.add_0_r.
  f_equal. symmetry. apply to_long_long_id, (wf_slot_long s Hwf k v Hk Hv).
Qed.

Lemma destroys_of_nonneg k ops : 0 <= destroys_of k ops.
Proof.
  induction ops as [|[| |h] ops IH]; cbn [destroys_of]; try lia.
  case_decide; lia.
Qed.

Lemma run_app ops1 ops2 s :
  run (ops1 ++ ops2) s =
  match run ops1 s with
  | Ok (_, s') => run ops2 s'
  | Undefined f => Undefined f
  end.
Proof.
  revert s. induction ops1 as [|o ops1 IH]; intros s; [done|].
  cbn [app run]. unfold bind. destruct (exec o s) as [[[] s1]|]; [|done]. apply IH.
Qed.

Lemma destroys_of_app k ops1 ops2 :
  destroys_of k (ops1 ++ ops2) = destroys_of k ops1 + destroys_of k ops2.
Proof.
  induction ops1 as [|[| |h] ops1 IH]; cbn [app destroys_of]; lia.
Qed.

(** One call that returns keeps the invariant, removes no chunk, and
    leaves in every allocated slot the id it held, advanced by [2 ^ 32] when
    the call destroyed the slot. *)
Lemma exec_ok o s s' :
  wf s -> exec o s = Ok (tt, s') ->
  wf s' /\
  (length (object_table s) <= length (object_table s'))%nat /\
  (forall k v, 0 <= k -> slot s k = Some v ->
     slot s' k = Some (to_long_long (v + 2 ^ 32 * destroys_of k [o]))) /\
  (forall k w, 0 <= k -> slot s k = None -> slot s' k = Some w ->
     w = k /\ destroys_of k [o] = 0).
Proof.
  intros Hwf. destruct o as [| h | h]; cbn [exec destroys_of]; unfold bind, ret.
  - destruct (create_object s) as [[h s1]|] eqn:Hc; [|done]. intros [_ <-]%Ok_inj.
    destruct (create_object_ok _ _ _ Hwf Hc) as (Hwf' & Hlen & Hold & _ & Hnew).
    split; [done|]. split; [done|]. split.
    + intros k v Hk Hv. rewrite (Hold _ _ Hv). rewrite <- Hv. by apply slot_unchanged.
    + intros k w Hk Hnone Hw. split; [by eapply Hnew|done].
  - destruct (get_object h s) as [[r s1]|] eqn:Hg; [|done]. intros [_ <-]%Ok_inj.
    apply get_object_same in Hg as ->.
    split; [done|]. split; [done|]. split.
    + intros k v Hk Hv. by apply slot_unchanged.
    + intros k w Hk Hnone Hw. congruence.
  - intros Hd.
    destruct (destroy_object_ok _ _ _ Hwf Hd) as (Hh & Hwf' & Hlen & _ & Hslot).
    split; [done|]. split; [lia|]. split.
    + intros k v Hk Hv. rewrite Hslot by done.
      destruct (decide (k = index_of h)) as [->|Hne].
      * rewrite decide_True by done. rewrite next_id_wrap.
        assert (v = h) as -> by congruence. done.
      * rewrite decide_False by done. by apply slot_unchanged.
    + intros k w Hk Hnone. rewrite Hslot by done.
      destruct (decide (k = index_of h)) as [->|Hne]; [congruence|].
      rewrite decide_False by done. congruence.
Qed.

Lemma run_ok ops s s' :
  wf s -> run ops s = Ok (tt, s') ->
  wf s' /\
  (length (object_table s) <= length (object_table s'))%nat /\
  (forall k v, 0 <= k -> slot s k = Some v ->
     slot s' k = Some (to_long_long (v + 2 ^ 32 * destroys_of k ops))) /\
  (forall k w, 0 <= k -> slot s k = None -> slot s' k = Some w ->
     w = to_long_long (k + 2 ^ 32 * destroys_of k ops)).
Proof.
  revert s. induction ops as [|o ops IH]; intros s Hwf.
  - cbn [run destroys_of]. unfold ret. intros [_ <-]%Ok_inj.
    split; [done|]. split; [done|]. split.
    + intros k v Hk Hv. by apply slot_unchanged.
    + intros k w _ Hnone Hw. congruence.
  - cbn [run]. unfold bind.
    destruct (exec o s) as [[[] s1]|] eqn:Ho; [|done]. intros Hrun.
    destruct (exec_ok _ _ _ Hwf Ho) as (Hwf1 & Hlen1 & Hold1 & Hnew1).
    destruct (IH _ Hwf1 Hrun) as (Hwf' & Hlen' & Hold' & Hnew').
    assert (forall k, destroys_of k (o :: ops) = destroys_of k [o] + destroys_of k ops)
      as Hcount by (intros k; apply (destroys_of_app k [o] ops)).
    split; [done|]. split; [lia|]. split.
    + intros k v Hk Hv. rewrite (Hold' _ _ Hk (Hold1 _ _ Hk Hv)).
      rewrite to_long_long_add_l, Hcount. do 2 f_equal. lia.
    + intros k w Hk Hnone Hw. rewrite Hcount.
      destruct (slot s1 k) as [w1|] eqn:Hs1.
      * destruct (Hnew1 _ _ Hk Hnone Hs1) as [-> ->].
        rewrite (Hold' _ _ Hk Hs1) in Hw. by simplify_eq.
      * rewrite (Hnew' _ _ Hk Hs1 Hw). do 2 f_equal.
        assert (destroys_of k [o] = 0) as ->; [|lia].
        destruct o as [| |h]; cbn [destroys_of]; try done.
        case_decide as Hidx; [|done]. subst k.
        apply (destroy_object_ok _ _ _ Hwf) in Ho as (Hh & _). congruence.
Qed.

(** The invariant holds in every state the program reaches. *)
Lemma run_wf ops s : run ops empty = Ok (tt, s) -> wf s.
Proof. intros Hrun. by apply (run_ok _ _ _ wf_empty Hrun). Qed.

End PoolFacts.

(** ** One slot destroyed and created again and again *)

Module ChurnFacts.
Import Cxx CxxFacts v4 IdFacts PoolFacts.

Lemma create_slot0 v : create_object (slot0_free v) = Ok (v, slot0_in_use v).
Proof.
  by rewrite (create_object_reuse (slot0_free v) (reverse (seqZ 1 (chunk_size - 1))) 0).
Qed.

Lemma destroy_slot0 v :
  index_of v = 0 -> destroy_object v (slot0_in_use v) = Ok (tt, slot0_free (next_id v)).
Proof.
  intros Hv. rewrite destroy_object_slot, Hv.
  change (slot (slot0_in_use v) 0) with (Some v).
  cbv iota beta. by rewrite decide_False by (by intros []).
Qed.

Lemma get_slot0 v h :
  index_of h = 0 ->
  get_object h (slot0_in_use v) =
  Ok (if decide (v <> h) then None else Some (locate 0), slot0_in_use v).
Proof. intros Hh. by rewrite get_object_slot, Hh. Qed.

Lemma get_slot0_free v h :
  index_of h = 0 ->
  get_object h (slot0_free v) =
  Ok (if decide (v <> h) then None else Some (locate 0), slot0_free v).
Proof. intros Hh. by rewrite get_object_slot, Hh. Qed.

Lemma run_churn n h :
  index_of h = 0 ->
  run (churn n h) (slot0_free (next_id h)) =
  Ok (tt, slot0_free (Nat.iter n next_id (next_id h))).
Proof.
  revert h. induction n as [|n IH]; intros h Hh; [done|].
  cbn [churn run exec]. unfold bind at 1, bind at 1. rewrite create_slot0.
  unfold ret, bind at 1.
  rewrite destroy_slot0 by (by rewrite index_of_next_id).
  rewrite IH by (by rewrite index_of_next_id).
  by rewrite Nat.iter_succ_r.
Qed.

Lemma destroys_of_churn n h :
  index_of h = 0 -> destroys_of 0 (churn n h) = Z.of_nat n.
Proof.
  revert h. induction n as [|n IH]; intros h Hh; [done|].
  cbn [churn destroys_of].
  rewrite decide_True by (by rewrite index_of_next_id).
  rewrite IH by (by rewrite index_of_next_id). lia.
Qed.

Lemma iter_next_id n h : Nat.iter n next_id (next_id h) = to_long_long (h + 2 ^ 32 * (Z.of_nat n + 1)).
Proof.
  induction n as [|n IH].
  - change (Nat.iter 0 next_id (next_id h)) with (next_id h).
    rewrite next_id_wrap. f_equal; lia.
  - rewrite Nat.iter_succ, IH, next_id_wrap, to_long_long_add_l. f_equal; lia.
Qed.

(** After [2 ^ 32] destructions the id of the slot is what it was. *)
Lemma iter_next_id_wrap h :
  is_long_long h -> Nat.iter (Z.to_nat (2 ^ 32 - 1)) next_id (next_id h) = h.
Proof.
  intros Hh. rewrite iter_next_id, Z2Nat.id by lia.
  apply to_long_long_eq_iff; [done|]. reflexivity.
Qed.

Lemma run_first_create : run [Create] empty = Ok (tt, slot0_in_use 0).
Proof.
  cbn [run exec]. unfold bind, ret.
  rewrite create_object_grow by (done || (cbn; lia)). reflexivity.
Qed.

(** *** Creating without destroying, up to the capacity of [int] *)

Lemma chunk_ok_fresh c : 0 <= c < 2 ^ 23 -> chunk_ok c (fresh_chunk c).
Proof.
  intros Hc. unfold chunk_ok, fresh_chunk.
  apply Forall2_fmap_r, Forall_Forall2_diag, Forall_seqZ.
  intros o Ho. unfold slot_ok, compose. cbn [id]. unfold chunk_size in *.
  split; [unfold is_long_long; lia|]. apply index_of_small. lia.
Qed.

Lemma fresh_table_length q : 0 <= q -> Z.of_nat (length (fresh_table q)) = q.
Proof. intros Hq. unfold fresh_table. rewrite length_fmap, length_seqZ. lia. Qed.

Lemma fresh_table_ok q : 0 <= q <= 2 ^ 23 -> Forall2 chunk_ok (seqZ 0 q) (fresh_table q).
Proof.
  intros Hq. unfold fresh_table.
  apply Forall2_fmap_r, Forall_Forall2_diag, Forall_seqZ.
  intros c Hc. apply chunk_ok_fresh. lia.
Qed.

Lemma fresh_table_succ q : 0 <= q -> fresh_table (q + 1) = fresh_table q ++ [fresh_chunk q].
Proof.
  intros Hq. unfold fresh_table. rewrite seqZ_app, fmap_app by lia.
  by rewrite Z.add_0_l.
Qed.

Lemma slot_fresh_table q fl k :
  0 <= k < chunk_size * q -> slot (Pool (fresh_table q) fl) k = Some k.
Proof.
  intros Hk. pose proof chunk_size_pos as Hpos.
  pose proof (Z.div_mod k chunk_size) as Hdm.
  pose proof (Z.mod_pos_bound k chunk_size Hpos) as Hmod.
  assert (0 <= k / chunk_size < q) as Hdiv.
  { split; [apply Z.div_pos; lia|]. apply Z.div_lt_upper_bound; lia. }
  apply slot_chunk. exists (fresh_chunk (k / chunk_size)), (Object k).
  cbn [object_table]. unfold fresh_table, fresh_chunk.
  rewrite !list_lookup_fmap, !lookup_seqZ_lt by lia. cbn [fmap option_fmap option_map].
  rewrite !Z.add_0_l, !Z2Nat.id by lia.
  split; [done|]. split; [|done]. do 2 f_equal. lia.
Qed.

Lemma full_length : Z.of_nat (length (object_table full)) = 2 ^ 23.
Proof. apply fresh_table_length. lia. Qed.

Lemma wf_full : wf full.
Proof.
  apply wf_intro; rewrite fresh_table_length by lia;
    [lia|apply fresh_table_ok; lia|constructor].
Qed.

Lemma chunks_for_spec k :
  0 <= k ->
  (k mod chunk_size = 0 /\ chunks_for k = k / chunk_size /\
   chunks_for (k + 1) = k / chunk_size + 1) \/
  (0 < k mod chunk_size /\ chunks_for k = k / chunk_size + 1 /\
   chunks_for (k + 1) = k / chunk_size + 1).
Proof.
  intros Hk. unfold chunks_for, chunk_size.
  pose proof (Z.div_mod k 256) as Hdm. pose proof (Z.mod_pos_bound k 256) as Hmod.
  destruct (decide (k mod 256 = 0)) as [Hz|Hz]; [left|right].
  - split; [done|]. split; symmetry.
    + apply (Z.div_unique _ _ _ 255); lia.
    + apply (Z.div_unique _ _ _ 0); lia.
  - split; [lia|]. split; symmetry.
    + apply (Z.div_unique _ _ _ (k mod 256 - 1)); lia.
    + apply (Z.div_unique _ _ _ (k mod 256)); lia.
Qed.

(** One more object. *)
Lemma create_object_created k :
  0 <= k < 2 ^ 31 -> create_object (created k) = Ok (k, created (k + 1)).
Proof.
  intros Hk. pose proof chunk_size_pos as Hpos.
  pose proof (Z.div_mod k chunk_size) as Hdm.
  assert (0 <= k / chunk_size < 2 ^ 23) as Hdiv.
  { split; [apply Z.div_pos; lia|]. apply Z.div_lt_upper_bound; unfold chunk_size; lia. }
  unfold created.
  destruct (chunks_for_spec k) as [(Hmod & -> & ->)|(Hmod & -> & ->)]; [lia|..].
  - assert (chunk_size * (k / chunk_size) = k) as Hbase by lia.
    rewrite Hbase, Z.sub_diag.
    rewrite create_object_grow; cbn [object_table free_list];
      rewrite ?fresh_table_length by lia; [|done|lia].
    unfold slots. cbn [object_table]. rewrite fresh_table_length, Hbase by lia.
    rewrite fresh_table_succ by lia. unfold fresh_chunk. rewrite Hbase.
    do 3 f_equal. rewrite fmap_reverse. change (fun o => k + o) with (Z.add k).
    rewrite fmap_add_seqZ. do 2 f_equal; lia.
  - pose proof (Z.mod_pos_bound k chunk_size Hpos) as Hbound.
    rewrite (seqZ_cons k) by lia. rewrite reverse_cons.
    rewrite (create_object_reuse _ _ k) by (done || lia).
    rewrite slot_fresh_table by lia. do 5 f_equal; lia.
Qed.

Lemma run_create_created n k :
  0 <= k -> k + Z.of_nat n <= 2 ^ 31 ->
  run (replicate n Create) (created k) = Ok (tt, created (k + Z.of_nat n)).
Proof.
  revert k. induction n as [|n IH]; intros k Hk Hn.
  - cbn [replicate run]. unfold ret. by rewrite Z.add_0_r.
  - cbn [replicate run exec]. unfold bind at 1, bind at 1.
    rewrite create_object_created by lia. unfold ret.
    rewrite IH by lia. do 3 f_equal. lia.
Qed.

(** The pool at capacity is what [2 ^ 31] calls of [create_object] leave. *)
Lemma run_create_full : run (replicate (Z.to_nat (2 ^ 31)) Create) empty = Ok (tt, full).
Proof.
  change empty with (created 0). rewrite run_create_created by lia.
  rewrite Z2Nat.id by lia. reflexivity.
Qed.

End ChurnFacts.

(** ** The properties of the slot map *)

Import Cxx CxxFacts v4 IdFacts PoolFacts ChurnFacts.

(** A stale id makes [get_object] return [nullptr], which [destroy_object]
    then writes through. *)
Lemma destroy_object_stale h s v :
  slot s (index_of h) = Some v -> v <> h ->
  destroy_object h s = Undefined NullDereference.
Proof. intros Hs Hv. rewrite destroy_object_slot, Hs. by rewrite decide_True. Qed.

(** C1.  Destroying an object twice: after [create_object] has returned 0
    and [destroy_object(0)] has run, the id 0 is stale ([get_object(0)] is
    [nullptr]), and a second [destroy_object(0)] does not return: it assigns
    to [obj->id] with [obj] null. *)
Theorem destroy_object_twice_dereferences_null :
  run [Create; Destroy 0] empty = Ok (tt, slot0_free (next_id 0)) /\
  get_object 0 (slot0_free (next_id 0)) = Ok (None, slot0_free (next_id 0)) /\
  destroy_object 0 (slot0_free (next_id 0)) = Undefined NullDereference.
Proof.
  split; [|split].
  - change [Create; Destroy 0] with ([Create] ++ [Destroy 0]).
    rewrite run_app, run_first_create. cbn [run exec]. unfold bind, ret.
    by rewrite destroy_slot0.
  - by rewrite get_slot0_free.
  - by apply (destroy_object_stale 0 _ (next_id 0)).
Qed.

(** The id in a slot after a destruction and a sequence of further calls
    differs from the destroyed id unless the slot has been destroyed
    [2 ^ 32 - 1] more times. *)
Lemma destroyed_slot_differs h s s1 ops s2 :
  wf s -> destroy_object h s = Ok (tt, s1) -> run ops s1 = Ok (tt, s2) ->
  destroys_of (index_of h) ops < 2 ^ 32 - 1 ->
  wf s2 /\ exists v, slot s2 (index_of h) = Some v /\ v <> h.
Proof.
  intros Hwf Hd Hrun Hcount.
  pose proof (index_of_range h) as Hi.
  pose proof (destroys_of_nonneg (index_of h) ops) as Hpos.
  destruct (destroy_object_ok _ _ _ Hwf Hd) as (Hh & Hwf1 & _ & _ & Hslot).
  destruct (run_ok _ _ _ Hwf1 Hrun) as (Hwf2 & _ & Hold & _).
  split; [done|]. eexists. split.
  - apply Hold; [lia|]. rewrite Hslot by lia. by rewrite decide_True.
  - rewrite next_id_wrap, to_long_long_add_l, <- Z.add_assoc.
    intros Heq. apply to_long_long_eq_iff in Heq.
    + apply Z.mod_divide in Heq as [q Hq]; lia.
    + by apply (wf_slot_long s Hwf (index_of h)); [lia|].
Qed.

(** C2.  Once [destroy_object(h)] has returned, [get_object(h)] returns
    [nullptr] after every further sequence of calls, whatever is created in
    the slot of [h] meanwhile, as long as that slot is destroyed fewer than
    [2 ^ 32 - 1] more times (its generation has not come round). *)
Theorem destroyed_handle_stays_not_found h s s1 ops s2 :
  wf s -> destroy_object h s = Ok (tt, s1) -> run ops s1 = Ok (tt, s2) ->
  destroys_of (index_of h) ops < 2 ^ 32 - 1 ->
  get_object h s2 = Ok (None, s2).
Proof.
  intros Hwf Hd Hrun Hcount.
  destruct (destroyed_slot_differs _ _ _ _ _ Hwf Hd Hrun Hcount) as (_ & v & Hv & Hne).
  rewrite get_object_slot, Hv. by rewrite decide_True.
Qed.

Lemma destroyed_handle_stays_not_found_witness :
  get_object 0 (state_after [Create; Destroy 0; Create] empty) =
  Ok (None, state_after [Create; Destroy 0; Create] empty).
Proof.
  apply (destroyed_handle_stays_not_found 0 (state_after [Create] empty)
           (state_after [Create; Destroy 0] empty) [Create]).
  - apply (bool_decide_unpack _). by vm_compute.
  - by vm_compute.
  - by vm_compute.
  - by vm_compute.
Defined.

(** C3, as stated, fails when the generation comes round.  After the first
    [create_object] slot 0 holds the id 0; [destroy_object(0)] frees it;
    [2 ^ 32 - 1] rounds of creating and destroying in slot 0 follow; the
    next [create_object] takes slot 0 again and returns the id 0 once more,
    for which [get_object] succeeds. *)
Lemma reuse_after_wrap_returns_same_handle :
  run [Create] empty = Ok (tt, slot0_in_use 0) /\
  wf (slot0_in_use 0) /\
  destroy_object 0 (slot0_in_use 0) = Ok (tt, slot0_free (next_id 0)) /\
  run (churn (Z.to_nat (2 ^ 32 - 1)) 0) (slot0_free (next_id 0)) = Ok (tt, slot0_free 0) /\
  destroys_of (index_of 0) (churn (Z.to_nat (2 ^ 32 - 1)) 0) = 2 ^ 32 - 1 /\
  create_object (slot0_free 0) = Ok (0, slot0_in_use 0) /\
  get_object 0 (slot0_in_use 0) = Ok (Some (locate 0), slot0_in_use 0).
Proof.
  split; [apply run_first_create|]. split; [|split; [|split; [|split; [|split]]]].
  - apply (run_wf [Create]), run_first_create.
  - by apply destroy_slot0.
  - rewrite run_churn by done. by rewrite iter_next_id_wrap.
  - change (index_of 0) with 0. rewrite destroys_of_churn by done. apply Z2Nat.id. lia.
  - apply create_slot0.
  - by rewrite get_slot0.
Qed.

(** C3, amended.  If [destroy_object(h1)] returns and a later
    [create_object] returns an id [h2] of the same slot, the slot having
    been destroyed fewer than [2 ^ 32 - 1] times in between, then [h1] and
    [h2] differ, [get_object(h1)] is [nullptr] and [get_object(h2)] is the
    object of the slot, which holds [h2]. *)
Theorem reuse_distinguishable h1 s s1 ops s2 h2 s3 :
  wf s -> destroy_object h1 s = Ok (tt, s1) -> run ops s1 = Ok (tt, s2) ->
  create_object s2 = Ok (h2, s3) -> index_of h2 = index_of h1 ->
  destroys_of (index_of h1) ops < 2 ^ 32 - 1 ->
  h1 <> h2 /\
  get_object h1 s3 = Ok (None, s3) /\
  get_object h2 s3 = Ok (Some (locate (index_of h2)), s3) /\
  slot s3 (index_of h2) = Some h2.
Proof.
  intros Hwf Hd Hrun Hc Hidx Hcount.
  destruct (destroyed_slot_differs _ _ _ _ _ Hwf Hd Hrun Hcount) as (Hwf2 & v & Hv & Hne).
  destruct (create_object_ok _ _ _ Hwf2 Hc) as (_ & _ & Hold & Hh2 & _).
  apply Hold in Hv. rewrite <- Hidx, Hh2 in Hv. injection Hv as <-.
  split; [done|]. split; [|split; [|done]].
  - rewrite get_object_slot, <- Hidx, Hh2. by rewrite decide_True.
  - rewrite get_object_slot, Hh2. by rewrite decide_False by (by intros []).
Qed.

Lemma reuse_distinguishable_witness :
  0 <> 2 ^ 32 /\
  get_object 0 (state_after [Create; Destroy 0; Create] empty) =
    Ok (None, state_after [Create; Destroy 0; Create] empty) /\
  get_object (2 ^ 32) (state_after [Create; Destroy 0; Create] empty) =
    Ok (Some (locate (index_of (2 ^ 32))), state_after [Create; Destroy 0; Create] empty) /\
  slot (state_after [Create; Destroy 0; Create] empty) (index_of (2 ^ 32)) = Some (2 ^ 32).
Proof.
  apply (reuse_distinguishable 0 (state_after [Create] empty)
           (state_after [Create; Destroy 0] empty) [Get 0]
           (state_after [Create; Destroy 0] empty) (2 ^ 32)).
  - apply (bool_decide_unpack _). by vm_compute.
  - by vm_compute.
  - by vm_compute.
  - by vm_compute.
  - by vm_compute.
  - by vm_compute.
Defined.

(** C4, as stated, fails: [get_object] makes no range check.  In the pool
    without chunks the slot number of the id 0 is not allocated, and
    [get_object(0)] evaluates [object_table[0]] on the empty vector, which
    is undefined behaviour and not a reported failure. *)
Lemma get_object_unallocated_index_undefined :
  wf empty /\ slots empty <= index_of 0 /\ get_object 0 empty = Undefined OutOfBounds.
Proof. split; [apply wf_empty|]. split; [done|]. by rewrite get_object_slot. Qed.

(** C4, amended.  For an id whose slot number is not allocated,
    [get_object] indexes [object_table] past its end (undefined behaviour,
    no result).  For an allocated slot number it returns, without changing
    the pool, the object of the slot when the generation stored there equals
    the generation of the id, and [nullptr] otherwise. *)
Theorem get_object_checked_lookup h s :
  wf s ->
  (slots s <= index_of h -> get_object h s = Undefined OutOfBounds) /\
  (index_of h < slots s ->
   exists v, slot s (index_of h) = Some v /\
     get_object h s =
     Ok (if decide (generation_of v = generation_of h)
         then Some (locate (index_of h)) else None, s)).
Proof.
  intros Hwf. pose proof (index_of_range h) as Hi. rewrite get_object_slot. split.
  - intros Hge. by rewrite slot_beyond.
  - intros Hlt. destruct (wf_slot s Hwf (index_of h)) as (v & Hv & _ & Hidx); [lia|].
    exists v. split; [done|]. rewrite Hv. do 2 f_equal.
    pose proof (id_eq_iff v h Hidx) as Hiff.
    destruct (decide (v <> h)) as [Hne|Heq].
    + rewrite decide_False; [done|]. intros Hg. by apply Hne, Hiff.
    + apply dec_stable in Heq. rewrite decide_True; [done|]. by apply Hiff.
Qed.

Lemma get_object_checked_lookup_witness :
  (slots (state_after [Create] empty) <= index_of 7 ->
   get_object 7 (state_after [Create] empty) = Undefined OutOfBounds) /\
  (index_of 7 < slots (state_after [Create] empty) ->
   exists v, slot (state_after [Create] empty) (index_of 7) = Some v /\
     get_object 7 (state_after [Create] empty) =
     Ok (if decide (generation_of v = generation_of 7)
         then Some (locate (index_of 7)) else None, state_after [Create] empty)).
Proof.
  apply (get_object_checked_lookup 7 (state_after [Create] empty)).
  apply (bool_decide_unpack _). by vm_compute.
Defined.

(** C5, as stated, fails at the capacity of [int].  In the pool that
    [2 ^ 31] calls of [create_object] leave, with [2 ^ 23] chunks and an
    empty free list, the next [create_object] pushes the
    numbers [2 ^ 31 + i] converted to [int], which are negative; the number
    it takes back, converted to [size_t] and divided by [chunk_size], indexes
    [object_table] far past its end. *)
Lemma create_object_at_capacity_undefined :
  run (replicate (Z.to_nat (2 ^ 31)) Create) empty = Ok (tt, full) /\
  wf full /\ free_list full = [] /\
  create_object full = Undefined OutOfBounds.
Proof.
  split; [apply run_create_full|]. split; [apply wf_full|]. split; [done|].
  apply create_object_full; [done|]. apply full_length.
Qed.

(** C5, amended.  In a pool with an empty free list and fewer than [2 ^ 23]
    chunks, [create_object] returns.  It appends one chunk of [chunk_size]
    slots, slot number [slots s + o] at offset [o] with generation 0, to the
    chunks there were; it pushes the numbers of these slots from the highest
    offset down to offset 0; it then pops the number of offset 0 and returns
    the id stored in that slot, which stays as it is. *)
Theorem create_object_adds_chunk s :
  free_list s = [] -> Z.of_nat (length (object_table s)) < 2 ^ 23 ->
  let chunk := (fun o => Object (encode (slots s + o) 0)) <$> seqZ 0 chunk_size in
  create_object s = take_free (grown s) /\
  grown s =
    Pool (object_table s ++ [chunk]) (Z.add (slots s) <$> reverse (seqZ 0 chunk_size)) /\
  take_free (grown s) =
    Ok (encode (slots s) 0,
        Pool (object_table s ++ [chunk])
             (Z.add (slots s) <$> reverse (seqZ 1 (chunk_size - 1)))) /\
  length chunk = Z.to_nat chunk_size.
Proof.
  intros Hfl Hc chunk.
  assert (forall k, 0 <= k < 2 ^ 32 -> encode k 0 = k) as Henc.
  { intros k Hk. rewrite encode_add by done. change (to_int 0) with 0. lia. }
  pose proof (slots_nonneg s) as Hs.
  assert (slots s < 2 ^ 31) as Hs' by (unfold slots, chunk_size; lia).
  assert (chunk = (fun o => Object (slots s + o)) <$> seqZ 0 chunk_size) as Hchunk.
  { apply list_fmap_ext. intros i o Ho%lookup_seqZ. rewrite Henc; [done|].
    unfold chunk_size in *. lia. }
  split; [by apply create_object_grown|]. split; [|split].
  - rewrite grown_small, Hfl, Hchunk by done. done.
  - rewrite <- create_object_grown, create_object_grow, Hchunk, Henc by (done || lia). done.
  - unfold chunk. by rewrite length_fmap, length_seqZ.
Qed.

Lemma create_object_adds_chunk_witness : create_object empty = Ok (0, slot0_in_use 0).
Proof.
  destruct (create_object_adds_chunk empty) as (H1 & _ & H3 & _).
  - reflexivity.
  - by vm_compute.
  - rewrite H1, H3. reflexivity.
Defined.

(** C6.  Along every sequence of calls that return, the generation counter
    of a slot, the 32 bits of the high half of its id, is the counter at
    the start plus the number of destructions of the slot, modulo [2 ^ 32];
    for a slot allocated on the way it is that number, modulo [2 ^ 32].  So
    the counter starts at 0, [create_object] and [get_object] leave it
    alone, every [destroy_object] of the slot adds one, and it does not
    decrease until it comes round at [2 ^ 32]. *)
Theorem generation_counts_destructions s ops s' :
  wf s -> run ops s = Ok (tt, s') ->
  (forall k v, 0 <= k -> slot s k = Some v ->
     exists v', slot s' k = Some v' /\
       generation_field v' = (generation_field v + destroys_of k ops) mod 2 ^ 32 /\
       (generation_field v + destroys_of k ops < 2 ^ 32 ->
        generation_field v' = generation_field v + destroys_of k ops /\
        generation_field v <= generation_field v')) /\
  (forall k v', 0 <= k -> slot s k = None -> slot s' k = Some v' ->
     generation_field v' = destroys_of k ops mod 2 ^ 32 /\
     (destroys_of k ops < 2 ^ 32 -> generation_field v' = destroys_of k ops)).
Proof.
  intros Hwf Hrun. destruct (run_ok _ _ _ Hwf Hrun) as (Hwf' & _ & Hold & Hnew). split.
  - intros k v Hk Hv. pose proof (destroys_of_nonneg k ops) as Hd.
    pose proof (generation_field_range v) as Hg.
    eexists. split; [by apply Hold|]. rewrite generation_field_advanced.
    split; [done|]. intros Hsmall. rewrite Z.mod_small by lia. lia.
  - intros k v' Hk Hnone Hv'. pose proof (destroys_of_nonneg k ops) as Hd.
    pose proof (slot_allocated _ _ _ Hv') as Hlt.
    pose proof (wf_capacity s' Hwf') as Hcap.
    rewrite (Hnew _ _ Hk Hnone Hv'), generation_field_advanced.
    assert (generation_field k = 0) as ->.
    { rewrite generation_field_mod, generation_of_div, Z.div_small by lia. done. }
    rewrite Z.add_0_l. split; [done|]. intros Hsmall. apply Z.mod_small. lia.
Qed.

Lemma generation_counts_destructions_witness :
  (forall k v, 0 <= k -> slot (state_after [Create] empty) k = Some v ->
     exists v', slot (state_after [Create; Destroy 0; Create; Get 0] empty) k = Some v' /\
       generation_field v' =
         (generation_field v + destroys_of k [Destroy 0; Create; Get 0]) mod 2 ^ 32 /\
       (generation_field v + destroys_of k [Destroy 0; Create; Get 0] < 2 ^ 32 ->
        generation_field v' = generation_field v + destroys_of k [Destroy 0; Create; Get 0] /\
        generation_field v <= generation_field v')) /\
  (forall k v', 0 <= k -> slot (state_after [Create] empty) k = None ->
     slot (state_after [Create; Destroy 0; Create; Get 0] empty) k = Some v' ->
     generation_field v' = destroys_of k [Destroy 0; Create; Get 0] mod 2 ^ 32 /\
     (destroys_of k [Destroy 0; Create; Get 0] < 2 ^ 32 ->
      generation_field v' = destroys_of k [Destroy 0; Create; Get 0])).
Proof.
  apply (generation_counts_destructions (state_after [Create] empty)
           [Destroy 0; Create; Get 0]
           (state_after [Create; Destroy 0; Create; Get 0] empty)).
  - apply (bool_decide_unpack _). by vm_compute.
  - by vm_compute.
Defined.

(** C7.  For a slot number and a generation of 32 bits each, unpacking
    what was packed gives back the pair: [index | (generation << 32)] has
    the slot number in its low 32 bits and the generation in its high 32
    bits.  For a generation from [2 ^ 31] on the id is negative, and
    [id >> 32], which is signed, is then the same 32 bits read as an [int]. *)
Theorem decode_encode index generation :
  0 <= index < 2 ^ 32 -> 0 <= generation < 2 ^ 32 ->
  decode (encode index generation) = (index, generation) /\
  generation_of (encode index generation) = to_int generation.
Proof.
  intros Hi Hg. unfold decode.
  rewrite index_of_encode, generation_field_encode, generation_of_encode by done.
  by rewrite Z.mod_small.
Qed.

Lemma decode_encode_witness :
  decode (encode 300 (2 ^ 31)) = (300, 2 ^ 31) /\
  generation_of (encode 300 (2 ^ 31)) = to_int (2 ^ 31).
Proof. apply (decode_encode 300 (2 ^ 31)); lia. Defined.

(** C8.  The generation is advanced without a guard, so it comes round:
    [create_object] returns the id 0 for slot 0, [destroy_object(0)] makes
    that id stale, and after [2 ^ 32 - 1] further rounds of creating and
    destroying in slot 0 and one more [create_object], [get_object(0)] finds
    an object again. *)
Theorem generation_wrap_revalidates_handle :
  run [Create; Destroy 0] empty = Ok (tt, slot0_free (next_id 0)) /\
  get_object 0 (slot0_free (next_id 0)) = Ok (None, slot0_free (next_id 0)) /\
  run (churn (Z.to_nat (2 ^ 32 - 1)) 0 ++ [Create]) (slot0_free (next_id 0)) =
    Ok (tt, slot0_in_use 0) /\
  get_object 0 (slot0_in_use 0) = Ok (Some (locate 0), slot0_in_use 0).
Proof.
  split; [|split; [|split]].
  - change [Create; Destroy 0] with ([Create] ++ [Destroy 0]).
    rewrite run_app, run_first_create. cbn [run exec]. unfold bind, ret.
    by rewrite destroy_slot0.
  - by rewrite get_slot0_free.
  - rewrite run_app, run_churn, iter_next_id_wrap by done.
    cbn [run exec]. unfold bind, ret. by rewrite create_slot0.
  - by rewrite get_slot0.
Qed.

(** C9.  The id returned by [create_object] names a slot below
    [chunk_size] times the number of chunks; no later call removes a chunk,
    so after every sequence of calls that return, [get_object] of that id
    finds its chunk and its slot, and so does [destroy_object]. *)
Theorem created_handle_stays_in_bounds s h s1 ops s2 :
  wf s -> create_object s = Ok (h, s1) -> run ops s1 = Ok (tt, s2) ->
  0 <= index_of h < chunk_size * Z.of_nat (length (object_table s1)) /\
  (length (object_table s1) <= length (object_table s2))%nat /\
  is_Some (slot s2 (index_of h)) /\
  (exists r, get_object h s2 = Ok (r, s2)) /\
  destroy_object h s2 <> Undefined OutOfBounds.
Proof.
  intros Hwf Hc Hrun. pose proof (index_of_range h) as Hi.
  destruct (create_object_ok _ _ _ Hwf Hc) as (Hwf1 & _ & _ & Hh & _).
  destruct (run_ok _ _ _ Hwf1 Hrun) as (_ & Hlen & Hold & _).
  pose proof (Hold _ _ (proj1 Hi) Hh) as Hs2.
  split; [|split; [done|split; [by rewrite Hs2|split]]].
  - split; [lia|]. apply (slot_allocated _ _ _ Hh).
  - rewrite get_object_slot, Hs2. eauto.
  - rewrite destroy_object_slot, Hs2. by case_decide.
Qed.

Lemma created_handle_stays_in_bounds_witness :
  0 <= index_of 1 < chunk_size * Z.of_nat (length (object_table (state_after [Create; Create] empty))) /\
  (length (object_table (state_after [Create; Create] empty)) <=
   length (object_table (state_after [Create; Create; Destroy 1%Z; Create] empty)))%nat /\
  is_Some (slot (state_after [Create; Create; Destroy 1; Create] empty) (index_of 1)) /\
  (exists r, get_object 1 (state_after [Create; Create; Destroy 1; Create] empty) =
     Ok (r, state_after [Create; Create; Destroy 1; Create] empty)) /\
  destroy_object 1 (state_after [Create; Create; Destroy 1; Create] empty) <>
    Undefined OutOfBounds.
Proof.
  apply (created_handle_stays_in_bounds (state_after [Create] empty) 1
           (state_after [Create; Create] empty) [Destroy 1; Create]
           (state_after [Create; Create; Destroy 1; Create] empty)).
  - apply (bool_decide_unpack _). by vm_compute.
  - by vm_compute.
  - by vm_compute.
Defined.

(** C10.  A call of [get_object] that returns leaves the pool as it was,
    chunks, ids and free list; the same call on the pool it leaves returns
    the same result; and whatever calls follow behave as if the call had not
    been made.  (A call that does not return has indexed [object_table] out
    of bounds; [get_object] contains no assignment.) *)
Theorem get_object_read_only h s r s' :
  get_object h s = Ok (r, s') ->
  s' = s /\
  object_table s' = object_table s /\ free_list s' = free_list s /\
  (forall k, slot s' k = slot s k) /\
  get_object h s' = Ok (r, s') /\
  (forall ops, run (Get h :: ops) s = run ops s).
Proof.
  intros Hg. pose proof (get_object_same _ _ _ _ Hg) as ->.
  do 5 (split; [done|]). intros ops.
  cbn [run exec]. unfold bind, ret. by rewrite Hg.
Qed.

Lemma get_object_read_only_witness :
  state_after [Create] empty = state_after [Create] empty /\
  object_table (state_after [Create] empty) = object_table (state_after [Create] empty) /\
  free_list (state_after [Create] empty) = free_list (state_after [Create] empty) /\
  (forall k, slot (state_after [Create] empty) k = slot (state_after [Create] empty) k) /\
  get_object 0 (state_after [Create] empty) =
    Ok (Some (locate 0), state_after [Create] empty) /\
  (forall ops, run (Get 0 :: ops) (state_after [Create] empty) =
     run ops (state_after [Create] empty)).
Proof.
  apply (get_object_read_only 0 (state_after [Create] empty) (Some (locate 0))
           (state_after [Create] empty)).
  by vm_compute.
Defined.

(** ** Further properties of the slot map *)

Module SlotMapFacts.
Import Cxx CxxFacts v4 IdFacts PoolFacts v4_loops.

Lemma slot_deref s k v : slot s k = Some v -> deref s (locate k) = Some (Object v).
Proof.
  unfold slot. intros (o & Ho & ->)%fmap_Some. by destruct o.
Qed.

(** The id returned by [create_object] is found by [get_object], at the
    slot its low half names, and the object found holds that id: the two
    assertions of the test program after a creation. *)
Theorem create_object_then_get s h s' :
  wf s -> create_object s = Ok (h, s') ->
  get_object h s' = Ok (Some (locate (index_of h)), s') /\
  deref s' (locate (index_of h)) = Some (Object h).
Proof.
  intros Hwf Hc.
  destruct (create_object_ok _ _ _ Hwf Hc) as (_ & _ & _ & Hh & _).
  split; [|by apply slot_deref].
  rewrite get_object_slot, Hh. by rewrite decide_False by (by intros []).
Qed.

Lemma create_object_then_get_witness :
  get_object 0 (state_after [Create] empty) =
    Ok (Some (locate (index_of 0)), state_after [Create] empty) /\
  deref (state_after [Create] empty) (locate (index_of 0)) = Some (Object 0).
Proof.
  apply (create_object_then_get empty 0 (state_after [Create] empty)).
  - apply (bool_decide_unpack _). by vm_compute.
  - by vm_compute.
Defined.

(** What [get_object] returns for an id, the same pointer or [nullptr], is
    not changed by any sequence of calls that return and do not destroy the
    slot of the id: neither by the growth of the table nor by creations and
    destructions in other slots. *)
Theorem get_object_stable h s r ops s' :
  wf s -> get_object h s = Ok (r, s) -> run ops s = Ok (tt, s') ->
  destroys_of (index_of h) ops = 0 ->
  get_object h s' = Ok (r, s').
Proof.
  intros Hwf Hg Hrun Hcount. pose proof (index_of_range h) as Hi.
  destruct (run_ok _ _ _ Hwf Hrun) as (_ & _ & Hold & _).
  rewrite get_object_slot in *.
  destruct (slot s (index_of h)) as [v|] eqn:Hs; [|done].
  rewrite (Hold _ _ (proj1 Hi) Hs), Hcount, Z.mul_0_r, Z.add_0_r.
  rewrite to_long_long_id by apply (wf_slot_long s Hwf _ _ (proj1 Hi) Hs).
  apply Ok_inj in Hg as [<- _]. done.
Qed.

Lemma get_object_stable_witness :
  get_object 0 (state_after [Create; Create; Create; Destroy 1; Create] empty) =
  Ok (Some (locate 0), state_after [Create; Create; Create; Destroy 1; Create] empty).
Proof.
  apply (get_object_stable 0 (state_after [Create] empty) (Some (locate 0))
           [Create; Create; Destroy 1; Create]).
  - apply (bool_decide_unpack _). by vm_compute.
  - by vm_compute.
  - by vm_compute.
  - by vm_compute.
Defined.

(** The slot freed last is taken first: after [destroy_object(h)], the next
    [create_object] returns the id of the same slot with the generation
    advanced, [next_id h], leaves the chunks as the destruction left them
    and puts the free list back as it was before the destruction. *)
Theorem destroy_then_create s h s1 :
  wf s -> destroy_object h s = Ok (tt, s1) ->
  create_object s1 = Ok (next_id h, Pool (object_table s1) (free_list s)) /\
  index_of (next_id h) = index_of h /\ next_id h <> h.
Proof.
  intros Hwf Hd. pose proof (index_of_range h) as Hi.
  destruct (destroy_object_ok _ _ _ Hwf Hd) as (Hh & _ & _ & Hfl & Hslot).
  split; [|split; [apply index_of_next_id|]].
  - rewrite (create_object_reuse s1 (free_list s) (index_of h)) by (done || lia).
    rewrite Hslot by lia. by rewrite decide_True.
  - rewrite next_id_wrap. intros Heq. apply to_long_long_eq_iff in Heq; [done|].
    apply (wf_slot_long s Hwf _ _ (proj1 Hi) Hh).
Qed.

Lemma destroy_then_create_witness :
  create_object (state_after [Create; Destroy 0] empty) =
    Ok (next_id 0, Pool (object_table (state_after [Create; Destroy 0] empty))
                        (free_list (state_after [Create] empty))) /\
  index_of (next_id 0) = index_of 0 /\ next_id 0 <> 0.
Proof.
  apply (destroy_then_create (state_after [Create] empty) 0).
  - apply (bool_decide_unpack _). by vm_compute.
  - by vm_compute.
Defined.

(** One creation and the free list, when no slot number is on it twice. *)
Lemma create_object_free s h s1 :
  wf s -> NoDup (free_list s) -> create_object s = Ok (h, s1) ->
  NoDup (free_list s1) /\
  (index_of h ∉ free_list s1) /\
  (forall k, k ∈ free_list s1 -> k ∈ free_list s \/ slots s <= k).
Proof.
  intros Hwf Hnd. pose proof Hwf as (Hcap & _ & Hfl).
  destruct (last (free_list s)) as [f|] eqn:Hlast.
  - apply last_Some in Hlast as [fl Hfree].
    rewrite Hfree, Forall_app, Forall_singleton in Hfl. destruct Hfl as [_ Hf].
    pose proof (wf_capacity s Hwf).
    rewrite (create_object_reuse s fl f Hfree) by lia.
    destruct (wf_slot s Hwf f Hf) as (v & Hv & _ & Hidx).
    rewrite Hv. intros [<- <-]%Ok_inj. cbn [free_list].
    rewrite Hfree in Hnd. apply NoDup_app in Hnd as (Hnd & Hnotin & _).
    split; [done|]. split.
    + rewrite Hidx. intros Hin. apply (Hnotin _ Hin). by apply list_elem_of_singleton.
    + intros k Hk. left. rewrite Hfree. apply elem_of_app. by left.
  - apply last_None in Hlast.
    destruct (decide (Z.of_nat (length (object_table s)) = 2 ^ 23)) as [Hfull|Hroom].
    { by rewrite create_object_full. }
    rewrite create_object_grow by (done || lia). intros [<- <-]%Ok_inj. cbn [free_list].
    pose proof (slots_nonneg s) as Hs.
    assert (slots s < 2 ^ 31) as Hs' by (unfold slots, chunk_size; lia).
    split; [|split].
    + apply NoDup_fmap_2_strong; [intros x y _ _; lia|].
      rewrite reverse_Permutation. apply NoDup_seqZ.
    + rewrite index_of_small by lia. intros (o & Ho & Hin)%list_elem_of_fmap.
      rewrite elem_of_reverse, elem_of_seqZ in Hin. lia.
    + intros k (o & -> & Hin)%list_elem_of_fmap.
      rewrite elem_of_reverse, elem_of_seqZ in Hin. right. lia.
Qed.

Lemma create_objects_ok n s hs s' :
  wf s -> NoDup (free_list s) -> create_objects n s = Ok (hs, s') ->
  wf s' /\ NoDup (free_list s') /\
  (forall k v, slot s k = Some v -> slot s' k = Some v) /\
  NoDup (index_of <$> hs) /\
  (forall h, h ∈ hs ->
     slot s' (index_of h) = Some h /\
     (index_of h ∈ free_list s \/ slots s <= index_of h)) /\
  (forall k, k ∈ free_list s' -> k ∈ free_list s \/ slots s <= k).
Proof.
  revert s hs s'. induction n as [|n IH]; intros s hs s' Hwf Hnd.
  - cbn [create_objects]. unfold ret. intros [<- <-]%Ok_inj.
    split; [done|]. split; [done|]. split; [done|]. split; [constructor|].
    split; [|by left]. intros h Hin. by apply elem_of_nil in Hin.
  - cbn [create_objects]. unfold bind, ret.
    destruct (create_object s) as [[h s1]|] eqn:Hc; [|done].
    destruct (create_objects n s1) as [[hs' s2]|] eqn:Hcs; [|done].
    intros [<- <-]%Ok_inj.
    destruct (create_object_ok _ _ _ Hwf Hc) as (Hwf1 & Hlen & Hold & Hh & _).
    destruct (create_object_free _ _ _ Hwf Hnd Hc) as (Hnd1 & Hnotin & Hfrom).
    destruct (IH _ _ _ Hwf1 Hnd1 Hcs) as (Hwf2 & Hnd2 & Hold' & Hnds & Hhs & Hfrom').
    assert (slots s <= slots s1) as Hslots by (unfold slots, chunk_size; lia).
    pose proof (slot_allocated _ _ _ Hh) as Hlt.
    split; [done|]. split; [done|]. split; [by auto|]. split; [|split].
    + rewrite fmap_cons. apply NoDup_cons. split; [|done].
      intros (h' & Heq & Hin)%list_elem_of_fmap.
      destruct (Hhs _ Hin) as (_ & [Hfree|Hnew]).
      * apply Hnotin. by rewrite Heq.
      * lia.
    + intros h' [->|Hin]%elem_of_cons.
      * split; [by apply Hold'|].
        destruct (decide (index_of h < slots s)) as [Hlow|Hhigh]; [|right; lia].
        left. destruct (last (free_list s)) as [f|] eqn:Hlast.
        -- apply last_Some in Hlast as [fl Hfree].
           pose proof Hwf as (_ & _ & Hfl).
           rewrite Hfree, Forall_app, Forall_singleton in Hfl. destruct Hfl as [_ Hf].
           pose proof (wf_capacity s Hwf).
           rewrite (create_object_reuse s fl f Hfree) in Hc by lia.
           destruct (wf_slot s Hwf f Hf) as (v & Hv & _ & Hidx).
           rewrite Hv in Hc. apply Ok_inj in Hc as [<- _].
           rewrite Hidx, Hfree. apply elem_of_app. right. by apply list_elem_of_singleton.
        -- apply last_None in Hlast.
           destruct (decide (Z.of_nat (length (object_table s)) = 2 ^ 23)) as [Hfull|Hroom].
           { by rewrite create_object_full in Hc. }
           pose proof Hwf as (Hcap & _).
           rewrite create_object_grow in Hc by (done || lia).
           apply Ok_inj in Hc as [<- _].
           pose proof (slots_nonneg s).
           assert (slots s < 2 ^ 31) by (unfold slots, chunk_size; lia).
           rewrite index_of_small in Hlow by lia. lia.
      * destruct (Hhs _ Hin) as (Hslot & [Hfree|Hnew]).
        -- split; [done|]. apply Hfrom in Hfree. done.
        -- split; [done|]. right. lia.
    + intros k Hk. destruct (Hfrom' _ Hk) as [Hfree|Hnew]; [by apply Hfrom|right; lia].
Qed.

(** Creations in a row hand out different slots: when no slot number is on
    the free list twice, the ids that [n] successive calls of
    [create_object] return name pairwise different slots, and after the
    last call [get_object] finds each of them. *)
Theorem create_objects_distinct n s hs s' :
  wf s -> NoDup (free_list s) -> create_objects n s = Ok (hs, s') ->
  NoDup (index_of <$> hs) /\
  (forall h, h ∈ hs -> get_object h s' = Ok (Some (locate (index_of h)), s')) /\
  NoDup (free_list s').
Proof.
  intros Hwf Hnd Hc.
  destruct (create_objects_ok _ _ _ _ Hwf Hnd Hc) as (_ & Hnd' & _ & Hnds & Hhs & _).
  split; [done|]. split; [|done]. intros h Hin.
  destruct (Hhs _ Hin) as [Hslot _].
  rewrite get_object_slot, Hslot. by rewrite decide_False by (by intros []).
Qed.

Lemma create_objects_distinct_witness :
  NoDup (index_of <$> [0; 1; 2]) /\
  (forall h, h ∈ [0; 1; 2] ->
     get_object h (state_after [Create; Create; Create] empty) =
     Ok (Some (locate (index_of h)), state_after [Create; Create; Create] empty)) /\
  NoDup (free_list (state_after [Create; Create; Create] empty)).
Proof.
  apply (create_objects_distinct 3 empty).
  - apply (bool_decide_unpack _). by vm_compute.
  - constructor.
  - by vm_compute.
Defined.

Lemma create_object_run s :
  wf s -> free_list s <> [] \/ Z.of_nat (length (object_table s)) < 2 ^ 23 ->
  exists h s', create_object s = Ok (h, s').
Proof.
  intros Hwf Hcan. pose proof Hwf as (Hcap & _ & Hfl).
  destruct (last (free_list s)) as [f|] eqn:Hlast.
  - apply last_Some in Hlast as [fl Hfree].
    rewrite Hfree, Forall_app, Forall_singleton in Hfl. destruct Hfl as [_ Hf].
    pose proof (wf_capacity s Hwf).
    destruct (wf_slot s Hwf f Hf) as (v & Hv & _).
    rewrite (create_object_reuse s fl f Hfree), Hv by lia. eauto.
  - apply last_None in Hlast. destruct Hcan as [Hne|Hroom]; [done|].
    rewrite create_object_grow by done. eauto.
Qed.

(** [create_object] returns exactly when there is a slot to take: one on
    the free list, or one of a chunk that can still be added with slot
    numbers below [2 ^ 31]. *)
Theorem create_object_returns_iff s :
  wf s ->
  (exists h s', create_object s = Ok (h, s')) <->
  (free_list s <> [] \/ Z.of_nat (length (object_table s)) < 2 ^ 23).
Proof.
  intros Hwf. pose proof Hwf as (Hcap & _ & Hfl).
  destruct (last (free_list s)) as [f|] eqn:Hlast.
  - apply last_Some in Hlast as [fl Hfree].
    rewrite Hfree, Forall_app, Forall_singleton in Hfl. destruct Hfl as [_ Hf].
    pose proof (wf_capacity s Hwf).
    destruct (wf_slot s Hwf f Hf) as (v & Hv & _).
    split.
    + intros _. left. rewrite Hfree. intros Hnil. by apply app_nil in Hnil as [_ ?].
    + intros _. rewrite (create_object_reuse s fl f Hfree), Hv by lia. eauto.
  - apply last_None in Hlast. split.
    + intros (h & s' & Hc). right.
      destruct (decide (Z.of_nat (length (object_table s)) = 2 ^ 23)) as [Hfull|]; [|lia].
      by rewrite create_object_full in Hc.
    + intros [Hne|Hroom]; [done|]. rewrite create_object_grow by done. eauto.
Qed.

Lemma create_object_returns_iff_witness :
  (exists h s', create_object empty = Ok (h, s')) <->
  (free_list empty <> [] \/ Z.of_nat (length (object_table empty)) < 2 ^ 23).
Proof. apply (create_object_returns_iff empty). apply (bool_decide_unpack _). by vm_compute. Defined.

(** One creation takes one unit of room. *)
Lemma create_object_room s h s' :
  wf s -> create_object s = Ok (h, s') -> room s' = room s - 1.
Proof.
  intros Hwf. pose proof Hwf as (Hcap & _ & Hfl). unfold room.
  destruct (last (free_list s)) as [f|] eqn:Hlast.
  - apply last_Some in Hlast as [fl Hfree].
    rewrite Hfree, Forall_app, Forall_singleton in Hfl. destruct Hfl as [_ Hf].
    pose proof (wf_capacity s Hwf).
    destruct (wf_slot s Hwf f Hf) as (v & Hv & _).
    rewrite (create_object_reuse s fl f Hfree), Hv by lia.
    intros [_ <-]%Ok_inj. cbn [object_table free_list].
    rewrite Hfree, length_app. cbn [length]. lia.
  - apply last_None in Hlast.
    destruct (decide (Z.of_nat (length (object_table s)) = 2 ^ 23)) as [Hfull|Hroom].
    { by rewrite create_object_full. }
    rewrite create_object_grow by (done || lia). intros [_ <-]%Ok_inj.
    cbn [object_table free_list].
    rewrite Hlast, length_fmap, length_reverse, length_seqZ, length_app.
    cbn [length]. unfold chunk_size. lia.
Qed.

Lemma create_objects_run n s :
  wf s -> Z.of_nat n <= room s ->
  exists hs s', create_objects n s = Ok (hs, s') /\ length hs = n /\
    room s' = room s - Z.of_nat n.
Proof.
  revert s. induction n as [|n IH]; intros s Hwf Hroom.
  - exists [], s. split; [done|]. split; [done|]. lia.
  - assert (exists h s1, create_object s = Ok (h, s1)) as (h & s1 & Hc).
    { apply create_object_run; [done|].
      destruct (free_list s) eqn:Hfl; [right|by left].
      unfold room in Hroom. rewrite Hfl in Hroom. cbn [length] in Hroom.
      unfold chunk_size in Hroom. lia. }
    pose proof (create_object_room _ _ _ Hwf Hc) as Hr.
    destruct (create_object_ok _ _ _ Hwf Hc) as (Hwf1 & _).
    destruct (IH s1 Hwf1) as (hs & s' & Hcs & Hlen & Hr'); [lia|].
    exists (h :: hs), s'. cbn [create_objects]. unfold bind, ret. rewrite Hc, Hcs.
    split; [done|]. split; [by cbn [length]; rewrite Hlen|]. lia.
Qed.

(** As many creations in a row return as there is room for: the slots of the
    free list and of the chunks that can be added up to [2 ^ 23]. *)
Theorem create_objects_returns n s :
  wf s -> Z.of_nat n <= room s ->
  exists hs s', create_objects n s = Ok (hs, s') /\ length hs = n /\
    room s' = room s - Z.of_nat n.
Proof. apply create_objects_run. Qed.

Lemma create_objects_returns_witness :
  exists hs s', create_objects 3 empty = Ok (hs, s') /\ length hs = 3%nat /\
    room s' = room empty - Z.of_nat 3.
Proof.
  apply (create_objects_returns 3 empty).
  - apply (bool_decide_unpack _). by vm_compute.
  - by vm_compute.
Defined.

Lemma create_objects_room n s hs s' :
  wf s -> create_objects n s = Ok (hs, s') ->
  length hs = n /\ room s' = room s - Z.of_nat n.
Proof.
  revert s hs s'. induction n as [|n IH]; intros s hs s' Hwf.
  - cbn [create_objects]. unfold ret. intros [<- <-]%Ok_inj. split; [done|]. lia.
  - cbn [create_objects]. unfold bind, ret.
    destruct (create_object s) as [[h s1]|] eqn:Hc; [|done].
    destruct (create_objects n s1) as [[hs' s2]|] eqn:Hcs; [|done].
    intros [<- <-]%Ok_inj.
    pose proof (create_object_room _ _ _ Hwf Hc) as Hr.
    destruct (create_object_ok _ _ _ Hwf Hc) as (Hwf1 & _).
    destruct (IH _ _ _ Hwf1 Hcs) as [Hlen Hr'].
    split; [by cbn [length]; rewrite Hlen|]. lia.
Qed.

(** The ids of creations in a row are not on the free list afterwards. *)
Lemma create_objects_not_free n s hs s' :
  wf s -> NoDup (free_list s) -> create_objects n s = Ok (hs, s') ->
  forall h, h ∈ hs -> index_of h ∉ free_list s'.
Proof.
  revert s hs s'. induction n as [|n IH]; intros s hs s' Hwf Hnd.
  - cbn [create_objects]. unfold ret. intros [<- <-]%Ok_inj h Hin.
    by apply elem_of_nil in Hin.
  - cbn [create_objects]. unfold bind, ret.
    destruct (create_object s) as [[h s1]|] eqn:Hc; [|done].
    destruct (create_objects n s1) as [[hs' s2]|] eqn:Hcs; [|done].
    intros [<- <-]%Ok_inj.
    destruct (create_object_ok _ _ _ Hwf Hc) as (Hwf1 & _ & _ & Hh & _).
    destruct (create_object_free _ _ _ Hwf Hnd Hc) as (Hnd1 & Hnotin & _).
    destruct (create_objects_ok _ _ _ _ Hwf1 Hnd1 Hcs) as (_ & _ & _ & _ & _ & Hfrom).
    pose proof (slot_allocated _ _ _ Hh) as Hlt.
    intros h' [->|Hin]%elem_of_cons.
    + intros Hfree. destruct (Hfrom _ Hfree) as [?|?]; [done|lia].
    + by apply (IH _ _ _ Hwf1 Hnd1 Hcs).
Qed.

(** Destroying, one after the other, ids of different slots that each hold
    their id and are not on the free list. *)
Lemma destroy_objects_ok hs s :
  wf s -> NoDup (free_list s) -> NoDup (index_of <$> hs) ->
  (forall h, h ∈ hs -> slot s (index_of h) = Some h /\ index_of h ∉ free_list s) ->
  exists s', destroy_objects hs s = Ok (tt, s') /\
    wf s' /\ NoDup (free_list s') /\
    free_list s' = free_list s ++ (index_of <$> hs) /\
    length (object_table s') = length (object_table s) /\
    (forall h, h ∈ hs -> slot s' (index_of h) = Some (next_id h)) /\
    (forall k, 0 <= k -> k ∉ index_of <$> hs -> slot s' k = slot s k).
Proof.
  revert s. induction hs as [|h hs IH]; intros s Hwf Hnd Hidx Hlive.
  - exists s. cbn [destroy_objects fmap list_fmap]. rewrite app_nil_r.
    do 5 (split; [done|]). split; [|done]. intros h Hin. by apply elem_of_nil in Hin.
  - rewrite fmap_cons in Hidx. apply NoDup_cons in Hidx as [Hnotin Hidx].
    destruct (Hlive h) as [Hh Hfree]; [by left|].
    pose proof (index_of_range h) as Hi.
    assert (exists s1, destroy_object h s = Ok (tt, s1)) as [s1 Hd].
    { rewrite destroy_object_slot, Hh. rewrite decide_False by (by intros []). eauto. }
    destruct (destroy_object_ok _ _ _ Hwf Hd) as (_ & Hwf1 & Hlen1 & Hfl1 & Hslot1).
    destruct (IH s1) as (s' & Hds & Hwf' & Hnd' & Hfl' & Hlen' & Hdone & Hrest).
    + done.
    + rewrite Hfl1. apply NoDup_app. split; [done|]. split; [|apply NoDup_singleton].
      intros k Hk ->%list_elem_of_singleton. done.
    + done.
    + intros h' Hin. destruct (Hlive h') as [Hh' Hfree']; [by right|].
      assert (index_of h' <> index_of h) as Hne.
      { intros Heq. apply Hnotin. apply list_elem_of_fmap. exists h'. by split. }
      pose proof (index_of_range h'). split.
      * rewrite Hslot1 by lia. by rewrite decide_False.
      * rewrite Hfl1. intros [?|Hx%list_elem_of_singleton]%elem_of_app; [done|].
        by apply Hne.
    + exists s'. cbn [destroy_objects]. unfold bind. rewrite Hd.
      split; [done|]. split; [done|]. split; [done|]. split.
      { rewrite Hfl', Hfl1, fmap_cons, <- app_assoc. done. }
      split; [congruence|]. split.
      * intros h' [->|Hin]%elem_of_cons; [|by apply Hdone].
        rewrite Hrest by (done || lia). rewrite Hslot1 by lia. by rewrite decide_True.
      * intros k Hk Hnot. rewrite fmap_cons in Hnot.
        apply not_elem_of_cons in Hnot as [Hne Hnot].
        rewrite Hrest by done. rewrite Hslot1 by done. by rewrite decide_False.
Qed.

Lemma round_from n s hs s1 :
  wf s -> NoDup (free_list s) -> create_objects n s = Ok (hs, s1) ->
  (forall h, h ∈ hs ->
     get_object h s1 = Ok (Some (locate (index_of h)), s1) /\
     deref s1 (locate (index_of h)) = Some (Object h)) /\
  exists s2, destroy_objects hs s1 = Ok (tt, s2) /\
    (forall h, h ∈ hs -> get_object h s2 = Ok (None, s2)) /\
    wf s2 /\ NoDup (free_list s2) /\
    room s2 = room s.
Proof.
  intros Hwf Hnd Hc.
  destruct (create_objects_ok _ _ _ _ Hwf Hnd Hc) as (Hwf1 & Hnd1 & _ & Hnds & Hhs & _).
  pose proof (create_objects_not_free _ _ _ _ Hwf Hnd Hc) as Hnotfree.
  split.
  - intros h Hin. destruct (Hhs _ Hin) as [Hslot _]. split; [|by apply slot_deref].
    rewrite get_object_slot, Hslot. by rewrite decide_False by (by intros []).
  - destruct (destroy_objects_ok hs s1 Hwf1 Hnd1 Hnds) as
      (s2 & Hd & Hwf2 & Hnd2 & Hfl2 & Hlen2 & Hdone & _).
    { intros h Hin. split; [by apply Hhs|by apply Hnotfree]. }
    exists s2. split; [done|]. split; [|split; [done|split; [done|]]].
    + intros h Hin. destruct (Hhs _ Hin) as [Hslot _].
      pose proof (index_of_range h) as Hi.
      rewrite get_object_slot, (Hdone _ Hin). rewrite decide_True; [done|].
      rewrite next_id_wrap. intros Heq. apply to_long_long_eq_iff in Heq; [done|].
      apply (wf_slot_long s1 Hwf1 _ _ (proj1 Hi) Hslot).
    + destruct (create_objects_room _ _ _ _ Hwf Hc) as [Hlen Hroom].
      unfold room in *. rewrite Hfl2, Hlen2, length_app, length_fmap, Hlen. lia.
Qed.

(** One round of the test program on the slot map.  From a pool that
    satisfies the invariant and has no slot number twice on its free list:
    if [n] calls of [create_object] return, then [get_object] finds every
    id returned, in an object that holds it; destroying the ids one after
    the other returns; afterwards [get_object] of every one of them is
    [nullptr]; and the pool is again as required for the next round, with
    the room it had. *)
Theorem test_round n s hs s1 :
  wf s -> NoDup (free_list s) -> create_objects n s = Ok (hs, s1) ->
  (forall h, h ∈ hs ->
     get_object h s1 = Ok (Some (locate (index_of h)), s1) /\
     deref s1 (locate (index_of h)) = Some (Object h)) /\
  exists s2, destroy_objects hs s1 = Ok (tt, s2) /\
    (forall h, h ∈ hs -> get_object h s2 = Ok (None, s2)) /\
    wf s2 /\ NoDup (free_list s2) /\
    room s2 = room s.
Proof. apply round_from. Qed.

(** The same with the creations: a round of [n] objects runs when there is
    room for them. *)
Lemma v4_round n s :
  wf s -> NoDup (free_list s) -> Z.of_nat n <= room s ->
  exists hs s1 s2,
    create_objects n s = Ok (hs, s1) /\ length hs = n /\
    (forall h, h ∈ hs -> test.found4 s1 h) /\
    destroy_objects hs s1 = Ok (tt, s2) /\
    (forall h, h ∈ hs -> test.gone4 s2 h) /\
    wf s2 /\ NoDup (free_list s2) /\ room s2 = room s.
Proof.
  intros Hwf Hnd Hroom.
  destruct (create_objects_run n s Hwf Hroom) as (hs & s1 & Hcs & Hlen & _).
  destruct (round_from n s hs s1 Hwf Hnd Hcs) as
    (Hfound & s2 & Hds & Hgone & Hwf2 & Hnd2 & Hr).
  exists hs, s1, s2. split; [done|]. split; [done|]. split; [|done].
  intros h Hin. destruct (Hfound _ Hin) as [Hg Hd].
  exists (locate (index_of h)). split; [done|]. unfold load_id. by rewrite Hd.
Qed.

Lemma test_round_witness :
  (forall h, h ∈ [0; 1; 2] ->
     get_object h (state_after [Create; Create; Create] empty) =
       Ok (Some (locate (index_of h)), state_after [Create; Create; Create] empty) /\
     deref (state_after [Create; Create; Create] empty) (locate (index_of h)) =
       Some (Object h)) /\
  exists s2, destroy_objects [0; 1; 2] (state_after [Create; Create; Create] empty) =
      Ok (tt, s2) /\
    (forall h, h ∈ [0; 1; 2] -> get_object h s2 = Ok (None, s2)) /\
    wf s2 /\ NoDup (free_list s2) /\
    room s2 = room empty.
Proof.
  apply (test_round 3 empty).
  - apply (bool_decide_unpack _). by vm_compute.
  - constructor.
  - by vm_compute.
Defined.

(** The free list is a stack: creations for which it has entries take them
    from its back, last first, and add no chunk; the ids returned are those
    stored in the slots taken. *)
Theorem create_objects_take_free taken fl s hs s' :
  wf s -> free_list s = fl ++ taken ->
  create_objects (length taken) s = Ok (hs, s') ->
  Forall2 (fun h f => slot s f = Some h /\ index_of h = f) hs (reverse taken) /\
  s' = Pool (object_table s) fl.
Proof.
  revert s hs s'. induction taken as [|f taken IH] using rev_ind; intros s hs s' Hwf Hfree.
  - cbn [length create_objects]. unfold ret. intros [<- <-]%Ok_inj.
    rewrite app_nil_r in Hfree. rewrite <- Hfree. split; [constructor|by destruct s].
  - rewrite length_app, Nat.add_1_r. cbn [create_objects]. unfold bind, ret.
    rewrite app_assoc in Hfree. pose proof Hwf as (_ & _ & Hfl).
    rewrite Hfree, Forall_app, Forall_singleton in Hfl. destruct Hfl as [_ Hf].
    pose proof (wf_capacity s Hwf).
    destruct (wf_slot s Hwf f Hf) as (v & Hv & _ & Hidx).
    destruct (create_object s) as [[h s1]|] eqn:Hc; [|done].
    pose proof (create_object_ok _ _ _ Hwf Hc) as (Hwf1 & _).
    rewrite (create_object_reuse s (fl ++ taken) f Hfree), Hv in Hc by lia.
    apply Ok_inj in Hc as [<- <-].
    destruct (create_objects (length taken) _) as [[hs1 s2]|] eqn:Hcs; [|done].
    intros [<- <-]%Ok_inj.
    destruct (IH _ _ _ Hwf1 eq_refl Hcs) as [Hall ->].
    rewrite reverse_snoc. split; [|done]. constructor; [done|].
    eapply Forall2_impl; [done|]. intros h k [Hk ?]. split; [|done].
    by rewrite (slot_same_table s) in Hk.
Qed.

Lemma create_objects_take_free_witness :
  Forall2 (fun h f =>
             slot (state_after [Create; Create; Destroy 0; Destroy 1] empty) f = Some h /\
             index_of h = f)
          [next_id 1; next_id 0] (reverse [0; 1]) /\
  state_after [Create; Create; Destroy 0; Destroy 1; Create; Create] empty =
  Pool (object_table (state_after [Create; Create; Destroy 0; Destroy 1] empty))
       (reverse (seqZ 2 (chunk_size - 2))).
Proof.
  apply (create_objects_take_free [0; 1] (reverse (seqZ 2 (chunk_size - 2)))).
  - apply (bool_decide_unpack _). by vm_compute.
  - by vm_compute.
  - by vm_compute.
Defined.

(** [get_object] cannot tell a free slot from a slot in use: every slot on
    the free list holds an id with the number of the slot in its low half,
    and [get_object] finds that id.  So a slot of a new chunk is found under
    its number before it was ever handed out, and a destroyed slot is found
    under the id that the next creation in it will return. *)
Theorem free_slot_is_found s k :
  wf s -> k ∈ free_list s ->
  exists v, slot s k = Some v /\ index_of v = k /\
    get_object v s = Ok (Some (locate k), s).
Proof.
  intros Hwf Hin. pose proof Hwf as (_ & _ & Hfl).
  rewrite Forall_forall in Hfl. specialize (Hfl _ Hin).
  destruct (wf_slot s Hwf k Hfl) as (v & Hv & _ & Hidx).
  exists v. split; [done|]. split; [done|].
  rewrite get_object_slot, Hidx, Hv. by rewrite decide_False by (by intros []).
Qed.

Lemma free_slot_is_found_witness :
  exists v, slot (state_after [Create] empty) 1 = Some v /\ index_of v = 1 /\
    get_object v (state_after [Create] empty) =
      Ok (Some (locate 1), state_after [Create] empty).
Proof.
  apply (free_slot_is_found (state_after [Create] empty) 1).
  - apply (bool_decide_unpack _). by vm_compute.
  - apply (bool_decide_unpack _). by vm_compute.
Defined.

(** [destroy_object] does not check that the slot is in use either: for
    the id stored in the slot that is last on the free list it returns and
    puts the slot on the free list a second time, and the next two
    creations return one and the same id. *)
Theorem destroy_free_slot_duplicates s fl k v :
  wf s -> free_list s = fl ++ [k] -> slot s k = Some v ->
  exists s1 s2 s3,
    destroy_object v s = Ok (tt, s1) /\ free_list s1 = fl ++ [k; k] /\
    create_object s1 = Ok (next_id v, s2) /\
    create_object s2 = Ok (next_id v, s3) /\
    free_list s3 = fl.
Proof.
  intros Hwf Hfree Hv. pose proof Hwf as (_ & _ & Hfl).
  rewrite Hfree, Forall_app, Forall_singleton in Hfl. destruct Hfl as [_ Hk].
  destruct (wf_slot_ok s Hwf k v (proj1 Hk) Hv) as [Hlong Hidx].
  pose proof (wf_capacity s Hwf) as Hcap.
  assert (exists s1, destroy_object v s = Ok (tt, s1)) as [s1 Hd].
  { rewrite destroy_object_slot, Hidx, Hv. rewrite decide_False by (by intros []). eauto. }
  destruct (destroy_object_ok _ _ _ Hwf Hd) as (_ & Hwf1 & _ & Hfl1 & Hslot1).
  rewrite Hidx, Hfree, <- app_assoc in Hfl1. cbn [app] in Hfl1.
  assert (slot s1 k = Some (next_id v)) as Hk1.
  { rewrite Hslot1 by lia. by rewrite Hidx, decide_True. }
  exists s1, (Pool (object_table s1) (fl ++ [k])), (Pool (object_table s1) fl).
  split; [done|]. split; [done|]. split; [|split; [|done]].
  - rewrite (create_object_reuse s1 (fl ++ [k]) k), Hk1 by (lia || by rewrite <- app_assoc).
    done.
  - rewrite (create_object_reuse _ fl k) by (done || lia).
    by rewrite (slot_same_table s1), Hk1.
Qed.

Lemma destroy_free_slot_duplicates_witness :
  exists s1 s2 s3,
    destroy_object 1 (state_after [Create] empty) = Ok (tt, s1) /\
    free_list s1 = reverse (seqZ 2 (chunk_size - 2)) ++ [1; 1] /\
    create_object s1 = Ok (next_id 1, s2) /\
    create_object s2 = Ok (next_id 1, s3) /\
    free_list s3 = reverse (seqZ 2 (chunk_size - 2)).
Proof.
  apply (destroy_free_slot_duplicates (state_after [Create] empty)).
  - apply (bool_decide_unpack _). by vm_compute.
  - by vm_compute.
  - by vm_compute.
Defined.

(** A new pool hands out the slot numbers in order: the first [n]
    creations from the empty pool, for [n] up to [2 ^ 31], return
    [0, 1, ..., n - 1], with generation 0, and leave the chunks needed for
    [n] objects and, on the free list, the rest of the last chunk. *)
Theorem create_objects_from_empty n :
  Z.of_nat n <= 2 ^ 31 ->
  create_objects n empty = Ok (seqZ 0 (Z.of_nat n), created (Z.of_nat n)).
Proof.
  change empty with (created 0).
  assert (forall k, 0 <= k -> k + Z.of_nat n <= 2 ^ 31 ->
    create_objects n (created k) = Ok (seqZ k (Z.of_nat n), created (k + Z.of_nat n))) as H.
  { induction n as [|n IH]; intros k Hk Hn.
    - cbn [create_objects]. unfold ret. by rewrite Z.add_0_r.
    - cbn [create_objects]. unfold bind, ret.
      rewrite create_object_created, IH by lia.
      rewrite (seqZ_cons k) by lia.
      replace (Z.succ k) with (k + 1) by lia.
      replace (Z.pred (Z.of_nat (S n))) with (Z.of_nat n) by lia.
      by replace (k + Z.of_nat (S n)) with (k + 1 + Z.of_nat n) by lia. }
  intros Hn. by apply H.
Qed.

Lemma create_objects_from_empty_witness :
  create_objects 3 empty = Ok (seqZ 0 (Z.of_nat 3), created (Z.of_nat 3)).
Proof. apply (create_objects_from_empty 3). by vm_compute. Defined.

(** Every pool that calls returning one after the other reach from the empty
    pool satisfies the invariant: at most [2 ^ 23] chunks, each of
    [chunk_size] objects, every stored id a [long long] whose low half is the
    number of its slot, every number on the free list that of an allocated
    slot. *)
Theorem reachable_pool_invariant ops s :
  run ops empty = Ok (tt, s) ->
  Z.of_nat (length (object_table s)) <= 2 ^ 23 /\
  (forall c chunk, object_table s !! c = Some chunk -> length chunk = Z.to_nat chunk_size) /\
  (forall k v, 0 <= k -> slot s k = Some v -> is_long_long v /\ index_of v = k) /\
  (forall k, 0 <= k < slots s -> is_Some (slot s k)) /\
  Forall (fun f => 0 <= f < slots s) (free_list s).
Proof.
  intros Hrun. pose proof (run_ok _ _ _ wf_empty Hrun) as (Hwf & _).
  split; [apply Hwf|]. split; [apply (wf_chunk_length s Hwf)|].
  split; [apply (wf_slot_ok s Hwf)|]. split; [|apply Hwf].
  intros k Hk. destruct (wf_slot s Hwf k Hk) as (v & -> & _). done.
Qed.

Lemma reachable_pool_invariant_witness :
  Z.of_nat (length (object_table (state_after [Create; Destroy 0; Create] empty))) <= 2 ^ 23 /\
  (forall c chunk, object_table (state_after [Create; Destroy 0; Create] empty) !! c = Some chunk ->
     length chunk = Z.to_nat chunk_size) /\
  (forall k v, 0 <= k -> slot (state_after [Create; Destroy 0; Create] empty) k = Some v ->
     is_long_long v /\ index_of v = k) /\
  (forall k, 0 <= k < slots (state_after [Create; Destroy 0; Create] empty) ->
     is_Some (slot (state_after [Create; Destroy 0; Create] empty) k)) /\
  Forall (fun f => 0 <= f < slots (state_after [Create; Destroy 0; Create] empty))
    (free_list (state_after [Create; Destroy 0; Create] empty)).
Proof.
  apply (reachable_pool_invariant [Create; Destroy 0; Create]). by vm_compute.
Defined.

End SlotMapFacts.

(** ** The earlier tables *)

Module SemFacts.
Import Sem.

Lemma Done_inj {S A} (a b : A) (s t : S) : Done (a, s) = Done (b, t) -> a = b /\ s = t.
Proof. by intros [= -> ->]. Qed.

End SemFacts.

(** ** The ordered map of v1 *)

Module V1Facts.
Import Cxx Sem SemFacts v1.

Lemma v1_inv_empty : inv empty.
Proof. split; [cbn; lia|]. intros k o Hk. cbn in Hk. by rewrite lookup_empty in Hk. Qed.

Lemma v1_create_object_ok s h s' :
  inv s -> create_object s = Done (h, s') ->
  inv s' /\ h = next_id s /\ object_table s !! h = None /\
  next_id s' = next_id s + 1 /\
  object_table s' = <[h := Object h]> (object_table s).
Proof.
  intros [Hn Hkeys]. unfold create_object. case_decide as Hmax; [|done].
  intros [<- <-]%Done_inj. cbn [next_id object_table].
  assert (object_table s !! next_id s = None) as Hfresh.
  { destruct (object_table s !! next_id s) as [o|] eqn:Ho; [|done].
    apply Hkeys in Ho. lia. }
  split; [|done]. split; [cbn [next_id]; lia|]. intros k o. cbn [next_id object_table].
  destruct (decide (k = next_id s)) as [->|Hne].
  - rewrite lookup_insert_eq. intros [= <-]. cbn. lia.
  - rewrite lookup_insert_ne by done. intros Ho%Hkeys. lia.
Qed.

Lemma v1_destroy_object_delete h s :
  destroy_object h s = Done (tt, Table (next_id s) (delete h (object_table s))).
Proof.
  unfold destroy_object. destruct (object_table s !! h) eqn:Hh; [done|].
  rewrite delete_id by done. by destruct s.
Qed.

Lemma v1_get_object_lookup h s :
  get_object h s = Done (if object_table s !! h is Some _ then Some h else None, s).
Proof. unfold get_object. by destruct (object_table s !! h). Qed.

(** One call keeps the invariant, never lowers [next_id], and never brings
    back an id below [next_id] that is not in the table. *)
Lemma v1_exec_ok o s s' :
  inv s -> Sem.exec create_object get_object destroy_object o s = Done (tt, s') ->
  inv s' /\ next_id s <= next_id s' /\
  forall h, h < next_id s -> object_table s !! h = None -> object_table s' !! h = None.
Proof.
  intros Hinv. destruct o as [|h|h]; cbn [Sem.exec]; unfold bind, ret.
  - destruct (create_object s) as [[h s1]|] eqn:Hc; [|done]. intros [_ <-]%Done_inj.
    destruct (v1_create_object_ok _ _ _ Hinv Hc) as (Hinv' & -> & _ & Hn & Ht).
    split; [done|]. split; [lia|]. intros h Hh Hnone.
    rewrite Ht, lookup_insert_ne by lia. done.
  - rewrite v1_get_object_lookup. by intros [_ <-]%Done_inj.
  - rewrite v1_destroy_object_delete. intros [_ <-]%Done_inj. cbn [next_id object_table].
    split; [|split; [done|]].
    + destruct Hinv as [Hn Hkeys]. split; [done|]. intros k o Ho.
      cbn [object_table] in Ho.
      apply lookup_delete_Some in Ho as [_ Ho]. by apply Hkeys.
    + intros h' _ Hnone. apply lookup_delete_None. by right.
Qed.

Lemma v1_run_ok ops s s' :
  inv s -> run ops s = Done (tt, s') ->
  inv s' /\ next_id s <= next_id s' /\
  forall h, h < next_id s -> object_table s !! h = None -> object_table s' !! h = None.
Proof.
  unfold run. revert s. induction ops as [|o ops IH]; intros s Hinv.
  - cbn [Sem.run]. unfold ret. by intros [_ <-]%Done_inj.
  - cbn [Sem.run]. unfold bind.
    destruct (Sem.exec _ _ _ o s) as [[[] s1]|] eqn:Ho; [|done]. intros Hrun.
    destruct (v1_exec_ok _ _ _ Hinv Ho) as (Hinv1 & Hn1 & Hnone1).
    destruct (IH _ Hinv1 Hrun) as (Hinv' & Hn' & Hnone').
    split; [done|]. split; [lia|]. intros h Hh Hnone.
    apply Hnone'; [lia|]. by apply Hnone1.
Qed.

(** v1.  [create_object] returns an id under which nothing is stored;
    afterwards [get_object] finds under that id an object holding it, and
    what is stored under every other id is as before. *)
Theorem v1_create_then_get s h s' :
  inv s -> create_object s = Done (h, s') ->
  object_table s !! h = None /\
  get_object h s' = Done (Some h, s') /\
  deref s' h = Some (Object h) /\
  (forall h', h' <> h -> object_table s' !! h' = object_table s !! h').
Proof.
  intros Hinv Hc.
  destruct (v1_create_object_ok _ _ _ Hinv Hc) as (_ & _ & Hfresh & _ & Ht).
  split; [done|]. unfold deref. rewrite v1_get_object_lookup, Ht, !lookup_insert_eq.
  split; [done|]. split; [done|]. intros h' Hne. by rewrite lookup_insert_ne.
Qed.

Lemma v1_create_then_get_witness :
  object_table empty !! 0 = None /\
  get_object 0 (Table 1 {[0 := Object 0]}) = Done (Some 0, Table 1 {[0 := Object 0]}) /\
  deref (Table 1 {[0 := Object 0]}) 0 = Some (Object 0) /\
  (forall h', h' <> 0 ->
     object_table (Table 1 {[0 := Object 0]}) !! h' = object_table empty !! h').
Proof.
  apply (v1_create_then_get empty 0 (Table 1 {[0 := Object 0]})).
  - apply v1_inv_empty.
  - reflexivity.
Defined.

(** v1.  [destroy_object] always returns.  Afterwards [get_object] of the
    id is [nullptr] and every other id is as before; for an id that is not
    in the table the call changes nothing. *)
Theorem v1_destroy_total h s :
  exists s', destroy_object h s = Done (tt, s') /\
    get_object h s' = Done (None, s') /\
    next_id s' = next_id s /\
    (forall h', h' <> h -> object_table s' !! h' = object_table s !! h') /\
    (object_table s !! h = None -> s' = s).
Proof.
  eexists. split; [apply v1_destroy_object_delete|].
  rewrite v1_get_object_lookup. cbn [object_table next_id]. rewrite lookup_delete_eq.
  split; [done|]. split; [done|]. split.
  - intros h' Hne. by rewrite lookup_delete_ne.
  - intros Hnone. rewrite delete_id by done. by destruct s.
Qed.

(** v1.  An id is never handed out twice: once an id that was issued is
    destroyed, [get_object] of it is [nullptr] after every further sequence
    of calls. *)
Theorem v1_destroyed_id_stays_not_found h s s1 ops s2 :
  inv s -> h < next_id s ->
  destroy_object h s = Done (tt, s1) -> run ops s1 = Done (tt, s2) ->
  get_object h s2 = Done (None, s2).
Proof.
  intros Hinv Hh Hd Hrun.
  rewrite v1_destroy_object_delete in Hd. apply Done_inj in Hd as [_ <-].
  assert (inv (Table (next_id s) (delete h (object_table s)))) as Hinv1.
  { destruct Hinv as [Hn Hkeys]. split; [done|]. intros k o Ho. cbn [object_table] in Ho.
    apply lookup_delete_Some in Ho as [_ Ho]. by apply Hkeys. }
  destruct (v1_run_ok _ _ _ Hinv1 Hrun) as (_ & _ & Hnone).
  rewrite v1_get_object_lookup, (Hnone h); [done|done|].
  cbn [object_table]. apply lookup_delete_eq.
Qed.

Lemma v1_destroyed_id_stays_not_found_witness :
  get_object 0 (Table 2 {[1 := Object 1]}) = Done (None, Table 2 {[1 := Object 1]}).
Proof.
  apply (v1_destroyed_id_stays_not_found 0 (Table 1 {[0 := Object 0]}) (Table 1 ∅)
           [v4.Create]).
  - apply (v1_run_ok [v4.Create] empty); [apply v1_inv_empty|reflexivity].
  - by vm_compute.
  - by vm_compute.
  - by vm_compute.
Defined.

(** *** A round of the test program *)

Lemma v1_create_object_keep s h' s' h :
  create_object s = Done (h', s') ->
  object_table s !! h = Some (Object h) -> object_table s' !! h = Some (Object h).
Proof.
  unfold create_object. case_decide; [|done]. intros [_ <-]%Done_inj Hh.
  cbn [object_table]. destruct (decide (h = next_id s)) as [->|Hne].
  - by rewrite lookup_insert_eq.
  - by rewrite lookup_insert_ne.
Qed.

Lemma v1_creates_keep n s hs s' h :
  create_objects n s = Done (hs, s') ->
  object_table s !! h = Some (Object h) -> object_table s' !! h = Some (Object h).
Proof.
  unfold create_objects. revert s hs s'. induction n as [|n IH]; intros s hs s'.
  - cbn [creates]. unfold ret. by intros [_ <-]%Done_inj.
  - cbn [creates]. unfold bind, ret.
    destruct (create_object s) as [[h1 s1]|] eqn:Hc; [|done].
    destruct (creates create_object n s1) as [[hs1 s2]|] eqn:Hcs; [|done].
    intros [_ <-]%Done_inj Hh. eapply IH; [done|]. by eapply v1_create_object_keep.
Qed.

Lemma v1_creates_ok n s :
  inv s -> Z.of_nat n <= room s ->
  exists hs s', create_objects n s = Done (hs, s') /\ length hs = n /\
    inv s' /\ room s' = room s - Z.of_nat n /\
    (forall h, h ∈ hs -> object_table s' !! h = Some (Object h)).
Proof.
  revert s. induction n as [|n IH]; intros s Hinv Hroom.
  - exists [], s. split; [done|]. split; [done|]. split; [done|]. split; [lia|].
    intros h Hin. by apply elem_of_nil in Hin.
  - assert (exists h s1, create_object s = Done (h, s1)) as (h & s1 & Hc).
    { unfold create_object. unfold room in Hroom. rewrite decide_True by lia. eauto. }
    destruct (v1_create_object_ok _ _ _ Hinv Hc) as (Hinv1 & Hh & _ & Hn & Ht).
    destruct (IH s1 Hinv1) as (hs & s' & Hcs & Hlen & Hinv' & Hr & Hhs).
    { unfold room in *. lia. }
    exists (h :: hs), s'. unfold create_objects in *. cbn [creates]. unfold bind, ret.
    rewrite Hc, Hcs. split; [done|]. split; [by cbn [length]; rewrite Hlen|].
    split; [done|]. split; [unfold room in *; lia|].
    intros h' [->|Hin]%elem_of_cons; [|by apply Hhs].
    eapply (v1_creates_keep n s1); [done|]. rewrite Ht. apply lookup_insert_eq.
Qed.

Lemma v1_destroys_ok hs s :
  exists s', destroy_objects hs s = Done (tt, s') /\ next_id s' = next_id s /\
    (inv s -> inv s') /\
    (forall h, object_table s !! h = None -> object_table s' !! h = None) /\
    (forall h, h ∈ hs -> object_table s' !! h = None).
Proof.
  unfold destroy_objects. revert s. induction hs as [|h hs IH]; intros s.
  - exists s. split; [done|]. split; [done|]. split; [done|]. split; [done|].
    intros h Hin. by apply elem_of_nil in Hin.
  - destruct (IH (Table (next_id s) (delete h (object_table s))))
      as (s' & Hds & Hn & Hinv & Hnone & Hhs).
    exists s'. cbn [destroys]. unfold bind. rewrite v1_destroy_object_delete.
    split; [done|]. split; [done|]. split; [|split].
    + intros [Hnx Hkeys]. apply Hinv. split; [done|]. intros k o Ho.
      cbn [object_table] in Ho. apply lookup_delete_Some in Ho as [_ Ho]. by apply Hkeys.
    + intros h' Hh'. apply Hnone. cbn [object_table]. apply lookup_delete_None. by right.
    + intros h' [->|Hin]%elem_of_cons; [|by apply Hhs].
      apply Hnone. cbn [object_table]. apply lookup_delete_eq.
Qed.

Lemma v1_round n s :
  inv s -> Z.of_nat n <= room s ->
  exists hs s1 s2,
    create_objects n s = Done (hs, s1) /\ length hs = n /\
    (forall h, h ∈ hs -> test.found1 s1 h) /\
    destroy_objects hs s1 = Done (tt, s2) /\
    (forall h, h ∈ hs -> test.gone1 s2 h) /\
    inv s2 /\ room s2 = room s - Z.of_nat n.
Proof.
  intros Hinv Hroom.
  destruct (v1_creates_ok n s Hinv Hroom) as (hs & s1 & Hcs & Hlen & Hinv1 & Hr & Hhs).
  destruct (v1_destroys_ok hs s1) as (s2 & Hds & Hn & Hinv2 & _ & Hnone).
  exists hs, s1, s2. split; [done|]. split; [done|]. split; [|split; [done|split; [|split]]].
  - intros h Hin. exists h. unfold deref. rewrite v1_get_object_lookup, (Hhs _ Hin). split; [done|by apply Hhs].
  - intros h Hin. unfold test.gone1. by rewrite v1_get_object_lookup, (Hnone _ Hin).
  - by apply Hinv2.
  - unfold room in *. lia.
Qed.

(** v1.  One round of the test program on the map.  From a table that
    satisfies the invariant, while [next_id] can still be incremented [n]
    times: [n] calls of [create_object] return; [get_object] then finds
    every id returned, in an object that holds it; destroying the ids one
    after the other returns, and afterwards [get_object] of each of them is
    [nullptr]; the invariant holds again, with [n] ids less to hand out. *)
Theorem v1_test_round n s :
  inv s -> Z.of_nat n <= room s ->
  exists hs s1 s2,
    create_objects n s = Done (hs, s1) /\ length hs = n /\
    (forall h, h ∈ hs -> test.found1 s1 h) /\
    destroy_objects hs s1 = Done (tt, s2) /\
    (forall h, h ∈ hs -> test.gone1 s2 h) /\
    inv s2 /\ room s2 = room s - Z.of_nat n.
Proof. apply v1_round. Qed.

Lemma v1_test_round_witness :
  exists hs s1 s2,
    create_objects 2 empty = Done (hs, s1) /\ length hs = 2%nat /\
    (forall h, h ∈ hs -> test.found1 s1 h) /\
    destroy_objects hs s1 = Done (tt, s2) /\
    (forall h, h ∈ hs -> test.gone1 s2 h) /\
    inv s2 /\ room s2 = room empty - Z.of_nat 2.
Proof.
  apply (v1_test_round 2 empty).
  - apply v1_inv_empty.
  - by vm_compute.
Defined.

(** v1.  The ids are the values of a counter: [n] creations, while
    [next_id] can be incremented [n] times, return
    [next_id, next_id + 1, ..., next_id + n - 1] in this order, whatever the
    table holds. *)
Theorem v1_creates_consecutive n s :
  Z.of_nat n <= room s ->
  exists s', create_objects n s = Done (seqZ (next_id s) (Z.of_nat n), s') /\
    next_id s' = next_id s + Z.of_nat n.
Proof.
  unfold create_objects, room. revert s. induction n as [|n IH]; intros s Hn.
  - exists s. split; [done|]. lia.
  - destruct (IH (Table (next_id s + 1) (<[next_id s := Object (next_id s)]> (object_table s))))
      as (s' & Hcs & Hnext); [cbn [next_id]; lia|].
    cbn [next_id] in *.
    assert (create_object s =
      Done (next_id s, Table (next_id s + 1)
                             (<[next_id s := Object (next_id s)]> (object_table s)))) as Hc.
    { unfold create_object. by rewrite decide_True by lia. }
    exists s'. cbn [creates]. unfold bind, ret. rewrite Hc, Hcs.
    split; [|lia]. rewrite (seqZ_cons (next_id s)) by lia.
    replace (Z.succ (next_id s)) with (next_id s + 1) by lia.
    by replace (Z.pred (Z.of_nat (S n))) with (Z.of_nat n) by lia.
Qed.

Lemma v1_creates_consecutive_witness :
  exists s', create_objects 3 empty = Done (seqZ (next_id empty) (Z.of_nat 3), s') /\
    next_id s' = next_id empty + Z.of_nat 3.
Proof. apply (v1_creates_consecutive 3 empty). by vm_compute. Defined.

End V1Facts.

(** ** The vector of v2 *)

Module V2Facts.
Import Cxx CxxFacts Sem SemFacts v2.

Ltac run_monad :=
  unfold bind, ret, fail, table_at, load_id, store_id, free_list_empty,
    free_list_back, free_list_pop_back, free_list_push_back,
    object_table_size, object_table_push_back in *.

(** The position an [int] id that is not negative indexes. *)
Lemma v2_table_at_id h s :
  0 <= h < 2 ^ 31 ->
  table_at (to_size_t h) s =
  if decide (h < Z.of_nat (length (object_table s))) then Done (Z.to_nat h, s)
  else Fault OutOfBounds.
Proof. intros Hh. by rewrite to_size_t_id by lia. Qed.

Lemma v2_get_object_lookup h s :
  0 <= h < 2 ^ 31 ->
  get_object h s =
  match object_table s !! Z.to_nat h with
  | Some o => Done (if decide (id o = -1) then None else Some (Z.to_nat h), s)
  | None => Fault OutOfBounds
  end.
Proof.
  intros Hh. unfold get_object, bind at 1. rewrite v2_table_at_id by done.
  destruct (object_table s !! Z.to_nat h) as [o|] eqn:Ho.
  - apply lookup_lt_Some in Ho as Hlt. rewrite decide_True by lia. cbv beta iota.
    unfold bind at 1, load_id. rewrite Ho. cbv beta iota. case_decide; [done|].
    unfold bind, ret. rewrite v2_table_at_id by done. by rewrite decide_True by lia.
  - apply lookup_ge_None in Ho. by rewrite decide_False by lia.
Qed.

Lemma v2_destroy_object_lookup h s :
  0 <= h < 2 ^ 31 ->
  destroy_object h s =
  match object_table s !! Z.to_nat h with
  | Some _ =>
      Done (tt, Table (<[Z.to_nat h := Object (-1)]> (object_table s)) (free_list s ++ [h]))
  | None => Fault OutOfBounds
  end.
Proof.
  intros Hh. unfold destroy_object, bind at 1. rewrite v2_table_at_id by done.
  destruct (object_table s !! Z.to_nat h) as [o|] eqn:Ho.
  - apply lookup_lt_Some in Ho as Hlt. rewrite decide_True by lia. cbv beta iota.
    run_monad. by rewrite Ho.
  - apply lookup_ge_None in Ho. by rewrite decide_False by lia.
Qed.

Lemma v2_create_object_reuse s fl f :
  free_list s = fl ++ [f] -> 0 <= f < 2 ^ 31 ->
  create_object s =
  match object_table s !! Z.to_nat f with
  | Some _ => Done (f, Table (<[Z.to_nat f := Object f]> (object_table s)) fl)
  | None => Fault OutOfBounds
  end.
Proof.
  intros Hfl Hf. unfold create_object, bind at 1, free_list_empty.
  rewrite bool_decide_eq_false_2
    by (rewrite Hfl; intros Hnil; by apply app_nil in Hnil as [_ ?]).
  cbn [negb]. cbv beta iota. unfold bind at 1, free_list_back. rewrite Hfl, last_snoc.
  cbv beta iota. unfold bind at 1, free_list_pop_back. rewrite Hfl.
  destruct (fl ++ [f]) eqn:Hnil.
  { by apply app_nil in Hnil as [_ ?]. }
  rewrite <- Hnil, removelast_last. cbv beta iota.
  unfold bind at 1. rewrite v2_table_at_id by done.
  cbn [object_table].
  destruct (object_table s !! Z.to_nat f) as [o|] eqn:Ho.
  - apply lookup_lt_Some in Ho as Hlt. rewrite decide_True by lia. cbv beta iota.
    run_monad. cbn [object_table free_list]. by rewrite Ho.
  - apply lookup_ge_None in Ho. by rewrite decide_False by lia.
Qed.

Lemma v2_create_object_fresh s :
  free_list s = [] ->
  create_object s =
  Done (to_int (Z.of_nat (length (object_table s))),
        Table (object_table s ++ [Object (to_int (Z.of_nat (length (object_table s))))]) []).
Proof.
  intros Hfl. unfold create_object, bind at 1, free_list_empty.
  rewrite bool_decide_eq_true_2 by done. cbn [negb]. run_monad. by rewrite Hfl.
Qed.

(** v2.  An id is recycled as it is: when [get_object(h)] finds an object,
    [destroy_object(h)] makes [get_object(h)] return [nullptr], but the next
    [create_object] returns [h] again, and [get_object(h)] then finds the
    new object at the same place: the old id cannot be told from the new. *)
Theorem v2_recycled_id_aliases h s p :
  0 <= h < 2 ^ 31 -> get_object h s = Done (Some p, s) ->
  exists s1 s2,
    destroy_object h s = Done (tt, s1) /\
    get_object h s1 = Done (None, s1) /\
    create_object s1 = Done (h, s2) /\
    get_object h s2 = Done (Some p, s2) /\
    object_table s2 !! p = Some (Object h) /\
    free_list s2 = free_list s.
Proof.
  intros Hh. rewrite v2_get_object_lookup by done.
  destruct (object_table s !! Z.to_nat h) as [o|] eqn:Ho; [|done].
  case_decide as Hid; [done|]. intros [[= <-] _]%Done_inj.
  apply lookup_lt_Some in Ho as Hlt.
  eexists _, _. split; [by rewrite v2_destroy_object_lookup, Ho by done|].
  split; [|split].
  - rewrite v2_get_object_lookup by done. cbn [object_table].
    rewrite list_lookup_insert_eq by done. by rewrite decide_True.
  - rewrite (v2_create_object_reuse _ (free_list s) h) by done. cbn [object_table].
    by rewrite list_lookup_insert_eq by done.
  - rewrite v2_get_object_lookup by done. cbn [object_table free_list].
    rewrite list_insert_insert_eq, list_lookup_insert_eq by done. cbn [id].
    by rewrite decide_False by lia.
Qed.

Lemma v2_recycled_id_aliases_witness :
  exists s1 s2,
    destroy_object 0 (Table [Object 0] []) = Done (tt, s1) /\
    get_object 0 s1 = Done (None, s1) /\
    create_object s1 = Done (0, s2) /\
    get_object 0 s2 = Done (Some 0%nat, s2) /\
    object_table s2 !! 0%nat = Some (Object 0) /\
    free_list s2 = free_list (Table [Object 0] []).
Proof.
  apply (v2_recycled_id_aliases 0 (Table [Object 0] []) 0%nat).
  - lia.
  - reflexivity.
Defined.

(** v2.  [destroy_object] checks nothing: destroying an id twice puts it on
    the free list twice, and the next two calls of [create_object] both
    return it, for one and the same object. *)
Theorem v2_double_destroy_duplicates h s p :
  0 <= h < 2 ^ 31 -> get_object h s = Done (Some p, s) ->
  exists s1 s2 s3 s4,
    destroy_object h s = Done (tt, s1) /\
    destroy_object h s1 = Done (tt, s2) /\
    create_object s2 = Done (h, s3) /\
    create_object s3 = Done (h, s4) /\
    get_object h s4 = Done (Some p, s4) /\
    free_list s4 = free_list s.
Proof.
  intros Hh. rewrite v2_get_object_lookup by done.
  destruct (object_table s !! Z.to_nat h) as [o|] eqn:Ho; [|done].
  case_decide as Hid; [done|]. intros [[= <-] _]%Done_inj.
  apply lookup_lt_Some in Ho as Hlt.
  eexists _, _, _, _. split; [by rewrite v2_destroy_object_lookup, Ho by done|].
  split; [|split; [|split; [|split]]].
  - rewrite v2_destroy_object_lookup by done. cbn [object_table free_list].
    by rewrite list_lookup_insert_eq by done.
  - rewrite (v2_create_object_reuse _ (free_list s ++ [h]) h) by done. cbn [object_table].
    by rewrite list_lookup_insert_eq by (by rewrite length_insert).
  - rewrite (v2_create_object_reuse _ (free_list s) h) by done. cbn [object_table].
    by rewrite list_lookup_insert_eq by (by rewrite !length_insert).
  - rewrite v2_get_object_lookup by done. cbn [object_table].
    rewrite list_lookup_insert_eq by (by rewrite !length_insert). cbn [id].
    by rewrite decide_False by lia.
  - done.
Qed.

Lemma v2_double_destroy_duplicates_witness :
  exists s1 s2 s3 s4,
    destroy_object 0 (Table [Object 0] []) = Done (tt, s1) /\
    destroy_object 0 s1 = Done (tt, s2) /\
    create_object s2 = Done (0, s3) /\
    create_object s3 = Done (0, s4) /\
    get_object 0 s4 = Done (Some 0%nat, s4) /\
    free_list s4 = free_list (Table [Object 0] []).
Proof.
  apply (v2_double_destroy_duplicates 0 (Table [Object 0] []) 0%nat).
  - lia.
  - reflexivity.
Defined.

(** v2.  With fewer than [2 ^ 31] objects in the vector and a free list of
    positions of the vector, [create_object] returns an id that
    [get_object] finds, in an object that holds it; the vector never
    shrinks and its other objects are untouched. *)
Theorem v2_create_then_get s h s' :
  Z.of_nat (length (object_table s)) < 2 ^ 31 ->
  Forall (fun f => 0 <= f < Z.of_nat (length (object_table s))) (free_list s) ->
  create_object s = Done (h, s') ->
  0 <= h /\
  get_object h s' = Done (Some (Z.to_nat h), s') /\
  object_table s' !! Z.to_nat h = Some (Object h) /\
  (forall i o, i <> Z.to_nat h -> object_table s !! i = Some o ->
     object_table s' !! i = Some o).
Proof.
  intros Hlen Hfl.
  destruct (last (free_list s)) as [f|] eqn:Hlast.
  - apply last_Some in Hlast as [fl Hfree].
    rewrite Hfree, Forall_app, Forall_singleton in Hfl. destruct Hfl as [_ Hf].
    rewrite (v2_create_object_reuse s fl f Hfree) by lia.
    destruct (lookup_lt_is_Some_2 (object_table s) (Z.to_nat f)) as [o Ho]; [lia|].
    rewrite Ho. intros [<- <-]%Done_inj. split; [lia|].
    rewrite v2_get_object_lookup by lia. cbn [object_table].
    rewrite list_lookup_insert_eq by lia. cbn [id].
    rewrite decide_False by lia. split; [done|]. split; [done|].
    intros i o' Hi Ho'. by rewrite list_lookup_insert_ne.
  - apply last_None in Hlast. rewrite v2_create_object_fresh by done.
    intros [<- <-]%Done_inj.
    rewrite to_int_id by (unfold is_int; lia). split; [lia|].
    rewrite v2_get_object_lookup by lia. cbn [object_table].
    rewrite Nat2Z.id, list_lookup_middle by done. cbn [id].
    rewrite decide_False by lia. split; [done|]. split; [done|].
    intros i o' Hi Ho'. by apply lookup_app_l_Some.
Qed.

Lemma v2_create_then_get_witness :
  0 <= 0 /\
  get_object 0 (Table [Object 0] []) = Done (Some (Z.to_nat 0), Table [Object 0] []) /\
  object_table (Table [Object 0] []) !! Z.to_nat 0 = Some (Object 0) /\
  (forall i o, i <> Z.to_nat 0 -> object_table empty !! i = Some o ->
     object_table (Table [Object 0] []) !! i = Some o).
Proof.
  apply (v2_create_then_get empty 0 (Table [Object 0] [])).
  - by vm_compute.
  - constructor.
  - reflexivity.
Defined.

(** *** A round of the test program *)

(** One creation when there is room. *)
Lemma v2_create_object_step s :
  wf s -> 1 <= room s ->
  exists h s', create_object s = Done (h, s') /\ wf s' /\ room s' = room s - 1 /\
    0 <= h /\ object_table s' !! Z.to_nat h = Some (Object h) /\
    (forall i o, i <> Z.to_nat h -> object_table s !! i = Some o ->
       object_table s' !! i = Some o).
Proof.
  intros [Hlen Hfl] Hroom. unfold room in Hroom.
  destruct (last (free_list s)) as [f|] eqn:Hlast.
  - apply last_Some in Hlast as [fl Hfree].
    rewrite Hfree, Forall_app, Forall_singleton in Hfl. destruct Hfl as [Hfl Hf].
    destruct (lookup_lt_is_Some_2 (object_table s) (Z.to_nat f)) as [o Ho]; [lia|].
    eexists f, _. rewrite (v2_create_object_reuse s fl f Hfree), Ho by lia.
    split; [done|]. split; [|split; [|split; [lia|split]]].
    + split; cbn [object_table free_list]; by rewrite length_insert.
    + unfold room. cbn [object_table free_list].
      rewrite Hfree, length_app, length_insert. cbn [length]. lia.
    + cbn [object_table]. apply list_lookup_insert_eq. lia.
    + intros i o' Hi Ho'. cbn [object_table]. by rewrite list_lookup_insert_ne.
  - apply last_None in Hlast. rewrite Hlast in Hroom. cbn [length] in Hroom.
    eexists _, _. rewrite v2_create_object_fresh by done.
    rewrite to_int_id by (unfold is_int; lia).
    split; [done|]. split; [|split; [|split; [lia|split]]].
    + split; cbn [object_table free_list]; [|constructor]. rewrite length_app. cbn [length]. lia.
    + unfold room. cbn [object_table free_list].
      rewrite Hlast, length_app. cbn [length]. lia.
    + cbn [object_table]. rewrite Nat2Z.id. by apply list_lookup_middle.
    + intros i o' Hi Ho'. cbn [object_table]. by apply lookup_app_l_Some.
Qed.

(** Creations in a row, as far as there is room.  An id may be returned
    twice, when it is twice on the free list; every id returned is that of
    an object holding it. *)
Lemma v2_creates_ok n s :
  wf s -> Z.of_nat n <= room s ->
  exists hs s', create_objects n s = Done (hs, s') /\ length hs = n /\
    wf s' /\ room s' = room s - Z.of_nat n /\
    (forall h, h ∈ hs -> 0 <= h /\ object_table s' !! Z.to_nat h = Some (Object h)) /\
    (forall h, 0 <= h -> object_table s !! Z.to_nat h = Some (Object h) ->
       object_table s' !! Z.to_nat h = Some (Object h)).
Proof.
  revert s. induction n as [|n IH]; intros s Hwf Hroom.
  - exists [], s. split; [done|]. split; [done|]. split; [done|]. split; [lia|].
    split; [|done]. intros h Hin. by apply elem_of_nil in Hin.
  - destruct (v2_create_object_step s Hwf) as (h & s1 & Hc & Hwf1 & Hr1 & Hh & Hslot & Hold);
      [lia|].
    destruct (IH s1 Hwf1) as (hs & s' & Hcs & Hlen & Hwf' & Hr & Hhs & Hkeep); [lia|].
    exists (h :: hs), s'. unfold create_objects in *. cbn [creates]. unfold bind, ret.
    rewrite Hc, Hcs. split; [done|]. split; [by cbn [length]; rewrite Hlen|].
    split; [done|]. split; [lia|]. split.
    + intros h' [->|Hin]%elem_of_cons; [|by apply Hhs]. split; [done|]. by apply Hkeep.
    + intros h' Hh' Hslot'. apply Hkeep; [done|].
      destruct (decide (Z.to_nat h' = Z.to_nat h)) as [Heq|Hne].
      * assert (h' = h) as -> by lia. done.
      * by apply Hold.
Qed.

(** Destructions in a row of ids that are positions of the vector. *)
Lemma v2_destroys_ok hs s :
  wf s -> (forall h, h ∈ hs -> 0 <= h < Z.of_nat (length (object_table s))) ->
  exists s', destroy_objects hs s = Done (tt, s') /\
    wf s' /\ room s' = room s + Z.of_nat (length hs) /\
    (forall h, h ∈ hs -> object_table s' !! Z.to_nat h = Some (Object (-1))) /\
    (forall i, object_table s !! i = Some (Object (-1)) ->
       object_table s' !! i = Some (Object (-1))).
Proof.
  unfold destroy_objects. revert s. induction hs as [|h hs IH]; intros s Hwf Hin.
  - exists s. split; [done|]. split; [done|]. split; [cbn [length]; lia|].
    split; [|done]. intros h Hh. by apply elem_of_nil in Hh.
  - destruct Hwf as [Hlen Hfl]. destruct (Hin h) as [Hh0 Hh1]; [by left|].
    destruct (lookup_lt_is_Some_2 (object_table s) (Z.to_nat h)) as [o Ho]; [lia|].
    set (s1 := Table (<[Z.to_nat h := Object (-1)]> (object_table s)) (free_list s ++ [h])).
    assert (destroy_object h s = Done (tt, s1)) as Hd.
    { by rewrite v2_destroy_object_lookup, Ho by lia. }
    destruct (IH s1) as (s' & Hds & Hwf' & Hr & Hhs & Hkeep).
    { split; cbn [s1 object_table free_list]; rewrite length_insert; [done|].
      rewrite Forall_app, Forall_singleton. done. }
    { intros h' Hh'. cbn [s1 object_table]. rewrite length_insert. apply Hin. by right. }
    exists s'. cbn [destroys]. unfold bind. rewrite Hd.
    split; [done|]. split; [done|]. split; [|split].
    + rewrite Hr. unfold room. cbn [s1 object_table free_list length].
      rewrite length_insert, length_app. cbn [length]. lia.
    + intros h' [->|Hh']%elem_of_cons; [|by apply Hhs].
      apply Hkeep. cbn [s1 object_table]. apply list_lookup_insert_eq. lia.
    + intros i Hi. apply Hkeep. cbn [s1 object_table].
      destruct (decide (i = Z.to_nat h)) as [->|Hne].
      * apply list_lookup_insert_eq. lia.
      * by rewrite list_lookup_insert_ne.
Qed.

Lemma v2_round n s :
  wf s -> Z.of_nat n <= room s ->
  exists hs s1 s2,
    create_objects n s = Done (hs, s1) /\ length hs = n /\
    (forall h, h ∈ hs -> test.found2 s1 h) /\
    destroy_objects hs s1 = Done (tt, s2) /\
    (forall h, h ∈ hs -> test.gone2 s2 h) /\
    wf s2 /\ room s2 = room s.
Proof.
  intros Hwf Hroom.
  destruct (v2_creates_ok n s Hwf Hroom) as (hs & s1 & Hcs & Hlen & Hwf1 & Hr1 & Hhs & _).
  assert (forall h, h ∈ hs -> 0 <= h < Z.of_nat (length (object_table s1))) as Hrange.
  { intros h Hin. destruct (Hhs _ Hin) as [Hh Hslot]. apply lookup_lt_Some in Hslot. lia. }
  destruct (v2_destroys_ok hs s1 Hwf1 Hrange) as (s2 & Hds & Hwf2 & Hr2 & Hgone & _).
  pose proof Hwf1 as [Hcap _].
  exists hs, s1, s2. split; [done|]. split; [done|]. split; [|split; [done|split; [|split]]].
  - intros h Hin. destruct (Hhs _ Hin) as [Hh Hslot]. specialize (Hrange _ Hin).
    exists (Z.to_nat h). rewrite v2_get_object_lookup, Hslot by lia. cbn [id].
    by rewrite decide_False by lia.
  - intros h Hin. specialize (Hrange _ Hin). unfold test.gone2.
    rewrite v2_get_object_lookup, (Hgone _ Hin) by lia. done.
  - done.
  - lia.
Qed.

(** v2.  One round of the test program on the vector.  From a table whose
    free list holds positions of the vector, with room for [n] objects:
    [n] calls of [create_object] return; [get_object] then finds every id
    returned, in an object that holds it; destroying the ids one after the
    other returns, and afterwards [get_object] of each of them is
    [nullptr]; the table is again as required, with the room it had.  The
    free list may hold a position twice. *)
Theorem v2_test_round n s :
  wf s -> Z.of_nat n <= room s ->
  exists hs s1 s2,
    create_objects n s = Done (hs, s1) /\ length hs = n /\
    (forall h, h ∈ hs -> test.found2 s1 h) /\
    destroy_objects hs s1 = Done (tt, s2) /\
    (forall h, h ∈ hs -> test.gone2 s2 h) /\
    wf s2 /\ room s2 = room s.
Proof. apply v2_round. Qed.

Lemma v2_test_round_witness :
  exists hs s1 s2,
    create_objects 2 empty = Done (hs, s1) /\ length hs = 2%nat /\
    (forall h, h ∈ hs -> test.found2 s1 h) /\
    destroy_objects hs s1 = Done (tt, s2) /\
    (forall h, h ∈ hs -> test.gone2 s2 h) /\
    wf s2 /\ room s2 = room empty.
Proof.
  apply (v2_test_round 2 empty).
  - split; [by vm_compute|constructor].
  - by vm_compute.
Defined.

(** v2.  Neither [get_object] nor [destroy_object] checks the id: for an
    [int] that is negative (as a [size_t] index it is at least
    [2 ^ 64 - 2 ^ 31]) or not below the size of the vector, both index the
    vector out of bounds. *)
Theorem v2_id_out_of_range_undefined h s :
  Z.of_nat (length (object_table s)) <= 2 ^ 31 -> is_int h ->
  h < 0 \/ Z.of_nat (length (object_table s)) <= h ->
  get_object h s = Fault OutOfBounds /\ destroy_object h s = Fault OutOfBounds.
Proof.
  intros Hlen Hint Hout. unfold is_int in Hint.
  assert (table_at (to_size_t h) s = Fault OutOfBounds) as Hat.
  { unfold table_at. rewrite decide_False; [done|].
    destruct (decide (h < 0)) as [Hneg|Hpos].
    - unfold to_size_t.
      rewrite <- (Z.mod_unique (h) (2 ^ 64) (-1) (h + 2 ^ 64)) by lia. lia.
    - rewrite to_size_t_id by lia. lia. }
  unfold get_object, destroy_object, bind. by rewrite Hat.
Qed.

Lemma v2_id_out_of_range_undefined_witness :
  get_object (-1) empty = Fault OutOfBounds /\ destroy_object (-1) empty = Fault OutOfBounds.
Proof.
  apply (v2_id_out_of_range_undefined (-1) empty).
  - by vm_compute.
  - by vm_compute.
  - left. lia.
Defined.

End V2Facts.

(** ** The chunks of v3 *)

Module V3Facts.
Import Cxx CxxFacts Sem SemFacts v3.

Ltac run_monad :=
  unfold bind, ret, fail, table_at, load_id, store_id, free_list_empty,
    free_list_back, free_list_pop_back, free_list_push_back,
    object_table_size, object_table_push_back in *.

Lemma v3_chunk_size_pos : 0 < chunk_size.
Proof. reflexivity. Qed.

Lemma v3_locate_chunk c o :
  0 <= c -> 0 <= o < chunk_size ->
  locate (chunk_size * c + o) = Pointer (Z.to_nat c) (Z.to_nat o).
Proof.
  intros Hc Ho. unfold locate, element.
  assert ((chunk_size * c + o) / chunk_size = c) as ->
    by (symmetry; apply (Z.div_unique _ _ _ o); lia).
  assert ((chunk_size * c + o) mod chunk_size = o) as ->
    by (symmetry; apply (Z.mod_unique _ _ c); lia).
  done.
Qed.

Lemma v3_locate_first n : locate (chunk_size * Z.of_nat n) = Pointer n 0.
Proof.
  rewrite <- (Z.add_0_r (chunk_size * _)), v3_locate_chunk by (done || lia).
  by rewrite Nat2Z.id.
Qed.

Lemma v3_deref_beyond s k :
  0 <= k -> chunk_size * Z.of_nat (length (object_table s)) <= k ->
  deref s (locate k) = None.
Proof.
  intros Hk Hge. unfold deref, locate, element. cbn [chunk_of].
  rewrite (lookup_ge_None_2 (object_table s)); [done|].
  pose proof v3_chunk_size_pos.
  assert (Z.of_nat (length (object_table s)) <= k / chunk_size)
    by (apply Z.div_le_lower_bound; lia).
  lia.
Qed.

Lemma v3_deref_allocated s k o :
  0 <= k -> deref s (locate k) = Some o ->
  k / chunk_size < Z.of_nat (length (object_table s)).
Proof.
  intros Hk Ho. unfold deref, locate, element in Ho. cbn [chunk_of] in Ho.
  apply bind_Some in Ho as (chunk & Hc & _). apply lookup_lt_Some in Hc.
  pose proof (Z.div_pos k chunk_size Hk v3_chunk_size_pos). lia.
Qed.

Lemma v3_deref_assign s p q v fl :
  is_Some (deref s p) ->
  deref (Table (assign s p v) fl) q =
  if decide (q = p) then Some (Object (Some v)) else deref s q.
Proof.
  destruct p as [c o], q as [c' o']. unfold deref, assign. simpl.
  intros [x Hx]. apply bind_Some in Hx as (chunk & Hc & Ho).
  destruct (decide (c' = c)) as [->|Hc'].
  - rewrite list_lookup_alter_eq, Hc. simpl.
    destruct (decide (o' = o)) as [->|Ho'].
    + rewrite decide_True by done.
      apply list_lookup_insert_eq. by eapply lookup_lt_Some.
    + rewrite decide_False by congruence. by apply list_lookup_insert_ne.
  - rewrite list_lookup_alter_ne by done. rewrite decide_False by congruence. done.
Qed.

Lemma v3_get_object_deref h s :
  0 <= h < 2 ^ 31 ->
  get_object h s =
  match deref s (locate h) with
  | Some (Object (Some v)) => Done (if decide (v = -1) then None else Some (locate h), s)
  | Some (Object None) => Fault IndeterminateValue
  | None => Fault OutOfBounds
  end.
Proof.
  intros Hh. unfold get_object. rewrite to_size_t_id by lia. fold (locate h).
  unfold bind at 1, table_at.
  destruct (deref s (locate h)) as [[[v|]]|] eqn:Hd.
  - rewrite decide_True by (eapply v3_deref_allocated; [lia|done]). cbv beta iota.
    run_monad. unfold locate in *. by rewrite Hd.
  - rewrite decide_True by (eapply v3_deref_allocated; [lia|done]). cbv beta iota.
    run_monad. unfold locate in *. by rewrite Hd.
  - case_decide; [|done]. cbv beta iota. run_monad.
    unfold locate in Hd. by rewrite Hd.
Qed.

Lemma v3_destroy_object_deref h s :
  0 <= h < 2 ^ 31 ->
  destroy_object h s =
  match deref s (locate h) with
  | Some (Object (Some v)) =>
      if decide (v = -1) then Fault NullDereference
      else Done (tt, Table (assign s (locate h) (-1)) (free_list s ++ [h]))
  | Some (Object None) => Fault IndeterminateValue
  | None => Fault OutOfBounds
  end.
Proof.
  intros Hh. unfold destroy_object, bind at 1. rewrite v3_get_object_deref by done.
  destruct (deref s (locate h)) as [[[v|]]|] eqn:Hd; [|done..].
  case_decide; [done|]. cbv beta iota. run_monad. by rewrite Hd.
Qed.

(** The second half of [create_object], from [free_list.back()] on. *)
Lemma v3_take_free_deref s fl f :
  free_list s = fl ++ [f] -> 0 <= f < 2 ^ 31 ->
  (let+ free := free_list_back in
   do+ free_list_pop_back in
   let+ c := table_at (to_size_t free / chunk_size) in
   do+ store_id (element c (to_size_t free mod chunk_size)) free in
   ret free) s =
  match deref s (locate f) with
  | Some _ => Done (f, Table (assign s (locate f) f) fl)
  | None => Fault OutOfBounds
  end.
Proof.
  intros Hfl Hf. unfold bind at 1, free_list_back. rewrite Hfl, last_snoc.
  cbv beta iota. unfold bind at 1, free_list_pop_back. rewrite Hfl.
  destruct (fl ++ [f]) eqn:Hnil.
  { by apply app_nil in Hnil as [_ ?]. }
  rewrite <- Hnil, removelast_last, to_size_t_id by lia. cbv beta iota.
  fold (locate f). unfold bind at 1, table_at. cbn [object_table].
  assert (deref (Table (object_table s) fl) (locate f) = deref s (locate f)) as Hsame by done.
  destruct (deref s (locate f)) as [o|] eqn:Hd.
  - rewrite decide_True by (eapply v3_deref_allocated; [lia|done]). cbv beta iota.
    unfold bind, store_id, ret. fold (locate f). by rewrite Hsame.
  - case_decide; [|done]. cbv beta iota.
    unfold bind, store_id, ret. fold (locate f). by rewrite Hsame.
Qed.

Lemma v3_create_object_reuse s fl f :
  free_list s = fl ++ [f] -> 0 <= f < 2 ^ 31 ->
  create_object s =
  match deref s (locate f) with
  | Some _ => Done (f, Table (assign s (locate f) f) fl)
  | None => Fault OutOfBounds
  end.
Proof.
  intros Hfl Hf. rewrite <- (v3_take_free_deref s fl f Hfl Hf).
  unfold create_object, bind at 1, free_list_empty.
  rewrite bool_decide_eq_false_2
    by (rewrite Hfl; intros Hnil; by apply app_nil in Hnil as [_ ?]).
  cbv beta iota. unfold bind at 1, ret. done.
Qed.

Lemma v3_push_chunk_run n s :
  push_chunk n s =
  Done (tt, Table (object_table s)
              (free_list s ++ (fresh_number s <$> reverse (seqZ 0 (Z.of_nat n))))).
Proof.
  revert s. induction n as [|n IH]; intros s.
  - cbn [push_chunk]. unfold ret. change (Z.of_nat 0) with 0.
    cbn [seqZ]. rewrite app_nil_r. by destruct s.
  - cbn [push_chunk]. run_monad. rewrite IH. cbn [object_table free_list].
    rewrite seqZ_S, reverse_snoc, fmap_cons, <- app_assoc. done.
Qed.

Lemma v3_seqZ_chunk_back :
  reverse (seqZ 0 chunk_size) = reverse (seqZ 1 (chunk_size - 1)) ++ [0].
Proof. rewrite (seqZ_cons 0 chunk_size) by done. by rewrite reverse_cons. Qed.

Lemma v3_create_object_grow s :
  free_list s = [] -> Z.of_nat (length (object_table s)) < 2 ^ 23 ->
  let base := chunk_size * Z.of_nat (length (object_table s)) in
  create_object s =
  Done (base,
        Table (object_table s ++ [<[0%nat := Object (Some base)]> new_chunk])
              (Z.add base <$> reverse (seqZ 1 (chunk_size - 1)))).
Proof.
  intros Hfl Hc base.
  assert (0 <= base < 2 ^ 31) as Hbase by (unfold base, chunk_size; lia).
  unfold create_object, bind at 1, free_list_empty.
  rewrite bool_decide_eq_true_2 by done. cbv beta iota.
  unfold bind at 1, bind at 1.
  change (Z.to_nat (to_int (to_size_t (chunk_size - 1))) + 1)%nat
    with (Z.to_nat chunk_size).
  rewrite v3_push_chunk_run. unfold object_table_push_back. cbn [object_table free_list].
  rewrite Hfl, app_nil_l, Z2Nat.id, v3_seqZ_chunk_back, fmap_app by done.
  cbn [fmap list_fmap].
  assert (fresh_number s 0 = base) as ->.
  { unfold fresh_number, base. rewrite to_size_t_id by (unfold chunk_size; lia).
    rewrite to_int_id by (unfold is_int, chunk_size; lia). lia. }
  assert (locate base = Pointer (length (object_table s)) 0) as Hloc.
  { unfold base. rewrite <- (Z.add_0_r (chunk_size * _)), v3_locate_chunk by (done || lia).
    by rewrite Nat2Z.id. }
  rewrite (v3_take_free_deref _ (fresh_number s <$> reverse (seqZ 1 (chunk_size - 1))) base)
    by done.
  rewrite Hloc. unfold deref, assign. cbn [chunk_of offset_of object_table].
  rewrite list_lookup_middle by done.
  change ([new_chunk] ++ []) with [new_chunk].
  assert (forall (f : list object -> list object),
    alter f (length (object_table s)) (object_table s ++ [new_chunk]) =
    object_table s ++ [f new_chunk]) as Halter.
  { intros f. rewrite <- (Nat.add_0_r (length (object_table s))) at 1.
    by rewrite alter_app_r. }
  rewrite Halter. cbn -[new_chunk seqZ chunk_size].
  do 3 f_equal.
  apply list_fmap_ext. intros i x Hx%list_elem_of_lookup_2.
  rewrite elem_of_reverse, elem_of_seqZ in Hx. unfold fresh_number, base.
  rewrite to_size_t_id by (unfold chunk_size in *; lia).
  rewrite to_int_id by (unfold is_int, chunk_size in *; lia). lia.
Qed.

(** v3.  The recycling bug: when [get_object(h)] finds an object,
    [destroy_object(h)] makes [get_object(h)] return [nullptr], but the next
    [create_object] takes the same slot and returns the same id [h], so that
    [get_object(h)] finds the new object through the old id. *)
Theorem v3_recycled_id_aliases h s p :
  0 <= h < 2 ^ 31 -> get_object h s = Done (Some p, s) ->
  exists s1 s2,
    destroy_object h s = Done (tt, s1) /\
    get_object h s1 = Done (None, s1) /\
    create_object s1 = Done (h, s2) /\
    get_object h s2 = Done (Some p, s2) /\
    deref s2 p = Some (Object (Some h)) /\
    free_list s2 = free_list s.
Proof.
  intros Hh. rewrite v3_get_object_deref by done.
  destruct (deref s (locate h)) as [[[v|]]|] eqn:Hd; [|done..].
  case_decide as Hv; [done|]. intros [[= <-] _]%Done_inj.
  assert (is_Some (deref s (locate h))) as Hsome by (by rewrite Hd).
  set (s1 := Table (assign s (locate h) (-1)) (free_list s ++ [h])).
  assert (deref s1 (locate h) = Some (Object (Some (-1)))) as Hd1.
  { unfold s1. rewrite v3_deref_assign by done. by rewrite decide_True. }
  assert (is_Some (deref s1 (locate h))) as Hsome1 by (by rewrite Hd1).
  exists s1, (Table (assign s1 (locate h) h) (free_list s)).
  split; [|split; [|split; [|split; [|split]]]].
  - rewrite v3_destroy_object_deref, Hd by done. by rewrite decide_False.
  - rewrite v3_get_object_deref, Hd1 by done. by rewrite decide_True.
  - by rewrite (v3_create_object_reuse s1 (free_list s) h), Hd1.
  - rewrite v3_get_object_deref, v3_deref_assign by done. rewrite decide_True by done.
    by rewrite decide_False by lia.
  - rewrite v3_deref_assign by done. by rewrite decide_True.
  - done.
Qed.

Lemma v3_recycled_id_aliases_witness :
  exists s1 s2,
    destroy_object 0 (Table [[Object (Some 0)]] []) = Done (tt, s1) /\
    get_object 0 s1 = Done (None, s1) /\
    create_object s1 = Done (0, s2) /\
    get_object 0 s2 = Done (Some (Pointer 0 0), s2) /\
    deref s2 (Pointer 0 0) = Some (Object (Some 0)) /\
    free_list s2 = free_list (Table [[Object (Some 0)]] []).
Proof.
  apply (v3_recycled_id_aliases 0 (Table [[Object (Some 0)]] []) (Pointer 0 0)).
  - lia.
  - reflexivity.
Defined.

(** v3.  Destroying an id twice: the first [destroy_object(h)] writes -1 to
    the object, so in the second [get_object(h)] returns [nullptr], through
    which [destroy_object] then assigns. *)
Theorem v3_destroy_twice_dereferences_null h s p :
  0 <= h < 2 ^ 31 -> get_object h s = Done (Some p, s) ->
  exists s1,
    destroy_object h s = Done (tt, s1) /\
    destroy_object h s1 = Fault NullDereference.
Proof.
  intros Hh. rewrite v3_get_object_deref by done.
  destruct (deref s (locate h)) as [[[v|]]|] eqn:Hd; [|done..].
  case_decide as Hv; [done|]. intros _.
  assert (is_Some (deref s (locate h))) as Hsome by (by rewrite Hd).
  eexists. split.
  - rewrite v3_destroy_object_deref, Hd by done. by rewrite decide_False.
  - rewrite v3_destroy_object_deref, v3_deref_assign by done.
    rewrite decide_True by done. by rewrite decide_True.
Qed.

Lemma v3_destroy_twice_dereferences_null_witness :
  exists s1,
    destroy_object 0 (Table [[Object (Some 0)]] []) = Done (tt, s1) /\
    destroy_object 0 s1 = Fault NullDereference.
Proof.
  apply (v3_destroy_twice_dereferences_null 0 (Table [[Object (Some 0)]] []) (Pointer 0 0)).
  - lia.
  - reflexivity.
Defined.

(** v3.  With fewer than [2 ^ 23] chunks and a free list of numbers of
    allocated slots, [create_object] returns an id that [get_object] finds,
    in an object that holds it. *)
Theorem v3_create_then_get s h s' :
  Z.of_nat (length (object_table s)) < 2 ^ 23 ->
  Forall (fun f => 0 <= f < 2 ^ 31 /\ is_Some (deref s (locate f))) (free_list s) ->
  create_object s = Done (h, s') ->
  0 <= h < 2 ^ 31 /\
  get_object h s' = Done (Some (locate h), s') /\
  deref s' (locate h) = Some (Object (Some h)).
Proof.
  intros Hlen Hfl.
  assert (forall t : table, 0 <= h < 2 ^ 31 ->
    deref t (locate h) = Some (Object (Some h)) ->
    0 <= h < 2 ^ 31 /\ get_object h t = Done (Some (locate h), t) /\
    deref t (locate h) = Some (Object (Some h))) as Hfinish.
  { intros t Hh Hd. split; [done|]. split; [|done].
    rewrite v3_get_object_deref, Hd by done. by rewrite decide_False by lia. }
  destruct (last (free_list s)) as [f|] eqn:Hlast.
  - apply last_Some in Hlast as [fl Hfree].
    rewrite Hfree, Forall_app, Forall_singleton in Hfl. destruct Hfl as [_ [Hf Hsome]].
    rewrite (v3_create_object_reuse s fl f Hfree Hf).
    destruct (deref s (locate f)) as [o|] eqn:Hd; [|by destruct Hsome].
    intros [<- <-]%Done_inj. apply Hfinish; [done|].
    rewrite v3_deref_assign by (by rewrite Hd). by rewrite decide_True.
  - apply last_None in Hlast. rewrite v3_create_object_grow by done.
    intros [<- <-]%Done_inj.
    assert (0 <= chunk_size * Z.of_nat (length (object_table s)) < 2 ^ 31) as Hbase
      by (unfold chunk_size; lia).
    apply Hfinish; [done|].
    rewrite v3_locate_first. unfold deref. cbn [chunk_of offset_of object_table].
    rewrite list_lookup_middle by done. done.
Qed.

Lemma v3_create_then_get_witness :
  0 <= 0 < 2 ^ 31 /\
  get_object 0 (Table [<[0%nat := Object (Some 0)]> new_chunk]
                      (Z.add 0 <$> reverse (seqZ 1 (chunk_size - 1)))) =
    Done (Some (locate 0), Table [<[0%nat := Object (Some 0)]> new_chunk]
                                 (Z.add 0 <$> reverse (seqZ 1 (chunk_size - 1)))) /\
  deref (Table [<[0%nat := Object (Some 0)]> new_chunk]
               (Z.add 0 <$> reverse (seqZ 1 (chunk_size - 1)))) (locate 0) =
    Some (Object (Some 0)).
Proof.
  apply (v3_create_then_get empty 0).
  - by vm_compute.
  - constructor.
  - by vm_compute.
Defined.

(** v3.  The ids of a new chunk other than the one returned name objects
    whose [id] was never assigned: when [create_object] adds a chunk, it
    returns the number of the first slot of the chunk, and [get_object] of
    any other number of the chunk, before that slot has been created in,
    reads an indeterminate value. *)
Theorem v3_fresh_slots_indeterminate s o :
  free_list s = [] -> Z.of_nat (length (object_table s)) < 2 ^ 23 ->
  1 <= o < chunk_size ->
  exists s',
    create_object s = Done (chunk_size * Z.of_nat (length (object_table s)), s') /\
    get_object (chunk_size * Z.of_nat (length (object_table s)) + o) s' =
      Fault IndeterminateValue /\
    destroy_object (chunk_size * Z.of_nat (length (object_table s)) + o) s' =
      Fault IndeterminateValue.
Proof.
  intros Hfl Hlen Ho. eexists. split; [by apply v3_create_object_grow|].
  assert (0 <= chunk_size * Z.of_nat (length (object_table s)) + o < 2 ^ 31) as Hid
    by (unfold chunk_size in *; lia).
  assert (forall fl, deref (Table (object_table s ++
            [<[0%nat := Object (Some (chunk_size * Z.of_nat (length (object_table s))))]>
               new_chunk]) fl)
          (locate (chunk_size * Z.of_nat (length (object_table s)) + o)) =
          Some (Object None)) as Hd.
  { intros fl. rewrite v3_locate_chunk by lia. unfold deref.
    cbn [chunk_of offset_of object_table].
    rewrite Nat2Z.id, list_lookup_middle by done. cbn [mbind option_bind].
    rewrite list_lookup_insert_ne by lia.
    apply lookup_replicate_2. unfold chunk_size in *. lia. }
  split.
  - by rewrite v3_get_object_deref, Hd by done.
  - by rewrite v3_destroy_object_deref, Hd by done.
Qed.

Lemma v3_fresh_slots_indeterminate_witness :
  exists s',
    create_object empty = Done (chunk_size * Z.of_nat (length (object_table empty)), s') /\
    get_object (chunk_size * Z.of_nat (length (object_table empty)) + 5) s' =
      Fault IndeterminateValue /\
    destroy_object (chunk_size * Z.of_nat (length (object_table empty)) + 5) s' =
      Fault IndeterminateValue.
Proof.
  apply (v3_fresh_slots_indeterminate empty 5).
  - reflexivity.
  - by vm_compute.
  - by vm_compute.
Defined.

(** *** A round of the test program *)

Lemma v3_locate_inj k k' : 0 <= k -> 0 <= k' -> locate k = locate k' -> k = k'.
Proof.
  unfold locate, element. intros Hk Hk' [= Hc Ho].
  pose proof v3_chunk_size_pos.
  pose proof (Z.div_mod k chunk_size). pose proof (Z.div_mod k' chunk_size).
  pose proof (Z.mod_pos_bound k chunk_size). pose proof (Z.mod_pos_bound k' chunk_size).
  pose proof (Z.div_pos k chunk_size). pose proof (Z.div_pos k' chunk_size).
  assert (k / chunk_size = k' / chunk_size) by lia.
  assert (k mod chunk_size = k' mod chunk_size) by lia.
  lia.
Qed.

Lemma v3_deref_slots s k o : 0 <= k -> deref s (locate k) = Some o -> k < slots s.
Proof.
  intros Hk Ho. pose proof (v3_deref_allocated s k o Hk Ho) as Hlt.
  pose proof v3_chunk_size_pos.
  pose proof (Z.div_mod k chunk_size). pose proof (Z.mod_pos_bound k chunk_size).
  unfold slots. nia.
Qed.

Lemma v3_wf_deref s k : wf s -> 0 <= k < slots s -> is_Some (deref s (locate k)).
Proof.
  intros (_ & Hchunks & _) Hk. unfold slots in Hk.
  pose proof v3_chunk_size_pos.
  pose proof (Z.div_pos k chunk_size). pose proof (Z.mod_pos_bound k chunk_size).
  assert (k / chunk_size < Z.of_nat (length (object_table s)))
    by (apply Z.div_lt_upper_bound; lia).
  unfold deref, locate, element. cbn [chunk_of offset_of].
  destruct (lookup_lt_is_Some_2 (object_table s) (Z.to_nat (k / chunk_size)))
    as [chunk Hc]; [lia|].
  rewrite Hc. cbn [mbind option_bind].
  apply lookup_lt_is_Some_2. rewrite (Forall_lookup_1 _ _ _ _ Hchunks Hc). lia.
Qed.

Lemma v3_deref_at s f v fl k :
  0 <= f -> 0 <= k -> is_Some (deref s (locate f)) ->
  deref (Table (assign s (locate f) v) fl) (locate k) =
  if decide (k = f) then Some (Object (Some v)) else deref s (locate k).
Proof.
  intros Hf Hk Hsome. rewrite v3_deref_assign by done.
  destruct (decide (k = f)) as [->|Hne].
  - by rewrite decide_True.
  - rewrite decide_False; [done|]. intros Heq. by apply v3_locate_inj in Heq.
Qed.

Lemma v3_wf_assign s f v fl :
  wf s -> Forall (fun k => 0 <= k < slots s) fl -> NoDup fl ->
  wf (Table (assign s (locate f) v) fl).
Proof.
  intros (Hcap & Hchunks & _) Hfl Hnd. unfold wf, slots, assign.
  cbn [object_table free_list]. rewrite length_alter.
  split; [done|]. split; [|done].
  apply Forall_alter; [done|]. intros chunk _ Hlen. by rewrite length_insert.
Qed.

(** One creation when there is room. *)
Lemma v3_create_object_step s :
  wf s -> 1 <= room s ->
  exists h s', create_object s = Done (h, s') /\ wf s' /\ room s' = room s - 1 /\
    0 <= h < slots s' /\ (h ∉ free_list s') /\
    (h ∈ free_list s \/ slots s <= h) /\
    (forall k, k ∈ free_list s' -> k ∈ free_list s \/ slots s <= k) /\
    slots s <= slots s' /\
    deref s' (locate h) = Some (Object (Some h)) /\
    (forall k o, 0 <= k -> k <> h -> deref s (locate k) = Some o ->
       deref s' (locate k) = Some o).
Proof.
  intros Hwf Hroom. pose proof Hwf as (Hcap & Hchunks & Hfl & Hnd). unfold room in Hroom.
  assert (slots s <= 2 ^ 31) as Hslots by (unfold slots, chunk_size; lia).
  destruct (last (free_list s)) as [f|] eqn:Hlast.
  - apply last_Some in Hlast as [fl Hfree].
    rewrite Hfree, Forall_app, Forall_singleton in Hfl. destruct Hfl as [Hfl Hf].
    rewrite Hfree in Hnd. apply NoDup_app in Hnd as (Hnd & Hnotin & _).
    destruct (v3_wf_deref s f Hwf Hf) as [o Ho].
    eexists f, _. rewrite (v3_create_object_reuse s fl f Hfree), Ho by lia.
    split; [done|]. split; [by apply v3_wf_assign|].
    assert (slots (Table (assign s (locate f) f) fl) = slots s) as Hsame.
    { unfold slots, assign. cbn [object_table]. by rewrite length_alter. }
    rewrite Hsame. cbn [free_list]. split; [|split; [done|split; [|split; [|split]]]].
    + unfold room, assign. cbn [object_table free_list].
      rewrite Hfree, length_app, length_alter. cbn [length]. lia.
    + intros Hin. apply (Hnotin _ Hin). by apply list_elem_of_singleton.
    + left. rewrite Hfree. apply elem_of_app. right. by apply list_elem_of_singleton.
    + intros k Hk. left. rewrite Hfree. apply elem_of_app. by left.
    + split; [lia|]. split.
      * rewrite v3_deref_at by (lia || by rewrite Ho). by rewrite decide_True.
      * intros k o' Hk Hne Ho'. rewrite v3_deref_at by (lia || by rewrite Ho).
        by rewrite decide_False.
  - apply last_None in Hlast. rewrite Hlast in Hroom. cbn [length] in Hroom.
    assert (Z.of_nat (length (object_table s)) < 2 ^ 23) as Hlt
      by (unfold chunk_size in Hroom; lia).
    pose proof (v3_create_object_grow s Hlast Hlt) as Hc. cbv zeta in Hc.
    fold (slots s) in Hc.
    assert (0 <= slots s) as Hnonneg by (unfold slots, chunk_size; lia).
    set (s' := Table _ _) in Hc. exists (slots s), s'.
    assert (slots s' = slots s + chunk_size) as Hs'.
    { unfold slots, s'. cbn [object_table]. rewrite length_app. cbn [length]. lia. }
    split; [done|]. rewrite Hs'. split; [|split; [|split; [|split; [|split; [|split]]]]].
    + unfold wf. rewrite Hs'. cbn [s' object_table free_list].
      split; [rewrite length_app; cbn [length]; lia|]. split; [|split].
      * rewrite Forall_app, Forall_singleton. split; [done|].
        rewrite length_insert. apply length_replicate.
      * rewrite Forall_fmap, Forall_forall. intros x Hx. cbn.
        rewrite elem_of_reverse, elem_of_seqZ in Hx. lia.
      * apply NoDup_fmap_2_strong; [intros x y _ _; lia|].
        rewrite reverse_Permutation. apply NoDup_seqZ.
    + unfold room. cbn [s' object_table free_list].
      rewrite Hlast, length_fmap, length_reverse, length_seqZ, length_app.
      cbn [length]. unfold chunk_size. lia.
    + unfold chunk_size. lia.
    + cbn [s' free_list]. intros (o & Ho & Hin)%list_elem_of_fmap.
      rewrite elem_of_reverse, elem_of_seqZ in Hin. lia.
    + right. lia.
    + cbn [s' free_list]. intros k (o & -> & Hin)%list_elem_of_fmap.
      rewrite elem_of_reverse, elem_of_seqZ in Hin. right. lia.
    + split; [unfold chunk_size; lia|]. split.
      * unfold slots. rewrite v3_locate_first. unfold deref.
        cbn [s' chunk_of offset_of object_table].
        rewrite list_lookup_middle by done. done.
      * intros k o' Hk Hne. unfold deref. cbn [s' object_table].
        intros (chunk & Hck & Ho')%bind_Some.
        rewrite (lookup_app_l_Some _ _ _ _ Hck). done.
Qed.

(** Creations in a row, as far as there is room: different ids, each that
    of an object holding it, none of them on the free list. *)
Lemma v3_creates_ok n s :
  wf s -> Z.of_nat n <= room s ->
  exists hs s', create_objects n s = Done (hs, s') /\ length hs = n /\
    wf s' /\ room s' = room s - Z.of_nat n /\
    slots s <= slots s' /\
    NoDup hs /\
    (forall h, h ∈ hs ->
       0 <= h /\ (h ∉ free_list s') /\ (h ∈ free_list s \/ slots s <= h) /\
       deref s' (locate h) = Some (Object (Some h))) /\
    (forall k, k ∈ free_list s' -> k ∈ free_list s \/ slots s <= k) /\
    (forall k o, 0 <= k -> k ∉ hs -> deref s (locate k) = Some o ->
       deref s' (locate k) = Some o).
Proof.
  revert s. induction n as [|n IH]; intros s Hwf Hroom.
  - exists [], s. split; [done|]. split; [done|]. split; [done|]. split; [lia|].
    split; [done|]. split; [constructor|]. split; [|split; [by left|done]].
    intros h Hin. by apply elem_of_nil in Hin.
  - destruct (v3_create_object_step s Hwf) as
      (h & s1 & Hc & Hwf1 & Hr1 & Hh & Hnotin & Hfrom & Hfree & Hslots & Hd & Hold); [lia|].
    destruct (IH s1 Hwf1) as
      (hs & s' & Hcs & Hlen & Hwf' & Hr & Hslots' & Hnd & Hhs & Hfree' & Hkeep); [lia|].
    assert (h ∉ hs) as Hfresh.
    { intros Hin. destruct (Hhs _ Hin) as (_ & _ & [?|?] & _); [done|lia]. }
    exists (h :: hs), s'. unfold create_objects in *. cbn [creates]. unfold bind, ret.
    rewrite Hc, Hcs. split; [done|]. split; [by cbn [length]; rewrite Hlen|].
    split; [done|]. split; [lia|]. split; [lia|].
    split; [by apply NoDup_cons|]. split; [|split].
    + intros h' [->|Hin]%elem_of_cons.
      * split; [lia|]. split; [|split; [done|]].
        -- intros Hin. destruct (Hfree' _ Hin) as [?|?]; [done|lia].
        -- apply Hkeep; [lia|done|done].
      * destruct (Hhs _ Hin) as (Hh' & Hnotin' & Hfrom' & Hd').
        split; [done|]. split; [done|]. split; [|done].
        destruct Hfrom' as [Hin1|Hge]; [by apply Hfree|right; lia].
    + intros k Hk. destruct (Hfree' _ Hk) as [Hin1|Hge]; [by apply Hfree|right; lia].
    + intros k o Hk Hnot Ho. apply not_elem_of_cons in Hnot as [Hne Hnot].
      apply Hkeep; [done|done|]. by apply Hold.
Qed.

(** Destructions in a row of different ids that are each held by their
    object and not on the free list. *)
Lemma v3_destroys_ok hs s :
  wf s -> NoDup hs ->
  (forall h, h ∈ hs ->
     0 <= h /\ (h ∉ free_list s) /\ deref s (locate h) = Some (Object (Some h))) ->
  exists s', destroy_objects hs s = Done (tt, s') /\
    wf s' /\ room s' = room s + Z.of_nat (length hs) /\
    (forall h, h ∈ hs -> deref s' (locate h) = Some (Object (Some (-1)))) /\
    (forall k o, 0 <= k -> k ∉ hs -> deref s (locate k) = Some o ->
       deref s' (locate k) = Some o).
Proof.
  unfold destroy_objects. revert s. induction hs as [|h hs IH]; intros s Hwf Hnd Hlive.
  - exists s. split; [done|]. split; [done|]. split; [cbn [length]; lia|].
    split; [|done]. intros h Hin. by apply elem_of_nil in Hin.
  - apply NoDup_cons in Hnd as [Hnotin Hnd].
    destruct (Hlive h) as (Hh & Hfree & Hd); [by left|].
    pose proof Hwf as (Hcap & Hchunks & Hfl & Hndf).
    pose proof (v3_deref_slots s h _ Hh Hd) as Hlt.
    assert (slots s <= 2 ^ 31) as Hslots by (unfold slots, chunk_size; lia).
    assert (is_Some (deref s (locate h))) as Hsome by (by rewrite Hd).
    set (s1 := Table (assign s (locate h) (-1)) (free_list s ++ [h])).
    assert (destroy_object h s = Done (tt, s1)) as Hdo.
    { rewrite v3_destroy_object_deref, Hd by lia. by rewrite decide_False by lia. }
    destruct (IH s1) as (s' & Hds & Hwf' & Hr & Hhs & Hkeep).
    { apply v3_wf_assign; [done| |].
      - rewrite Forall_app, Forall_singleton. split; [done|lia].
      - apply NoDup_app. split; [done|]. split; [|apply NoDup_singleton].
        intros k Hk Hk'%list_elem_of_singleton. by subst k. }
    { done. }
    { intros h' Hin. destruct (Hlive h') as (Hh' & Hfree' & Hd'); [by right|].
      split; [done|]. split.
      - cbn [s1 free_list]. intros [?|Heq%list_elem_of_singleton]%elem_of_app; [done|].
        by subst h'.
      - unfold s1. rewrite v3_deref_at by done.
        rewrite decide_False; [done|]. intros ->. done. }
    exists s'. cbn [destroys]. unfold bind. rewrite Hdo.
    split; [done|]. split; [done|]. split; [|split].
    + rewrite Hr. unfold room, s1, assign. cbn [object_table free_list length].
      rewrite length_alter, length_app. cbn [length]. lia.
    + intros h' [->|Hin]%elem_of_cons; [|by apply Hhs].
      apply Hkeep; [done|done|]. unfold s1. rewrite v3_deref_at by done.
      by rewrite decide_True.
    + intros k o Hk Hnot Ho. apply not_elem_of_cons in Hnot as [Hne Hnot].
      apply Hkeep; [done|done|]. unfold s1. rewrite v3_deref_at by done.
      by rewrite decide_False.
Qed.

Lemma v3_round n s :
  wf s -> Z.of_nat n <= room s ->
  exists hs s1 s2,
    create_objects n s = Done (hs, s1) /\ length hs = n /\ NoDup hs /\
    (forall h, h ∈ hs -> test.found3 s1 h) /\
    destroy_objects hs s1 = Done (tt, s2) /\
    (forall h, h ∈ hs -> test.gone3 s2 h) /\
    wf s2 /\ room s2 = room s.
Proof.
  intros Hwf Hroom.
  destruct (v3_creates_ok n s Hwf Hroom) as
    (hs & s1 & Hcs & Hlen & Hwf1 & Hr1 & _ & Hnd & Hhs & _).
  destruct (v3_destroys_ok hs s1 Hwf1 Hnd) as (s2 & Hds & Hwf2 & Hr2 & Hgone & _).
  { intros h Hin. destruct (Hhs _ Hin) as (? & ? & _ & ?). done. }
  assert (forall t h o, 0 <= h -> wf t -> deref t (locate h) = Some o -> 0 <= h < 2 ^ 31)
    as Hint.
  { intros t h o Hh (Hcap & _) Hd. pose proof (v3_deref_slots t h o Hh Hd).
    unfold slots, chunk_size in *. lia. }
  exists hs, s1, s2. split; [done|]. split; [done|]. split; [done|].
  split; [|split; [done|split; [|split]]].
  - intros h Hin. destruct (Hhs _ Hin) as (Hh & _ & _ & Hd).
    exists (locate h). rewrite v3_get_object_deref, Hd by apply (Hint s1 h _ Hh Hwf1 Hd).
    rewrite decide_False by lia. split; [done|]. unfold load_id. by rewrite Hd.
  - intros h Hin. destruct (Hhs _ Hin) as (Hh & _ & _ & Hd). unfold test.gone3.
    rewrite v3_get_object_deref, (Hgone _ Hin) by apply (Hint s2 h _ Hh Hwf2 (Hgone _ Hin)).
    done.
  - done.
  - lia.
Qed.

(** v3.  One round of the test program on the chunks.  From a table of at
    most [2 ^ 23] chunks whose free list holds numbers of allocated slots,
    none twice, with room for [n] objects: [n] calls of [create_object]
    return, with ids that differ from one another; [get_object] then finds
    every id returned, in an object that holds it; destroying the ids one
    after the other returns, and afterwards [get_object] of each of them is
    [nullptr]; the table is again as required, with the room it had. *)
Theorem v3_test_round n s :
  wf s -> Z.of_nat n <= room s ->
  exists hs s1 s2,
    create_objects n s = Done (hs, s1) /\ length hs = n /\ NoDup hs /\
    (forall h, h ∈ hs -> test.found3 s1 h) /\
    destroy_objects hs s1 = Done (tt, s2) /\
    (forall h, h ∈ hs -> test.gone3 s2 h) /\
    wf s2 /\ room s2 = room s.
Proof. apply v3_round. Qed.

Lemma v3_test_round_witness :
  exists hs s1 s2,
    create_objects 2 empty = Done (hs, s1) /\ length hs = 2%nat /\ NoDup hs /\
    (forall h, h ∈ hs -> test.found3 s1 h) /\
    destroy_objects hs s1 = Done (tt, s2) /\
    (forall h, h ∈ hs -> test.gone3 s2 h) /\
    wf s2 /\ room s2 = room empty.
Proof.
  apply (v3_test_round 2 empty).
  - split; [by vm_compute|]. split; [constructor|]. split; constructor.
  - by vm_compute.
Defined.

(** v3.  Neither [get_object] nor [destroy_object] checks the id: for an
    [int] that is negative or not below the number of allocated slots, both
    index the vector of chunks out of bounds. *)
Theorem v3_id_out_of_range_undefined h s :
  Z.of_nat (length (object_table s)) <= 2 ^ 23 -> is_int h ->
  h < 0 \/ slots s <= h ->
  get_object h s = Fault OutOfBounds /\ destroy_object h s = Fault OutOfBounds.
Proof.
  intros Hlen Hint Hout. unfold is_int in Hint. unfold slots in Hout.
  assert (table_at (to_size_t h / chunk_size) s = Fault OutOfBounds) as Hat.
  { unfold table_at. rewrite decide_False; [done|].
    assert (Z.of_nat (length (object_table s)) <= to_size_t h / chunk_size); [|lia].
    apply Z.div_le_lower_bound; [done|].
    destruct (decide (h < 0)) as [Hneg|Hpos].
    - unfold to_size_t.
      rewrite <- (Z.mod_unique (h) (2 ^ 64) (-1) (h + 2 ^ 64)) by lia.
      unfold chunk_size. lia.
    - rewrite to_size_t_id by lia. lia. }
  assert (get_object h s = Fault OutOfBounds) as Hg.
  { unfold get_object, bind. by rewrite Hat. }
  split; [done|]. unfold destroy_object, bind. by rewrite Hg.
Qed.

Lemma v3_id_out_of_range_undefined_witness :
  get_object 256 (Table [<[0%nat := Object (Some 0)]> new_chunk]
                        (Z.add 0 <$> reverse (seqZ 1 (chunk_size - 1)))) =
    Fault OutOfBounds /\
  destroy_object 256 (Table [<[0%nat := Object (Some 0)]> new_chunk]
                            (Z.add 0 <$> reverse (seqZ 1 (chunk_size - 1)))) =
    Fault OutOfBounds.
Proof.
  apply (v3_id_out_of_range_undefined 256).
  - by vm_compute.
  - by vm_compute.
  - right. by vm_compute.
Defined.

End V3Facts.

(** ** The test program *)

Module TestFacts.
Import Sem SemFacts test.

Ltac world := cbn [t1 t2 t3 t4 v1_ids v2_ids v3_ids v4_ids negb].
Ltac world_all := cbn [t1 t2 t3 t4 v1_ids v2_ids v3_ids v4_ids] in *.
Ltac run_world :=
  unfold assert, id1, id2, id3, id4, id_at, is_null, call1, call2, call3, call4,
    push1, push2, push3, push4, at_ids, clear_ids;
  unfold bind, ret, fail; world.

(** A loop whose body returns without changing the world. *)
Lemma loop_same n i body w :
  (forall k, i <= k < i + Z.of_nat n -> body k w = Done (tt, w)) ->
  loop n i body w = Done (tt, w).
Proof.
  revert i. induction n as [|n IH]; intros i Hbody; [done|].
  cbn [loop]. unfold bind. rewrite Hbody by lia. apply IH. intros k Hk. apply Hbody. lia.
Qed.

(** A loop whose body keeps an invariant. *)
Lemma loop_inv (I : Z -> world -> Prop) n i body w :
  (forall k w, i <= k < i + Z.of_nat n -> I k w ->
     exists w', body k w = Done (tt, w') /\ I (k + 1) w') ->
  I i w -> exists w', loop n i body w = Done (tt, w') /\ I (i + Z.of_nat n) w'.
Proof.
  revert i w. induction n as [|n IH]; intros i w Hbody Hi.
  - exists w. split; [done|]. by rewrite Z.add_0_r.
  - destruct (Hbody i w) as (w1 & Hb & Hi1); [lia|done|].
    destruct (IH (i + 1) w1) as (w' & Hl & Hi'); [|done|].
    { intros k w2 Hk. apply Hbody. lia. }
    exists w'. cbn [loop]. unfold bind. rewrite Hb. split; [done|].
    by replace (i + Z.of_nat (S n)) with (i + 1 + Z.of_nat n) by lia.
Qed.

(** The first loop: the four tables are created in independently. *)
Lemma create_all_run i w (h1 : Z) u1 (h2 : Z) u2 (h3 : Z) u3 (h4 : Z) u4 :
  v1.create_object (t1 w) = Done (h1, u1) ->
  v2.create_object (t2 w) = Done (h2, u2) ->
  v3.create_object (t3 w) = Done (h3, u3) ->
  v4.create_object (t4 w) = v4.Ok (h4, u4) ->
  create_all i w =
  Done (tt, World u1 u2 u3 u4 (v1_ids w ++ [h1]) (v2_ids w ++ [h2])
                  (v3_ids w ++ [h3]) (v4_ids w ++ [h4])).
Proof.
  intros E1 E2 E3 E4. unfold create_all. run_world.
  rewrite E1. world. rewrite E2. world. rewrite E3. world. rewrite E4. done.
Qed.

Lemma loop_create_all n i w (hs1 : list Z) u1 (hs2 : list Z) u2
    (hs3 : list Z) u3 (hs4 : list Z) u4 :
  v1.create_objects n (t1 w) = Done (hs1, u1) ->
  v2.create_objects n (t2 w) = Done (hs2, u2) ->
  v3.create_objects n (t3 w) = Done (hs3, u3) ->
  v4_loops.create_objects n (t4 w) = v4.Ok (hs4, u4) ->
  loop n i create_all w =
  Done (tt, World u1 u2 u3 u4 (v1_ids w ++ hs1) (v2_ids w ++ hs2)
                  (v3_ids w ++ hs3) (v4_ids w ++ hs4)).
Proof.
  unfold v1.create_objects, v2.create_objects, v3.create_objects.
  revert i w hs1 u1 hs2 u2 hs3 u3 hs4 u4.
  induction n as [|n IH]; intros i w hs1 u1 hs2 u2 hs3 u3 hs4 u4.
  - cbn [creates v4_loops.create_objects loop]. unfold ret, v4.ret.
    intros [<- <-]%Done_inj [<- <-]%Done_inj [<- <-]%Done_inj [<- <-]%PoolFacts.Ok_inj.
    rewrite !app_nil_r. by destruct w.
  - cbn [creates v4_loops.create_objects loop]. unfold bind at 1 3 5 7, v4.bind at 1.
    destruct (v1.create_object (t1 w)) as [[h1 x1]|] eqn:E1; [|done].
    destruct (v2.create_object (t2 w)) as [[h2 x2]|] eqn:E2; [|done].
    destruct (v3.create_object (t3 w)) as [[h3 x3]|] eqn:E3; [|done].
    destruct (v4.create_object (t4 w)) as [[h4 x4]|] eqn:E4; [|done].
    unfold bind at 1 2 3, ret, v4.bind, v4.ret.
    destruct (creates v1.create_object n x1) as [[l1 y1]|] eqn:C1; [|done].
    destruct (creates v2.create_object n x2) as [[l2 y2]|] eqn:C2; [|done].
    destruct (creates v3.create_object n x3) as [[l3 y3]|] eqn:C3; [|done].
    destruct (v4_loops.create_objects n x4) as [[l4 y4]|] eqn:C4; [|done].
    intros [<- <-]%Done_inj [<- <-]%Done_inj [<- <-]%Done_inj [<- <-]%PoolFacts.Ok_inj.
    unfold bind. rewrite (create_all_run i w _ _ _ _ _ _ _ _ E1 E2 E3 E4).
    rewrite (IH (i + 1) _ l1 y1 l2 y2 l3 y3 l4 y4) by done. world.
    by rewrite <- !app_assoc.
Qed.

(** The second loop. *)
Lemma check_all_run i w (h1 h2 h3 h4 : Z) :
  v1_ids w !! Z.to_nat i = Some h1 -> v2_ids w !! Z.to_nat i = Some h2 ->
  v3_ids w !! Z.to_nat i = Some h3 -> v4_ids w !! Z.to_nat i = Some h4 ->
  found1 (t1 w) h1 -> found2 (t2 w) h2 -> found3 (t3 w) h3 -> found4 (t4 w) h4 ->
  check_all i w = Done (tt, w).
Proof.
  intros I1 I2 I3 I4 (p1 & G1 & D1) (p2 & G2 & D2) (p3 & G3 & D3) (p4 & G4 & D4).
  destruct w as [a1 a2 a3 a4 l1 l2 l3 l4]. world_all.
  unfold check_all. run_world.
  repeat (first [rewrite I1|rewrite I2|rewrite I3|rewrite I4
                |rewrite G1|rewrite G2|rewrite G3|rewrite G4
                |rewrite D1|rewrite D2|rewrite D3|rewrite D4
                |rewrite bool_decide_eq_true_2 by done];
          cbn [t1 t2 t3 t4 v1_ids v2_ids v3_ids v4_ids negb mbind option_bind v1.id v2.id]).
  done.
Qed.

(** The third loop. *)
Lemma destroy_all_run i w (h1 : Z) u1 (h2 : Z) u2 (h3 : Z) u3 (h4 : Z) u4 :
  v1_ids w !! Z.to_nat i = Some h1 -> v2_ids w !! Z.to_nat i = Some h2 ->
  v3_ids w !! Z.to_nat i = Some h3 -> v4_ids w !! Z.to_nat i = Some h4 ->
  v1.destroy_object h1 (t1 w) = Done (tt, u1) ->
  v2.destroy_object h2 (t2 w) = Done (tt, u2) ->
  v3.destroy_object h3 (t3 w) = Done (tt, u3) ->
  v4.destroy_object h4 (t4 w) = v4.Ok (tt, u4) ->
  destroy_all i w =
  Done (tt, World u1 u2 u3 u4 (v1_ids w) (v2_ids w) (v3_ids w) (v4_ids w)).
Proof.
  intros I1 I2 I3 I4 E1 E2 E3 E4.
  destruct w as [a1 a2 a3 a4 l1 l2 l3 l4]. world_all.
  unfold destroy_all. run_world.
  repeat (first [rewrite I1|rewrite I2|rewrite I3|rewrite I4
                |rewrite E1|rewrite E2|rewrite E3|rewrite E4]; world).
  done.
Qed.

Lemma loop_destroy_all n i w (pre1 hs1 : list Z) u1 (pre2 hs2 : list Z) u2
    (pre3 hs3 : list Z) u3 (pre4 hs4 : list Z) u4 :
  0 <= i ->
  v1_ids w = pre1 ++ hs1 -> length pre1 = Z.to_nat i -> length hs1 = n ->
  v2_ids w = pre2 ++ hs2 -> length pre2 = Z.to_nat i -> length hs2 = n ->
  v3_ids w = pre3 ++ hs3 -> length pre3 = Z.to_nat i -> length hs3 = n ->
  v4_ids w = pre4 ++ hs4 -> length pre4 = Z.to_nat i -> length hs4 = n ->
  v1.destroy_objects hs1 (t1 w) = Done (tt, u1) ->
  v2.destroy_objects hs2 (t2 w) = Done (tt, u2) ->
  v3.destroy_objects hs3 (t3 w) = Done (tt, u3) ->
  v4_loops.destroy_objects hs4 (t4 w) = v4.Ok (tt, u4) ->
  loop n i destroy_all w =
  Done (tt, World u1 u2 u3 u4 (v1_ids w) (v2_ids w) (v3_ids w) (v4_ids w)).
Proof.
  unfold v1.destroy_objects, v2.destroy_objects, v3.destroy_objects.
  revert i w pre1 hs1 u1 pre2 hs2 u2 pre3 hs3 u3 pre4 hs4 u4.
  induction n as [|n IH];
    intros i w pre1 hs1 u1 pre2 hs2 u2 pre3 hs3 u3 pre4 hs4 u4 Hi
      V1 P1 L1 V2 P2 L2 V3 P3 L3 V4 P4 L4.
  - apply nil_length_inv in L1, L2, L3, L4. subst hs1 hs2 hs3 hs4.
    cbn [destroys v4_loops.destroy_objects loop]. unfold ret, v4.ret.
    intros [_ <-]%Done_inj [_ <-]%Done_inj [_ <-]%Done_inj [_ <-]%PoolFacts.Ok_inj.
    by destruct w.
  - destruct hs1 as [|h1 hs1]; [done|]. destruct hs2 as [|h2 hs2]; [done|].
    destruct hs3 as [|h3 hs3]; [done|]. destruct hs4 as [|h4 hs4]; [done|].
    cbn [length] in L1, L2, L3, L4.
    cbn [destroys v4_loops.destroy_objects loop]. unfold bind at 1 2 3, v4.bind at 1.
    destruct (v1.destroy_object h1 (t1 w)) as [[[] x1]|] eqn:E1; [|done].
    destruct (v2.destroy_object h2 (t2 w)) as [[[] x2]|] eqn:E2; [|done].
    destruct (v3.destroy_object h3 (t3 w)) as [[[] x3]|] eqn:E3; [|done].
    destruct (v4.destroy_object h4 (t4 w)) as [[[] x4]|] eqn:E4; [|done].
    intros C1 C2 C3 C4. unfold bind.
    rewrite (destroy_all_run i w h1 x1 h2 x2 h3 x3 h4 x4);
      [|by rewrite V1; apply list_lookup_middle|by rewrite V2; apply list_lookup_middle
       |by rewrite V3; apply list_lookup_middle|by rewrite V4; apply list_lookup_middle
       |done..].
    rewrite (IH (i + 1) _ (pre1 ++ [h1]) hs1 u1 (pre2 ++ [h2]) hs2 u2
                (pre3 ++ [h3]) hs3 u3 (pre4 ++ [h4]) hs4 u4); world;
      rewrite ?length_app; cbn [length]; rewrite <- ?app_assoc; try done; try lia.
Qed.

(** The fourth loop. *)
Lemma check_none_run i w (h1 h2 h3 h4 : Z) :
  v1_ids w !! Z.to_nat i = Some h1 -> v2_ids w !! Z.to_nat i = Some h2 ->
  v3_ids w !! Z.to_nat i = Some h3 -> v4_ids w !! Z.to_nat i = Some h4 ->
  gone1 (t1 w) h1 -> gone2 (t2 w) h2 -> gone3 (t3 w) h3 -> gone4 (t4 w) h4 ->
  check_none i w = Done (tt, w).
Proof.
  unfold gone1, gone2, gone3, gone4. intros I1 I2 I3 I4 G1 G2 G3 G4.
  destruct w as [a1 a2 a3 a4 l1 l2 l3 l4]. world_all.
  unfold check_none. run_world.
  repeat (first [rewrite I1|rewrite I2|rewrite I3|rewrite I4
                |rewrite G1|rewrite G2|rewrite G3|rewrite G4]; world).
  done.
Qed.

Lemma loop_check_all n w :
  length (v1_ids w) = n -> length (v2_ids w) = n ->
  length (v3_ids w) = n -> length (v4_ids w) = n ->
  (forall h, h ∈ v1_ids w -> found1 (t1 w) h) ->
  (forall h, h ∈ v2_ids w -> found2 (t2 w) h) ->
  (forall h, h ∈ v3_ids w -> found3 (t3 w) h) ->
  (forall h, h ∈ v4_ids w -> found4 (t4 w) h) ->
  loop n 0 check_all w = Done (tt, w).
Proof.
  intros L1 L2 L3 L4 F1 F2 F3 F4. apply loop_same. intros k Hk.
  destruct (lookup_lt_is_Some_2 (v1_ids w) (Z.to_nat k)) as [h1 I1]; [lia|].
  destruct (lookup_lt_is_Some_2 (v2_ids w) (Z.to_nat k)) as [h2 I2]; [lia|].
  destruct (lookup_lt_is_Some_2 (v3_ids w) (Z.to_nat k)) as [h3 I3]; [lia|].
  destruct (lookup_lt_is_Some_2 (v4_ids w) (Z.to_nat k)) as [h4 I4]; [lia|].
  apply (check_all_run k w h1 h2 h3 h4); try done.
  - apply F1. by eapply list_elem_of_lookup_2.
  - apply F2. by eapply list_elem_of_lookup_2.
  - apply F3. by eapply list_elem_of_lookup_2.
  - apply F4. by eapply list_elem_of_lookup_2.
Qed.

Lemma loop_check_none n w :
  length (v1_ids w) = n -> length (v2_ids w) = n ->
  length (v3_ids w) = n -> length (v4_ids w) = n ->
  (forall h, h ∈ v1_ids w -> gone1 (t1 w) h) ->
  (forall h, h ∈ v2_ids w -> gone2 (t2 w) h) ->
  (forall h, h ∈ v3_ids w -> gone3 (t3 w) h) ->
  (forall h, h ∈ v4_ids w -> gone4 (t4 w) h) ->
  loop n 0 check_none w = Done (tt, w).
Proof.
  intros L1 L2 L3 L4 F1 F2 F3 F4. apply loop_same. intros k Hk.
  destruct (lookup_lt_is_Some_2 (v1_ids w) (Z.to_nat k)) as [h1 I1]; [lia|].
  destruct (lookup_lt_is_Some_2 (v2_ids w) (Z.to_nat k)) as [h2 I2]; [lia|].
  destruct (lookup_lt_is_Some_2 (v3_ids w) (Z.to_nat k)) as [h3 I3]; [lia|].
  destruct (lookup_lt_is_Some_2 (v4_ids w) (Z.to_nat k)) as [h4 I4]; [lia|].
  apply (check_none_run k w h1 h2 h3 h4); try done.
  - apply F1. by eapply list_elem_of_lookup_2.
  - apply F2. by eapply list_elem_of_lookup_2.
  - apply F3. by eapply list_elem_of_lookup_2.
  - apply F4. by eapply list_elem_of_lookup_2.
Qed.

(** One round of the outer loop, from what the calls of each namespace do. *)
Lemma round_run j w (hs1 hs2 hs3 hs4 : list Z) x1 y1 x2 y2 x3 y3 x4 y4 :
  v1_ids w = [] -> v2_ids w = [] -> v3_ids w = [] -> v4_ids w = [] ->
  v1.create_objects 1000 (t1 w) = Done (hs1, x1) /\ length hs1 = 1000%nat /\
    (forall h, h ∈ hs1 -> found1 x1 h) /\
    v1.destroy_objects hs1 x1 = Done (tt, y1) /\ (forall h, h ∈ hs1 -> gone1 y1 h) ->
  v2.create_objects 1000 (t2 w) = Done (hs2, x2) /\ length hs2 = 1000%nat /\
    (forall h, h ∈ hs2 -> found2 x2 h) /\
    v2.destroy_objects hs2 x2 = Done (tt, y2) /\ (forall h, h ∈ hs2 -> gone2 y2 h) ->
  v3.create_objects 1000 (t3 w) = Done (hs3, x3) /\ length hs3 = 1000%nat /\
    (forall h, h ∈ hs3 -> found3 x3 h) /\
    v3.destroy_objects hs3 x3 = Done (tt, y3) /\ (forall h, h ∈ hs3 -> gone3 y3 h) ->
  v4_loops.create_objects 1000 (t4 w) = v4.Ok (hs4, x4) /\ length hs4 = 1000%nat /\
    (forall h, h ∈ hs4 -> found4 x4 h) /\
    v4_loops.destroy_objects hs4 x4 = v4.Ok (tt, y4) /\ (forall h, h ∈ hs4 -> gone4 y4 h) ->
  round j w = Done (tt, World y1 y2 y3 y4 [] [] [] []).
Proof.
  intros V1 V2 V3 V4 (C1 & L1 & F1 & D1 & G1) (C2 & L2 & F2 & D2 & G2)
    (C3 & L3 & F3 & D3 & G3) (C4 & L4 & F4 & D4 & G4).
  unfold round. unfold bind at 1.
  rewrite (loop_create_all 1000 0 w hs1 x1 hs2 x2 hs3 x3 hs4 x4) by done.
  rewrite V1, V2, V3, V4, !app_nil_l. cbv beta iota.
  unfold bind at 1. rewrite (loop_check_all 1000) by done. cbv beta iota.
  unfold bind at 1.
  rewrite (loop_destroy_all 1000 0 _ [] hs1 y1 [] hs2 y2 [] hs3 y3 [] hs4 y4) by done.
  world. cbv beta iota.
  unfold bind at 1. rewrite (loop_check_none 1000) by done. done.
Qed.

Lemma round_ready k w :
  0 <= k -> 1000 * (k + 1) < 2 ^ 31 -> ready k w ->
  exists w', round k w = Done (tt, w') /\ ready (k + 1) w'.
Proof.
  unfold ready at 1.
  intros Hk Hmax (Hi1 & Hi2 & Hi3 & Hi4 & Hinv & Hnext & Hwf2 & Hr2 & Hwf3 & Hr3 &
    Hwf4 & Hnd4 & Hr4).
  assert (Z.of_nat 1000 = 1000) as Hn by reflexivity.
  destruct (V1Facts.v1_round 1000 (t1 w) Hinv) as
    (hs1 & x1 & y1 & C1 & L1 & F1 & D1 & G1 & Hinv' & Hr1').
  { unfold v1.room. lia. }
  destruct (V2Facts.v2_round 1000 (t2 w) Hwf2) as
    (hs2 & x2 & y2 & C2 & L2 & F2 & D2 & G2 & Hwf2' & Hr2'); [lia|].
  destruct (V3Facts.v3_round 1000 (t3 w) Hwf3) as
    (hs3 & x3 & y3 & C3 & L3 & _ & F3 & D3 & G3 & Hwf3' & Hr3'); [lia|].
  destruct (SlotMapFacts.v4_round 1000 (t4 w) Hwf4 Hnd4) as
    (hs4 & x4 & y4 & C4 & L4 & F4 & D4 & G4 & Hwf4' & Hnd4' & Hr4'); [lia|].
  exists (World y1 y2 y3 y4 [] [] [] []). split.
  - by apply (round_run k w hs1 hs2 hs3 hs4 x1 y1 x2 y2 x3 y3 x4 y4).
  - unfold ready. world. do 4 (split; [done|]). split; [done|].
    split; [unfold v1.room in Hr1'; lia|].
    split; [done|]. split; [lia|]. split; [done|]. split; [lia|].
    split; [done|]. split; [done|]. lia.
Qed.

Lemma rounds_return n :
  1000 * Z.of_nat n < 2 ^ 31 ->
  exists w, loop n 0 round initial = Done (tt, w) /\ ready (Z.of_nat n) w.
Proof.
  intros Hn.
  destruct (loop_inv (fun k w => 0 <= k /\ ready k w) n 0 round initial) as (w & Hl & _ & Hw).
  - intros k w Hk [_ Hready].
    destruct (round_ready k w) as (w' & Hround & Hready'); [lia|lia|done|].
    exists w'. split; [done|]. split; [lia|done].
  - split; [done|]. unfold ready, initial. world.
    do 4 (split; [done|]). split; [apply V1Facts.v1_inv_empty|]. split; [done|].
    split; [split; [cbn; lia|constructor]|]. split; [done|].
    split; [split; [cbn; lia|]; split; [constructor|]; split; constructor|].
    split; [done|].
    split; [apply PoolFacts.wf_empty|]. split; [constructor|done].
  - by exists w.
Qed.

(** The test program runs to its end: from the empty tables, each of the
    twenty rounds creates a thousand objects in every table, finds each of
    them under its id, destroys them and finds none of them any more; no
    assertion fails and no call has undefined behaviour.  Afterwards the
    vectors of ids are empty, [v1] has handed out 20000 ids and the other
    three tables have the room they started with. *)
Theorem main_returns : exists w, main initial = Done (tt, w) /\ ready 20 w.
Proof. apply (rounds_return 20). lia. Qed.


End TestFacts.
